(** * ftsrelay: a shallow embedding of the relay's request, write and
      fan-out paths, with the properties of its specification stated and
      settled over it.

    The code embedded is the current revision of the server module
    (src/unnamed/part_003: [_handleRequest], [_handleEvent],
    [_validateEvent], [_getFirstTag], [_serialize], [_handleClose] and the
    websocket [close] handler) together with the schema and triggers of
    setup.js.

    Conventions.
    - A websocket [ws] is identified by [ws.data.createdAt]; the REST
      bridge calls the handlers with [ws = null], here [None].
    - A handler returns the new process state, the effects it had in order
      ([ws.send], [ws.subscribe], [server.publish] and the SQL statements
      run), and what it returned or threw.
    - The embedded SQL store is modelled by the three tables and the two
      triggers that setup.js creates.  An unordered [SELECT] scans in rowid
      order, [.get] takes the first row of that scan, and [ORDER BY
      created_at DESC] keeps the scan order among equal [created_at].
    - The INSERT is built by splicing the keys of the submitted object into
      the statement text.  The statement of an object with exactly the seven
      event keys is modelled row by row; what the engine makes of any other
      text (an alias such as rowid, an unknown column, a key that carries
      SQL of its own) is a parameter of the development.
    - The full-text [MATCH] and the [LIKE] over the raw tags column are
      engine oracles, as are signature verification, the npub encoding and
      the contents of authorized.json.
    - Values are typed as verified events have them: [kind], [created_at],
      [since], [until] and [limit] are integers, ids and tag values are
      strings, [ids], [authors], [kinds] and the [#X] keys hold arrays. *)

From Stdlib Require Import List String Ascii ZArith NArith Bool Lia.
From Stdlib Require Import Decimal DecimalString Permutation.
From Stdlib Require Import DecimalN DecimalPos.
Import ListNotations.

Set Implicit Arguments.

Local Open Scope string_scope.
Local Open Scope list_scope.
Local Open Scope Z_scope.

(* ================================================================== *)
(** ** Values thrown and returned *)

(** What a [throw] carries.  The relay only ever prints it (["error: " + e]),
    so the kinds of failure are enough. *)
Inductive Exn : Type :=
| TypeError                         (* property access on undefined *)
| NoSuchColumn (column : string)    (* no such column, no column named ... *)
| NotNullConstraint                 (* NOT NULL constraint failed: tags_index.value *)
| NestedTransaction                 (* cannot start a transaction within a transaction *)
| SqlSyntaxError                    (* the statement text does not parse *)
| SQLiteError (message : string)    (* any other error of the engine, as it words it *)
| FtsSyntaxError                    (* fts5: syntax error in the MATCH expression *)
| BadInput.                         (* 'bad input (or your pubkey is restricted)' *)

Inductive Result (A : Type) : Type :=
| Return (a : A)
| Throw (e : Exn).
Arguments Return {A} a.
Arguments Throw {A} e.

Definition rbind {A B} (r : Result A) (k : A -> Result B) : Result B :=
  match r with
  | Return a => k a
  | Throw e => Throw e
  end.

(* ================================================================== *)
(** ** Events *)

Definition Tag := list string.

(** The seven fields every verified event carries. *)
Record Event : Type := mkEvent {
  id : string;
  pubkey : string;
  sig : string;
  kind : Z;
  created_at : Z;
  content : string;
  tags : list Tag
}.

(** A JSON value found under an additional top-level key. *)
Inductive JValue : Type :=
| JNull
| JBool (b : bool)
| JNum (z : Z)
| JStr (s : string)
| JComposite (json : string).       (* an array or object, with its JSON text *)

(** The submitted object: the event fields, then any other own keys.  The
    record lists the seven fields in the order of the schema; an object that
    orders them otherwise submits the same statement up to the order of its
    column list and of its parameters. *)
Record Payload : Type := mkPayload {
  base :> Event;
  extra : list (string * JValue)
}.

(** [tags.find(t => t[0] == name)?.[1]] *)
Definition _getFirstTag (tags : list Tag) (name : string) : option string :=
  match find (fun t => match t with
                       | t0 :: _ => String.eqb t0 name
                       | [] => false
                       end) tags with
  | Some t => nth_error t 1
  | None => None
  end.

(** [s.startsWith(p)] *)
Definition startsWith (s p : string) : bool := String.prefix p s.

(* ================================================================== *)
(** ** Search strings

    The sanitizing regular expression has no [u] flag, so it works on
    UTF-16 code units; a search string is kept as the list of its units. *)

Definition jsstring := list N.

Definition is_word (c : N) : bool :=
  (((48 <=? c) && (c <=? 57)) || ((65 <=? c) && (c <=? 90))
   || ((97 <=? c) && (c <=? 122)) || (c =? 95))%N.

(** The class [\s]: white space and line terminators. *)
Definition is_space (c : N) : bool :=
  (((9 <=? c) && (c <=? 13)) || (c =? 32) || (c =? 160) || (c =? 5760)
   || ((8192 <=? c) && (c <=? 8202)) || (c =? 8232) || (c =? 8233)
   || (c =? 8239) || (c =? 8287) || (c =? 12288) || (c =? 65279))%N.

(** One alternative of [/[^\w\s]|_/gi] matches at the unit [c]. *)
Definition search_regex_matches (c : N) : bool :=
  negb (is_word c || is_space c) || (c =? 95)%N.

(** [search.replace(/[^\w\s]|_/gi, " ")] *)
Definition sanitize (search : jsstring) : jsstring :=
  map (fun c => if search_regex_matches c then 32%N else c) search.

Definition units (s : string) : jsstring :=
  map N_of_ascii (list_ascii_of_string s).

(* ================================================================== *)
(** ** Filters *)

(** [filter.search] as it arrives: a string, or an array of strings. *)
Inductive Search : Type :=
| SearchString (s : jsstring)
| SearchArray (a : list jsstring).

(** A filter object.  [hashKeys] holds its remaining array-valued own
    keys (["#d"], ["#t"], ...): the query builder skips those that fail
    [slRegex], unless [filterMappings] inherits a value for them (see
    [prepare]). *)
Record Filter : Type := mkFilter {
  ids : option (list string);
  authors : option (list string);
  kinds : option (list Z);
  hashKeys : list (string * list string);
  since : option Z;
  until : option Z;
  search : option Search;
  limit : option Z
}.

Definition set_ids (f : Filter) (v : list string) : Filter :=
  mkFilter (Some v) (authors f) (kinds f) (hashKeys f)
           (since f) (until f) (search f) (limit f).

Definition set_search (f : Filter) (v : Search) : Filter :=
  mkFilter (ids f) (authors f) (kinds f) (hashKeys f)
           (since f) (until f) (Some v) (limit f).

Definition is_letter (c : ascii) : bool :=
  let n := N_of_ascii c in
  (((65 <=? n) && (n <=? 90)) || ((97 <=? n) && (n <=? 122)))%N.

(** [slRegex = /^#[A-Za-z]$/]: the test, returning [filterKey[1]]. *)
Definition slRegex (filterKey : string) : option ascii :=
  match filterKey with
  | String "#" (String letter EmptyString) =>
      if is_letter letter then Some letter else None
  | _ => None
  end.

(** The kinds of the admission gate in [_handleRequest]. *)
Definition zapstore_kinds : list Z := [1011; 1063; 30063; 32267; 30267].

(** [filter.kinds && filter.kinds.some(k => [...].includes(k))] *)
Definition admitted (f : Filter) : bool :=
  match kinds f with
  | None => false
  | Some ks => existsb (fun k => existsb (Z.eqb k) zapstore_kinds) ks
  end.

(** [if (Array.isArray(filter.search) && filter.search.length === 1)
       filter.search = filter.search[0]] *)
Definition normalize_search (f : Filter) : Filter :=
  match search f with
  | Some (SearchArray [s]) => set_search f (SearchString s)
  | _ => f
  end.

(** Truthiness of [filter.search]. *)
Definition search_truthy (f : Filter) : bool :=
  match search f with
  | None => false
  | Some (SearchString s) => negb (Nat.eqb (List.length s) 0)
  | Some (SearchArray _) => true
  end.

(* ================================================================== *)
(** ** The store (setup.js) *)

Record Row : Type := mkRow {
  rowid : Z;
  row_event :> Event
}.

Record Db : Type := mkDb {
  events : list Row;
  tags_index : list (Z * string);           (* (fid, value) *)
  events_fts : list (Z * option string);    (* (rowid, text) *)
  in_transaction : bool
}.

Definition empty_db : Db := mkDb [] [] [] false.

Definition events_columns : list string :=
  ["id"; "pubkey"; "sig"; "kind"; "created_at"; "content"; "tags"].

Inductive SqlValue : Type :=
| SqlNull
| SqlInt (z : Z)
| SqlBool (b : bool)
| SqlText (s : string)
| SqlTagsJson (t : list Tag).      (* the text [JSON.stringify(tags)] *)

(** What [_serialize] returns: the text of the INSERT and its parameters. *)
Record Statement : Type := mkStatement {
  text : string;
  bindings : list SqlValue
}.

Definition Object_keys (obj : Payload) : list string :=
  events_columns ++ map fst (extra obj).

(** [typeof v == 'object' ? JSON.stringify(v) : v] on an additional value. *)
Definition bind_value (v : JValue) : SqlValue :=
  match v with
  | JNull => SqlText "null"
  | JBool b => SqlBool b
  | JNum z => SqlInt z
  | JStr s => SqlText s
  | JComposite json => SqlText json
  end.

Definition Object_values (obj : Payload) : list SqlValue :=
  [SqlText (id obj); SqlText (pubkey obj); SqlText (sig obj);
   SqlInt (kind obj); SqlInt (created_at obj); SqlText (content obj);
   SqlTagsJson (tags obj)]
  ++ map (fun kv => bind_value (snd kv)) (extra obj).

(** [`INSERT INTO events (${keys.join(', ')}) VALUES (${keys.map(_ => '?')});`]:
    the keys are spliced into the text as they are, and the array of
    question marks prints with commas. *)
Definition insert_text (keys : list string) : string :=
  ("INSERT INTO events (" ++ String.concat ", " keys ++ ") VALUES ("
   ++ String.concat "," (map (fun _ => "?") keys) ++ ");")%string.

Definition _serialize (obj : Payload) : Statement :=
  mkStatement (insert_text (Object_keys obj)) (Object_values obj).

(** The row that the statement over the seven columns stores: its
    parameters are bound in the order of the column list. *)
Definition row_of_statement (st : Statement) : option Event :=
  match bindings st with
  | [SqlText i; SqlText p; SqlText s; SqlInt k; SqlInt c; SqlText co;
     SqlTagsJson t] => Some (mkEvent i p s k c co t)
  | _ => None
  end.

(** Tag names whose values feed the full-text row (trigger [events_ai]). *)
Definition fts_names : list string :=
  ["url"; "title"; "description"; "name"; "summary"; "alt"; "t"; "os"; "arch"].

(** [GROUP_CONCAT(json_extract(value, '$[1]'), ' ')]: NULL values are
    skipped, and no value at all gives NULL. *)
Definition fts_text (tags : list Tag) : option string :=
  match flat_map (fun t => match t with
                           | n :: v :: _ =>
                               if existsb (String.eqb n) fts_names then [v] else []
                           | _ => []
                           end) tags with
  | [] => None
  | vs => Some (String.concat " " vs)
  end.

(** [json_extract(value,'$[0]') || ':' || json_extract(value,'$[1]')] for
    the tags whose name has length 1; NULL when the tag has no value. *)
Definition index_values (tags : list Tag) : list (option string) :=
  flat_map (fun t => match t with
                     | n :: rest =>
                         if Nat.eqb (String.length n) 1
                         then [match rest with
                               | v :: _ => Some (n ++ ":" ++ v)%string
                               | [] => None
                               end]
                         else []
                     | [] => []
                     end) tags.

Fixpoint all_some {A} (l : list (option A)) : option (list A) :=
  match l with
  | [] => Some []
  | Some a :: l' => option_map (cons a) (all_some l')
  | None :: _ => None
  end.

Definition next_rowid (rows : list Row) : Z :=
  1 + fold_right (fun r m => Z.max (rowid r) m) 0 rows.

(** [DELETE FROM events WHERE p], with trigger [events_ad]. *)
Definition delete_where (p : Row -> bool) (d : Db) : Db :=
  let gone := map rowid (filter p (events d)) in
  let kept {A} (e : Z * A) := negb (existsb (Z.eqb (fst e)) gone) in
  mkDb (filter (fun r => negb (p r)) (events d))
       (filter kept (tags_index d))
       (filter kept (events_fts d))
       (in_transaction d).

Definition delete_id (i : string) : Db -> Db :=
  delete_where (fun r => String.eqb (id r) i).

Definition delete_ids (l : list string) : Db -> Db :=
  delete_where (fun r => existsb (String.eqb (id r)) l).

Definition begin_transaction (d : Db) : Result Db :=
  if in_transaction d then Throw NestedTransaction
  else Return (mkDb (events d) (tags_index d) (events_fts d) true).

Definition commit (d : Db) : Db :=
  mkDb (events d) (tags_index d) (events_fts d) false.

(** [SELECT EXISTS(SELECT 1 FROM events WHERE id = $id)] *)
Definition exists_id (d : Db) (i : string) : bool :=
  existsb (fun r : Row => String.eqb (id r) i) (events d).

(** [SELECT id FROM events WHERE pubkey = $pubkey AND kind = $kind], [.get] *)
Definition holder (d : Db) (p : string) (k : Z) : option string :=
  option_map (fun r : Row => id r)
    (find (fun r : Row => String.eqb (pubkey r) p && (kind r =? k)) (events d)).

(** The same through [INNER JOIN tags_index as t ON t.fid = events.rowid]
    with [t.value = $d]. *)
Definition holder_d (d : Db) (p : string) (k : Z) (dv : string) : option string :=
  option_map (fun r : Row => id r)
    (find (fun r : Row => String.eqb (pubkey r) p && (kind r =? k)
                    && existsb (fun t => (fst t =? rowid r) && String.eqb (snd t) dv)
                               (tags_index d))
          (events d)).

(** [ORDER BY created_at DESC]; rows with equal [created_at] keep their
    scan order. *)
Fixpoint insert_desc (r : Row) (l : list Row) : list Row :=
  match l with
  | [] => [r]
  | x :: l' => if created_at x <=? created_at r then r :: l
               else x :: insert_desc r l'
  end.

Definition order_by_created_at_desc (l : list Row) : list Row :=
  fold_right insert_desc [] l.

(** [if (filter.limit) query += ' limit $limit']; a negative LIMIT is no
    limit. *)
Definition apply_limit (l : option Z) (rows : list Row) : list Row :=
  match l with
  | None => rows
  | Some n => if n =? 0 then rows
              else if n <? 0 then rows
              else firstn (Z.to_nat n) rows
  end.

Definition in_opt {A} (eqb : A -> A -> bool) (o : option (list A)) (x : A) : bool :=
  match o with
  | None => true
  | Some l => existsb (eqb x) l
  end.

(** The [#X] clause:
    [rowid IN (SELECT fid FROM tags_index WHERE value IN ($X_0, ...))]
    with [$X_i = X + ":" + value_i]. *)
Definition tag_clause (d : Db) (kv : string * list string) (r : Row) : bool :=
  match slRegex (fst kv) with
  | Some letter =>
      existsb (fun t => (fst t =? rowid r)
                        && existsb (fun v => String.eqb (snd t) (String letter (":" ++ v)%string))
                                   (snd kv))
              (tags_index d)
  | None => true
  end.

(** The clauses that need no text matching. *)
Definition where_plain (d : Db) (f : Filter) (r : Row) : bool :=
  in_opt String.eqb (ids f) (id r)
  && in_opt String.eqb (authors f) (pubkey r)
  && in_opt Z.eqb (kinds f) (kind r)
  && forallb (fun kv => tag_clause d kv r) (hashKeys f)
  && match since f with Some t => t <=? created_at r | None => true end
  && match until f with Some t => created_at r <=? t | None => true end.

Definition is_some {A} (o : option A) : bool :=
  match o with Some _ => true | None => false end.

(** The names that [filterMappings], an object literal, inherits from
    [Object.prototype]: [filterMappings[filterKey]] is truthy for them as it
    is for [ids], [authors] and [kinds]. *)
Definition prototype_functions : list string :=
  ["constructor"; "toString"; "toLocaleString"; "valueOf"; "hasOwnProperty";
   "isPrototypeOf"; "propertyIsEnumerable"; "__defineGetter__";
   "__defineSetter__"; "__lookupGetter__"; "__lookupSetter__"].

Definition inherited (filterKey : string) : bool :=
  existsb (String.eqb filterKey) prototype_functions
  || String.eqb filterKey "__proto__".

(** The number of clauses pushed to [wheres] for the keys that
    [filterMappings] does not inherit. *)
Definition wheres_count (f : Filter) : nat :=
  ((if is_some (ids f) then 1 else 0)
   + (if is_some (authors f) then 1 else 0)
   + (if is_some (kinds f) then 1 else 0)
   + List.length (filter (fun kv => is_some (slRegex (fst kv))) (hashKeys f))
   + (if is_some (since f) then 1 else 0)
   + (if is_some (until f) then 1 else 0)
   + match search f with Some (SearchString _) => 1 | _ => 0 end)%nat.

(** What [db.query(query)] throws.  An own key of the filter that
    [filterMappings] inherits puts the printed form of the inherited value
    before [IN]: the source text of a function, which does not parse, or
    [[object Object]] for ["__proto__"], which reads as a quoted column name
    that events does not have.  With no clause at all the statement does not
    parse either. *)
Definition prepare (f : Filter) : option Exn :=
  if existsb (fun kv => existsb (String.eqb (fst kv)) prototype_functions) (hashKeys f)
  then Some SqlSyntaxError
  else if existsb (fun kv => String.eqb (fst kv) "__proto__") (hashKeys f)
  then Some (NoSuchColumn "object Object")
  else if Nat.eqb (wheres_count f) 0 then Some SqlSyntaxError
  else None.

(* ================================================================== *)
(** ** Frames and effects *)

Inductive Reason : Type :=
| NoReason                     (* "" *)
| Duplicate                    (* "duplicate" *)
| NotAccepted                  (* "invalid: not accepted" *)
| ErrorReason (e : Exn).       (* "error: " + e *)

Inductive Frame : Type :=
| EVENT (reqId : string) (e : Event)
| EOSE (reqId : string)
| OK (eventId : string) (accepted : bool) (reason : Reason)
| CLOSED (reqId : string) (reason : option Reason)
| NOTICE (type : string).

Inductive Stmt : Type :=
| SelectExists (i : string)
| SelectHolder (p : string) (k : Z) (d : string)
| InsertEvent (st : Statement)
| DeleteEvent (i : string)
| Begin
| Commit
| SelectEvents (f : Filter)
| DeleteEvents (l : list string).

Inductive Effect : Type :=
| Send (ws : N) (f : Frame)               (* ws.send *)
| Subscribe (ws : N) (topic : string)     (* ws.subscribe *)
| Publish (topic : string) (f : Frame)    (* server.publish *)
| Sql (s : Stmt).                         (* db.query(...) run *)

(** The process state: the store and [subIds], whose keys keep their
    insertion order. *)
Record Relay : Type := mkRelay {
  db : Db;
  subIds : list (string * list Filter)
}.

Record Outcome (A : Type) : Type := mkOutcome {
  relay : Relay;
  effects : list Effect;
  result : Result A
}.

(** [subIds[k]] *)
Fixpoint lookup (k : string) (m : list (string * list Filter))
  : option (list Filter) :=
  match m with
  | [] => None
  | (k', v) :: m' => if String.eqb k' k then Some v else lookup k m'
  end.

(** [subIds[k] = v] *)
Fixpoint assign (k : string) (v : list Filter) (m : list (string * list Filter))
  : list (string * list Filter) :=
  match m with
  | [] => [(k, v)]
  | (k', v') :: m' => if String.eqb k' k then (k, v) :: m'
                      else (k', v') :: assign k v m'
  end.

(** [delete subIds[k]] *)
Definition remove (k : string) (m : list (string * list Filter))
  : list (string * list Filter) :=
  filter (fun kv => negb (String.eqb (fst kv) k)) m.

(** The decimal text of [ws.data.createdAt]. *)
Definition decimal (c : N) : string := NilZero.string_of_uint (N.to_uint c).

(** [`${ws.data.createdAt}-${reqId}`] *)
Definition subId_of (c : N) (reqId : string) : string :=
  (decimal c ++ "-" ++ reqId)%string.

(** [const [_, ...parts] = subId.split('-'); parts.join('-')] *)
Fixpoint reqId_of (subId : string) : string :=
  match subId with
  | EmptyString => ""
  | String c rest => if Ascii.eqb c "-" then rest else reqId_of rest
  end.

Definition ephemeral (k : Z) : bool := (20000 <=? k) && (k <? 30000).

Definition to_ws (ws : option N) (f : Frame) : list Effect :=
  match ws with
  | Some c => [Send c f]
  | None => []
  end.

(* ================================================================== *)
(** ** The handlers *)

(** The engine's answer to a statement the development does not read
    itself: the three tables as the statement and the triggers it fired
    leave them, or the message of the error it threw. *)
Inductive Answer : Type :=
| Stored (events : list Row) (tags_index : list (Z * string))
         (events_fts : list (Z * option string))
| Refused (message : string).

(** What the relay takes from outside: nostr-tools, authorized.json, the
    text matching of the SQL engine, and what the engine makes of an INSERT
    whose text is not the one over the seven columns. *)
Record Collaborators : Type := mkCollaborators {
  verifyEvent : Event -> bool;
  npubEncode : string -> string;
  authorized : string -> option (list string);       (* [authorized[npub]] *)
  fts5_match : jsstring -> option (option string -> bool);
      (* [events_fts MATCH $search] on a row's text; [None]: syntax error *)
  tags_like_name : jsstring -> list Tag -> bool;
      (* [events.tags like '%["name","<search>"]%'] *)
  sqlite_insert : string -> list SqlValue -> Db -> Answer
      (* [db.query(text).run(params)] on a spliced INSERT *)
}.

Section Handlers.

Variable X : Collaborators.

Definition _validateEvent (e : Event) : Result bool :=
  if negb (verifyEvent X e) then Return false
  else
    let npub := npubEncode X (pubkey e) in
    let dTag := _getFirstTag (tags e) "d" in
    match authorized X npub with
    | None => Return false
    | Some allowed =>
        if Nat.eqb (List.length allowed) 0 then Return true
        else if kind e =? 30063 then
          match dTag with
          | Some d => Return (existsb (fun i => startsWith d i) allowed)
          | None => Throw TypeError      (* undefined.startsWith *)
          end
        else if kind e =? 32267 then
          Return (existsb (fun i => match dTag with
                                    | Some d => String.eqb i d
                                    | None => false
                                    end) allowed)
        else Return true
    end.

(** The NIP-50 clause of a filter whose [search] is already normalized. *)
Definition search_clause (d : Db) (f : Filter) : Result (Row -> bool) :=
  match search f with
  | Some (SearchString s) =>
      if Nat.eqb (List.length s) 2
      then Return (fun r : Row => tags_like_name X s (tags r))
      else match fts5_match X (sanitize s) with
           | Some matches =>
               Return (fun r : Row =>
                         existsb (fun t => (fst t =? rowid r) && matches (snd t))
                                 (events_fts d))
           | None => Throw FtsSyntaxError
           end
  | _ => Return (fun _ => true)
  end.

(** One iteration of the query loop, after the normalization of [search]:
    [db.query(query).all(params)]. *)
Definition select_events (d : Db) (f : Filter) : Result (list Row) :=
  match prepare f with
  | Some e => Throw e
  | None =>
      rbind (search_clause d f) (fun matches =>
        let rows := filter (fun r => where_plain d f r && matches r) (events d) in
        let rows := if search_truthy f then rows else order_by_created_at_desc rows in
        Return (apply_limit (limit f) rows))
  end.

(** The loop [for (const filter of filters)]: the filters as the loop
    leaves them, the statements run and the rows pushed to [events]. *)
Fixpoint run_queries (d : Db) (filters : list Filter)
  : list Filter * list Effect * Result (list Row) :=
  match filters with
  | [] => ([], [], Return [])
  | f :: rest =>
      let f' := normalize_search f in
      match select_events d f' with
      | Throw e => (f' :: rest, [Sql (SelectEvents f')], Throw e)
      | Return rows =>
          let '(rest', log, r) := run_queries d rest in
          (f' :: rest', Sql (SelectEvents f') :: log,
           rbind r (fun more => Return (rows ++ more)))
      end
  end.

(** [ephemeralIds], and the DELETE when there are any. *)
Definition remove_ephemeral (rows : list Row) (d : Db) : Db * list Effect :=
  let ephemeralIds :=
    map (fun r : Row => id r) (filter (fun r : Row => ephemeral (kind r)) rows) in
  match ephemeralIds with
  | [] => (d, [])
  | _ => (delete_ids ephemeralIds d, [Sql (DeleteEvents ephemeralIds)])
  end.

Definition _handleRequest (ws : option N) (reqId : string) (filters : list Filter)
           (existingSubId : option string) (s : Relay) : Outcome (list Event) :=
  if existsb (fun f => negb (admitted f)) filters then
    mkOutcome s (to_ws ws (CLOSED reqId (Some NoReason))) (Return [])
  else
    let subId := match existingSubId, ws with
                 | Some k, _ => k
                 | None, Some c => subId_of c reqId
                 | None, None => ("null-" ++ reqId)%string
                 end in
    let setup := match existingSubId, ws with
                 | None, Some c => Some c
                 | _, _ => None
                 end in
    let subscribed := match setup with
                      | Some c => [Subscribe c subId]
                      | None => []
                      end in
    let registered fs := match setup with
                         | Some _ => assign subId fs (subIds s)
                         | None => subIds s
                         end in
    match setup, filters with
    | Some _, [] =>
        mkOutcome (mkRelay (db s) (registered []))
                  (subscribed ++ [Publish subId (EOSE reqId)]) (Return [])
    | _, _ =>
        let '(filters', log, r) := run_queries (db s) filters in
        match r with
        | Throw e =>
            mkOutcome (mkRelay (db s) (registered filters'))
                      (subscribed ++ log
                       ++ to_ws ws (CLOSED reqId (Some (ErrorReason e))))
                      (match ws with Some _ => Return [] | None => Throw e end)
        | Return rows =>
            let '(d', purge) := remove_ephemeral rows (db s) in
            let s' := mkRelay d' (registered filters') in
            match ws with
            | Some _ =>
                mkOutcome s'
                  (subscribed ++ log ++ purge
                   ++ map (fun r : Row => Publish subId (EVENT reqId r)) rows
                   ++ match setup with
                      | Some _ => [Publish subId (EOSE reqId)]
                      | None => []
                      end)
                  (Return [])
            | None =>
                mkOutcome s' (log ++ purge) (Return (map row_event rows))
            end
        end
    end.

(** The loop over [Object.keys(subIds)] in [_handleEvent]. *)
Fixpoint fanout (c : N) (eventId : string) (keys : list string) (s : Relay)
  : Outcome unit :=
  match keys with
  | [] => mkOutcome s [] (Return tt)
  | subId :: rest =>
      match lookup subId (subIds s) with
      | None => mkOutcome s [] (Throw TypeError)       (* undefined.map *)
      | Some filters =>
          let updatedFilters := map (fun f => set_ids f [eventId]) filters in
          let o := _handleRequest (Some c) (reqId_of subId) updatedFilters
                                  (Some subId) s in
          let o' := fanout c eventId rest (relay o) in
          mkOutcome (relay o') (effects o ++ effects o') (result o')
      end
  end.

Definition replaceable (n : Z) : bool :=
  (n =? 0) || (n =? 3) || ((10000 <=? n) && (n <? 20000)).

Definition parameterizable (n : Z) : bool := (30000 <=? n) && (n <? 40000).

(** [`d:${dTag}`] *)
Definition d_param (dTag : option string) : string :=
  ("d:" ++ match dTag with Some v => v | None => "undefined" end)%string.

(** [idToRemove = result && result.id], kept only when truthy. *)
Definition idToRemove (d : Db) (payload : Event) : option string :=
  let n := kind payload in
  if replaceable n || parameterizable n then
    let found := if parameterizable n
                 then holder_d d (pubkey payload) n
                               (d_param (_getFirstTag (tags payload) "d"))
                 else holder d (pubkey payload) n in
    match found with
    | Some i => if String.eqb i "" then None else Some i
    | None => None
    end
  else None.

(** Running the INSERT.  The statement over exactly the seven columns
    stores one row under the next rowid, and trigger [events_ai] fills the
    two index tables, where [tags_index.value] is NOT NULL.  Any other text
    is the engine's to read; a single INSERT does not end a transaction. *)
Definition insert_events (d : Db) (st : Statement) : Result Db :=
  match String.eqb (text st) (insert_text events_columns), row_of_statement st with
  | true, Some e =>
      let r := next_rowid (events d) in
      match all_some (index_values (tags e)) with
      | None => Throw NotNullConstraint
      | Some vs =>
          Return (mkDb (events d ++ [mkRow r e])
                       (tags_index d ++ map (fun v => (r, v)) vs)
                       (events_fts d ++ [(r, fts_text (tags e))])
                       (in_transaction d))
      end
  | _, _ =>
      match sqlite_insert X (text st) (bindings st) d with
      | Refused message => Throw (SQLiteError message)
      | Stored ev ti ft => Return (mkDb ev ti ft (in_transaction d))
      end
  end.

(** BEGIN?, INSERT, DELETE? and COMMIT?: the store as the statements leave
    it, the statements run, and what was thrown if anything. *)
Definition write_event (d : Db) (st : Statement) (old : option string)
  : Db * list Effect * option Exn :=
  match old with
  | Some i =>
      match begin_transaction d with
      | Throw e => (d, [Sql Begin], Some e)
      | Return d1 =>
          match insert_events d1 st with
          | Throw e => (d1, [Sql Begin; Sql (InsertEvent st)], Some e)
          | Return d2 =>
              (commit (delete_id i d2),
               [Sql Begin; Sql (InsertEvent st); Sql (DeleteEvent i); Sql Commit],
               None)
          end
      end
  | None =>
      match insert_events d st with
      | Throw e => (d, [Sql (InsertEvent st)], Some e)
      | Return d2 => (d2, [Sql (InsertEvent st)], None)
      end
  end.

Definition lookup_log (d : Db) (payload : Event) : list Effect :=
  let n := kind payload in
  if replaceable n || parameterizable n
  then [Sql (SelectHolder (pubkey payload) n
                          (d_param (_getFirstTag (tags payload) "d")))]
  else [].

Definition _handleEvent (ws : option N) (payload : Payload) (s : Relay)
  : Outcome unit :=
  let caught (s' : Relay) (done : list Effect) (e : Exn) :=
    mkOutcome s' (done ++ to_ws ws (OK (id payload) false (ErrorReason e)))
              (Throw e) in
  match _validateEvent payload with
  | Throw e => caught s [] e
  | Return false =>
      match ws with
      | Some c => mkOutcome s [Send c (OK (id payload) false NotAccepted)] (Return tt)
      | None => caught s [] BadInput
      end
  | Return true =>
      let asked := [Sql (SelectExists (id payload))] in
      if exists_id (db s) (id payload) then
        mkOutcome s (asked ++ to_ws ws (OK (id payload) false Duplicate)) (Return tt)
      else
        let old := idToRemove (db s) payload in
        let '(d', log, failure) := write_event (db s) (_serialize payload) old in
        let s' := mkRelay d' (subIds s) in
        let done := asked ++ lookup_log (db s) payload ++ log in
        match failure with
        | Some e => caught s' done e
        | None =>
            match ws with
            | None => mkOutcome s' done (Return tt)
            | Some c =>
                let o := fanout c (id payload) (map fst (subIds s')) s' in
                let sent := done ++ [Send c (OK (id payload) true NoReason)]
                                 ++ effects o in
                match result o with
                | Return _ => mkOutcome (relay o) sent (Return tt)
                | Throw e => caught (relay o) sent e
                end
            end
        end
  end.

Definition _handleClose (c : N) (reqId : string) (s : Relay) : Outcome unit :=
  mkOutcome (mkRelay (db s) (remove (subId_of c reqId) (subIds s)))
            [Send c (CLOSED reqId None)] (Return tt).

Definition _handleError (c : N) (type : string) (s : Relay) : Outcome unit :=
  mkOutcome s [Send c (NOTICE type)] (Return tt).

(** [websocket.close]: [delete subIds[subId]] for every key with
    [subId.startsWith(ws.data.createdAt)]. *)
Definition close (c : N) (s : Relay) : Relay :=
  mkRelay (db s)
          (filter (fun kv => negb (startsWith (fst kv) (decimal c))) (subIds s)).

End Handlers.

(* ================================================================== *)
(** ** The server around the handlers *)

(** A parsed websocket message ([websocket.message]). *)
Inductive Message : Type :=
| MsgReq (reqId : string) (filters : list Filter)
| MsgEvent (payload : Payload)
| MsgClose (reqId : string)
| MsgOther (type : string).

(** What reaches the server. *)
Inductive Input : Type :=
| Upgrade (createdAt : N)                 (* a websocket opens at [Date.now()] *)
| WsMessage (c : N) (m : Message)
| WsClose (c : N)                         (* [websocket.close] *)
| PostEvent (payload : Payload)           (* REST: a body with [id] and [sig] *)
| PostRequest (filters : list Filter).    (* REST: any other body *)

Record Server : Type := mkServer {
  live : list N;          (* [createdAt] of the open websockets *)
  state : Relay
}.

Fixpoint remove_one (c : N) (l : list N) : list N :=
  match l with
  | [] => []
  | x :: l' => if (x =? c)%N then l' else x :: remove_one c l'
  end.

Definition is_live (c : N) (sv : Server) : bool := existsb (N.eqb c) (live sv).

Section Serving.

Variable X : Collaborators.

Definition dispatch (c : N) (m : Message) (s : Relay) : Relay * list Effect :=
  match m with
  | MsgReq reqId filters =>
      let o := _handleRequest X (Some c) reqId filters None s in
      (relay o, effects o)
  | MsgEvent payload =>
      let o := _handleEvent X (Some c) payload s in (relay o, effects o)
  | MsgClose reqId =>
      let o := _handleClose c reqId s in (relay o, effects o)
  | MsgOther type =>
      let o := _handleError c type s in (relay o, effects o)
  end.

Definition step (sv : Server) (i : Input) : Server * list Effect :=
  match i with
  | Upgrade c => (mkServer (c :: live sv) (state sv), [])
  | WsMessage c m =>
      if is_live c sv then
        let '(s', out) := dispatch c m (state sv) in (mkServer (live sv) s', out)
      else (sv, [])
  | WsClose c =>
      if is_live c sv
      then (mkServer (remove_one c (live sv)) (close c (state sv)), [])
      else (sv, [])
  | PostEvent payload =>
      let o := _handleEvent X None payload (state sv) in
      (mkServer (live sv) (relay o), effects o)
  | PostRequest filters =>
      let o := _handleRequest X None "" filters None (state sv) in
      (mkServer (live sv) (relay o), effects o)
  end.

Fixpoint run (sv : Server) (inputs : list Input) : Server :=
  match inputs with
  | [] => sv
  | i :: rest => run (fst (step sv i)) rest
  end.

(** The event an input submits, when its write went through: the INSERT
    ran and nothing was thrown. *)
Definition written (o : Outcome unit) : bool :=
  match result o with
  | Return _ =>
      existsb (fun e => match e with Sql (InsertEvent _) => true | _ => false end)
              (effects o)
  | Throw _ => false
  end.

Definition stored_by (sv : Server) (i : Input) : option Event :=
  match i with
  | WsMessage c (MsgEvent payload) =>
      if is_live c sv && written (_handleEvent X (Some c) payload (state sv))
      then Some (base payload) else None
  | PostEvent payload =>
      if written (_handleEvent X None payload (state sv))
      then Some (base payload) else None
  | _ => None
  end.

(** The last event stored for [(p, k)] along a run, [acc] before it. *)
Fixpoint last_stored (p : string) (k : Z) (sv : Server) (inputs : list Input)
         (acc : option Event) : option Event :=
  match inputs with
  | [] => acc
  | i :: rest =>
      let acc' := match stored_by sv i with
                  | Some e => if String.eqb (pubkey e) p && (kind e =? k)
                              then Some e else acc
                  | None => acc
                  end in
      last_stored p k (fst (step sv i)) rest acc'
  end.

End Serving.

(** The rows of a publisher and kind. *)
Definition rows_of (p : string) (k : Z) (d : Db) : list Row :=
  filter (fun r : Row => String.eqb (pubkey r) p && (kind r =? k)) (events d).

(** The events a request handed out: published in EVENT frames, or
    returned to the REST bridge. *)
Definition frame_events (l : list Effect) : list Event :=
  flat_map (fun e => match e with
                     | Publish _ (EVENT _ ev) => [ev]
                     | _ => []
                     end) l.

Definition handed_out (o : Outcome (list Event)) : list Event :=
  frame_events (effects o)
  ++ match result o with
     | Return l => l
     | Throw _ => []
     end.

(* ================================================================== *)
(** ** The specification's words, for comparison with the code *)

(** §4.3 rule 2: every character outside [[A-Za-z0-9_\s]] becomes a space. *)
Definition spec_sanitize (search : jsstring) : jsstring :=
  map (fun c => if is_word c || is_space c then c else 32%N) search.

(** What the code keeps: letters, digits and white space. *)
Definition is_alnum (c : N) : bool :=
  (((48 <=? c) && (c <=? 57)) || ((65 <=? c) && (c <=? 90))
   || ((97 <=? c) && (c <=? 122)))%N.

(** §4.5: the first tag named [name], as the specification reads a tag
    list: an earlier tag has another name, or none. *)
Inductive first_named (name : string) : list Tag -> Tag -> Prop :=
| first_named_here : forall rest tl,
    first_named name ((name :: rest) :: tl) (name :: rest)
| first_named_later : forall t tl u,
    hd_error t <> Some name -> first_named name tl u ->
    first_named name (t :: tl) u.

(** "The d-tag is the first value of the first tag named d." *)
Definition spec_d_tag (e : Event) (d : string) : Prop :=
  exists rest, first_named "d" (tags e) ("d" :: d :: rest).

(** §4.4: the publisher is listed, and a non-empty entry restricts kinds
    30063 (prefix of the d-tag) and 32267 (exact d-tag). *)
Definition spec_accepts (X : Collaborators) (e : Event) : Prop :=
  exists allowed,
    authorized X (npubEncode X (pubkey e)) = Some allowed /\
    (allowed = [] \/
     (allowed <> [] /\
      (kind e = 30063 ->
       exists d p rest, spec_d_tag e d /\ In p allowed
                        /\ d = (p ++ rest)%string) /\
      (kind e = 32267 ->
       exists d, spec_d_tag e d /\ In d allowed))).

(** §4.3 rule 5: the filter constrains [kinds] to at least one allowed kind. *)
Definition constrains_kinds (f : Filter) : Prop :=
  exists ks k, kinds f = Some ks /\ In k ks /\ In k zapstore_kinds.

(** A key of [subIds] made by a websocket opened at [c].  Websockets
    opened in the same millisecond make the same keys: the registry tells
    connections apart by [createdAt] only, so the key names its owner only
    among connections with distinct ids. *)
Definition owns (c : N) (subId : string) : Prop :=
  exists reqId, subId = subId_of c reqId.

(** Every entry of the registry belongs to an open websocket. *)
Definition owned_by_live (sv : Server) : Prop :=
  forall kv, In kv (subIds (state sv)) -> exists c, In c (live sv) /\ owns c (fst kv).

(** No open websocket's id is a proper prefix of another's; equal ids
    are not excluded by these words. *)
Definition prefix_free (l : list N) : Prop :=
  forall c c', In c l -> In c' l ->
               startsWith (decimal c') (decimal c) = true -> decimal c = decimal c'.

(* ================================================================== *)
(** ** A small deployment, for running the handlers on concrete inputs *)

Module Sample.

(** The engine on the three spliced statements that the examples submit.
    With the additional key [rowid], an alias of the implicit key, the row
    is stored under the rowid given, if that is free, and the trigger runs
    as for any insert; the additional key [relay] names no column; and a
    key that closes the column list and goes on with a SELECT of no row,
    commenting the rest out, makes a statement that runs and stores
    nothing.  It is asked nothing else. *)
Definition select_nothing : string :=
  "rowid) SELECT ?,?,?,?,?,?,?,? WHERE 0 --".

Definition engine (q : string) (params : list SqlValue) (d : Db) : Answer :=
  if String.eqb q (insert_text (events_columns ++ ["rowid"])) then
    match params with
    | [SqlText i; SqlText p; SqlText s; SqlInt k; SqlInt c; SqlText co;
       SqlTagsJson t; SqlInt n] =>
        if existsb (fun r : Row => rowid r =? n) (events d)
        then Refused "UNIQUE constraint failed: events.rowid"
        else match all_some (index_values t) with
             | None => Refused "NOT NULL constraint failed: tags_index.value"
             | Some vs =>
                 Stored (filter (fun r : Row => rowid r <? n) (events d)
                         ++ [mkRow n (mkEvent i p s k c co t)]
                         ++ filter (fun r : Row => n <? rowid r) (events d))
                        (tags_index d ++ map (fun v => (n, v)) vs)
                        (events_fts d ++ [(n, fts_text t)])
             end
    | _ => Refused "datatype mismatch"
    end
  else if String.eqb q (insert_text (events_columns ++ ["relay"])) then
    Refused "table events has no column named relay"
  else if String.eqb q (insert_text (events_columns ++ [select_nothing])) then
    Stored (events d) (tags_index d) (events_fts d)
  else Refused "not a statement of the examples".

(** Signatures verify when the id is not empty; alice is unrestricted,
    bob is restricted to two d-tag prefixes; the text matcher accepts a
    row when it has text and the query is not empty. *)
Definition X : Collaborators :=
  mkCollaborators
    (fun e => negb (String.eqb (id e) ""))
    (fun p => ("npub1" ++ p)%string)
    (fun n => if String.eqb n "npub1alice" then Some []
              else if String.eqb n "npub1bob" then Some ["app."; "dev.bob"]
              else None)
    (fun q => match q with
              | [] => None
              | _ => Some (fun t => is_some t)
              end)
    (fun _ _ => false)
    engine.

Definition event (i p : string) (k t : Z) (tg : list Tag) : Payload :=
  mkPayload (mkEvent i p "sig" k t "" tg) [].

Definition of_kinds (ks : list Z) : Filter :=
  mkFilter None None (Some ks) [] None None None None.

Definition start : Relay := mkRelay empty_db [].

End Sample.

(* ================================================================== *)
(** ** Predicates used in the proofs *)

(** A string without the separator of [subIds] keys. *)
Fixpoint dashless (s : string) : Prop :=
  match s with
  | EmptyString => True
  | String c rest => c <> "-"%char /\ dashless rest
  end.

(** A statement run on the store, as opposed to a frame. *)
Definition is_sql (e : Effect) : Prop :=
  match e with
  | Sql _ => True
  | _ => False
  end.

(** Without a limit in force, all the rows selected are returned. *)
Definition unlimited (f : Filter) : Prop :=
  forall n, limit f = Some n -> n <= 0.

(** The store after some rows were deleted by id, all of them ephemeral. *)
Definition purged (d d' : Db) : Prop :=
  exists gone,
    events d' = filter (fun r : Row => negb (existsb (String.eqb (id r)) gone)) (events d)
    /\ forall i, In i gone ->
                 exists r : Row, In r (events d) /\ id r = i /\ ephemeral (kind r) = true.

(** The store as the write path keeps it: ids are unique and not empty,
    and a publisher holds at most one row of a replaceable kind. *)
Definition store_ok (d : Db) : Prop :=
  NoDup (map (fun r : Row => id r) (events d))
  /\ (forall r : Row, In r (events d) -> id r <> ""%string)
  /\ (forall p k, replaceable k = true -> (List.length (rows_of p k d) <= 1)%nat).

(** The input submits no event with a key beyond the seven of an
    event. *)
Definition seven_keys (i : Input) : Prop :=
  match i with
  | WsMessage _ (MsgEvent payload) => extra payload = []
  | PostEvent payload => extra payload = []
  | _ => True
  end.


(** The three ways [_handleEvent] ends: nothing written, and the store and
    registry as before up to an open transaction; or the row written, then
    the fan-out. *)
Inductive handled (X : Collaborators) (ws : option N) (payload : Payload)
          (s : Relay) : Outcome unit -> Prop :=
| handled_refused : forall o,
    relay o = s ->
    written o = false ->
    (forall c accepted reason,
        In (Send c (OK (id payload) accepted reason)) (effects o) ->
        accepted = false) ->
    handled X ws payload s o
| handled_thrown : forall o d' log e,
    _validateEvent X payload = Return true ->
    exists_id (db s) (id payload) = false ->
    write_event X (db s) (_serialize payload) (idToRemove (db s) payload)
    = (d', log, Some e) ->
    relay o = mkRelay d' (subIds s) ->
    result o = Throw e ->
    effects o = (Sql (SelectExists (id payload)) :: lookup_log (db s) payload ++ log)
                ++ to_ws ws (OK (id payload) false (ErrorReason e)) ->
    handled X ws payload s o
| handled_written : forall o d' log,
    _validateEvent X payload = Return true ->
    exists_id (db s) (id payload) = false ->
    write_event X (db s) (_serialize payload) (idToRemove (db s) payload)
    = (d', log, None) ->
    result o = Return tt ->
    written o = true ->
    match ws with
    | None => relay o = mkRelay d' (subIds s)
              /\ effects o = Sql (SelectExists (id payload))
                             :: lookup_log (db s) payload ++ log
    | Some c =>
        let fo := fanout X c (id payload) (map fst (subIds s)) (mkRelay d' (subIds s)) in
        relay o = relay fo
        /\ effects o = (Sql (SelectExists (id payload))
                        :: lookup_log (db s) payload ++ log)
                       ++ [Send c (OK (id payload) true NoReason)] ++ effects fo
    end ->
    handled X ws payload s o.

(* ================================================================== *)
(** ** The REST bridge ([fetch] on "/", POST with a JSON body) *)

(** The parsed body: an object with the event fields, or an array of
    filters. *)
Inductive Body : Type :=
| EventBody (payload : Payload)
| FiltersBody (filters : list Filter).

Inductive HttpResponse : Type :=
| NoContent                              (* 204 *)
| JsonEvents (l : list Event)            (* 200 with [JSON.stringify(res)] *)
| ErrorStatus (status : Z) (e : Exn).    (* the body is ["Error: " + e] *)

(** Truthiness of a string. *)
Definition truthy (s : string) : bool := negb (String.eqb s "").

(** [e.toString().startsWith('bad input')]: the relay's own string is
    the only thrown value that starts so; the others print as the name of
    their error class first. *)
Definition starts_bad_input (e : Exn) : bool :=
  match e with
  | BadInput => true
  | _ => false
  end.

Definition rest_post (X : Collaborators) (body : Body) (s : Relay)
  : Relay * list Effect * HttpResponse :=
  match body with
  | EventBody payload =>
      if truthy (id payload) && truthy (sig payload) then
        let o := _handleEvent X None payload s in
        (relay o, effects o,
         match result o with
         | Return _ => NoContent
         | Throw e => ErrorStatus (if starts_bad_input e then 400 else 500) e
         end)
      else
        (* [_handleRequest(null, '', body)]: the object is not iterable *)
        (s, [], ErrorStatus 500 TypeError)
  | FiltersBody filters =>
      let o := _handleRequest X None "" filters None s in
      (relay o, effects o,
       match result o with
       | Return l => JsonEvents l
       | Throw e => ErrorStatus 500 e      (* no thrown value [== 'bad input'] *)
       end)
  end.

(* ================================================================== *)
(** ** The blob route ([fetch] on "/<sha256>[.<ext>]") *)

Definition is_hex (c : ascii) : bool :=
  let n := N_of_ascii c in
  (((48 <=? n) && (n <=? 57)) || ((97 <=? n) && (n <=? 102)))%N.

(** What is left of [s] after [n] characters of [[0-9a-f]]. *)
Fixpoint hex_prefix (n : nat) (s : string) : option string :=
  match n with
  | O => Some s
  | S n' =>
      match s with
      | String c s' => if is_hex c then hex_prefix n' s' else None
      | EmptyString => None
      end
  end.

(** [/^\/[0-9a-f]{64}(\.\S{1,}|$)/.test(pathname)] *)
Definition blob_route (pathname : string) : bool :=
  match pathname with
  | String "/" s =>
      match hex_prefix 64 s with
      | Some EmptyString => true
      | Some (String "." (String c _)) => negb (is_space (N_of_ascii c))
      | _ => false
      end
  | _ => false
  end.

(** [pathname.substring(1, 65)] *)
Definition blob_hash (pathname : string) : string := String.substring 1 64 pathname.

(* ================================================================== *)
(** ** Invariants of the store and the registry *)




(** Every stored filter passed the admission gate. *)
Definition gated (m : list (string * list Filter)) : Prop :=
  forall k fs f, In (k, fs) m -> In f fs -> admitted f = true.

Fixpoint newest_first (l : list Z) : Prop :=
  match l with
  | [] => True
  | t :: l' => (forall u, In u l' -> u <= t) /\ newest_first l'
  end.

Definition is_ok_frame (e : Effect) : bool :=
  match e with
  | Send _ (OK _ _ _) => true
  | _ => false
  end.

Definition is_eose (e : Effect) : bool :=
  match e with
  | Publish _ (EOSE _) => true
  | _ => false
  end.

(** What a re-run of the request handler for the key [k] may do: run a
    statement, tell the submitting socket CLOSED, or publish an EVENT to
    the topic [k]. *)
Definition rerun_effect (c : N) (reqId k : string) (e : Effect) : Prop :=
  is_sql e
  \/ (exists reason, e = Send c (CLOSED reqId reason))
  \/ (exists ev, e = Publish k (EVENT reqId ev)).

Unset Implicit Arguments.

(* ================================================================== *)
(** ** Strings *)

Lemma startsWith_app : forall p s : string,
  startsWith s p = true <-> exists rest, s = (p ++ rest)%string.
Proof.
  unfold startsWith.
  induction p as [|a p IH]; intros s; simpl.
  - split; [intros _; exists s; reflexivity | now destruct s].
  - destruct s as [|b s]; simpl.
    + split; [discriminate | intros [rest H]; discriminate].
    + destruct (ascii_dec a b) as [->|Hab].
      * rewrite IH. split; intros [rest H]; exists rest.
        -- now rewrite H.
        -- now injection H.
      * split; [discriminate | intros [rest H]; injection H; intros; congruence].
Qed.

Lemma startsWith_refl : forall s, startsWith s s = true.
Proof.
  intros s. apply startsWith_app. exists ""%string.
  induction s; simpl; congruence.
Qed.

(* ================================================================== *)
(** ** Search sanitization (C8) *)

Lemma regex_matches_iff_not_kept : forall c,
  search_regex_matches c = negb (is_alnum c || is_space c).
Proof.
  intros c. unfold search_regex_matches, is_word.
  fold (is_alnum c).
  destruct (c =? 95)%N eqn:E.
  - apply N.eqb_eq in E. subst c. reflexivity.
  - now rewrite !orb_false_r.
Qed.

Lemma sanitize_map : forall s,
  sanitize s = map (fun c => if is_alnum c || is_space c then c else 32%N) s.
Proof.
  intros s. unfold sanitize. apply map_ext. intros c.
  rewrite regex_matches_iff_not_kept.
  now destruct (is_alnum c || is_space c).
Qed.

(** C8, as stated, fails: the underscore is in the class [[A-Za-z0-9_\s]]
    that the specification keeps, and the code replaces it. *)
Lemma sanitize_replaces_underscore :
  sanitize (units "a_b") = units "a b"
  /\ spec_sanitize (units "a_b") = units "a_b"
  /\ sanitize (units "a_b") <> spec_sanitize (units "a_b").
Proof. repeat split; vm_compute; discriminate. Qed.

(** C8 (amended).  For a filter whose search string does not have length
    2, the string passed to the FTS engine is the search string with every
    code unit outside [[A-Za-z0-9\s]], the underscore included, replaced by
    one space and every other unit unchanged; the searches ["a!b"] and
    ["a b"] give the same query results. *)
Theorem sanitize_keeps_alnum_and_space :
  forall (X : Collaborators) (d : Db) (f : Filter) (s : jsstring),
    search f = Some (SearchString s) ->
    List.length s <> 2%nat ->
    let passed := map (fun c => if is_alnum c || is_space c then c else 32%N) s in
    sanitize s = passed
    /\ search_clause X d f =
       match fts5_match X passed with
       | Some matches =>
           Return (fun r : Row =>
                     existsb (fun t => (fst t =? rowid r) && matches (snd t))
                             (events_fts d))
       | None => Throw FtsSyntaxError
       end
    /\ select_events X d (set_search f (SearchString (units "a!b")))
       = select_events X d (set_search f (SearchString (units "a b"))).
Proof.
  intros X d f s Hs Hlen passed. subst passed.
  split; [apply sanitize_map|]. split.
  - unfold search_clause. rewrite Hs.
    destruct (Nat.eqb (List.length s) 2) eqn:E.
    + apply Nat.eqb_eq in E. contradiction.
    + now rewrite sanitize_map.
  - reflexivity.
Qed.

Lemma sanitize_keeps_alnum_and_space_witness :
  sanitize (units "fts_relay") = units "fts relay".
Proof.
  pose proof (@sanitize_keeps_alnum_and_space Sample.X empty_db
                (set_search (Sample.of_kinds [1063]) (SearchString (units "fts_relay")))
                (units "fts_relay") eq_refl) as H.
  simpl in H. destruct H as [H _]; [vm_compute; discriminate|].
  exact H.
Defined.

(* ================================================================== *)
(** ** The validator (C6) *)

Lemma Return_inj : forall A (a b : A), Return a = Return b -> a = b.
Proof. intros A a b H. now injection H. Qed.

Lemma getFirstTag_cons : forall (t : Tag) tl name,
  _getFirstTag (t :: tl) name
  = if match t with
       | t0 :: _ => String.eqb t0 name
       | [] => false
       end
    then nth_error t 1 else _getFirstTag tl name.
Proof.
  intros t tl name. unfold _getFirstTag. simpl.
  destruct t as [|t0 r]; [reflexivity|]. now destruct (String.eqb t0 name).
Qed.

(** What the helper returns is the first value of the first tag with that
    name, as the specification reads the tag list. *)
Lemma getFirstTag_first_named : forall name tl d,
  _getFirstTag tl name = Some d
  <-> exists rest, first_named name tl (name :: d :: rest).
Proof.
  intros name tl d. induction tl as [|t tl IH].
  - split; [discriminate|]. intros [rest H]. inversion H.
  - rewrite getFirstTag_cons. destruct t as [|t0 r].
    + rewrite IH. split; intros [rest H]; exists rest.
      * apply first_named_later; [discriminate | exact H].
      * inversion H; subst. assumption.
    + destruct (String.eqb t0 name) eqn:E.
      * apply String.eqb_eq in E. subst t0. split.
        -- intros H. destruct r as [|v rest]; [discriminate|].
           simpl in H. injection H as ->. exists rest. constructor.
        -- intros [rest H]. inversion H; subst; [reflexivity|].
           exfalso. match goal with K : hd_error _ <> _ |- _ => apply K end.
           reflexivity.
      * apply String.eqb_neq in E. rewrite IH.
        split; intros [rest H]; exists rest.
        -- apply first_named_later; [|exact H]. simpl. congruence.
        -- inversion H; subst; [contradiction | assumption].
Qed.

(** The specification's acceptance, with the d-tag as the code reads it. *)
Lemma spec_accepts_code : forall X e,
  spec_accepts X e
  <-> exists allowed,
        authorized X (npubEncode X (pubkey e)) = Some allowed /\
        (allowed = [] \/
         (allowed <> [] /\
          (kind e = 30063 ->
           exists d p rest, _getFirstTag (tags e) "d" = Some d /\ In p allowed
                            /\ d = (p ++ rest)%string) /\
          (kind e = 32267 ->
           exists d, _getFirstTag (tags e) "d" = Some d /\ In d allowed))).
Proof.
  intros X e. unfold spec_accepts, spec_d_tag.
  split; intros [allowed [Ha H]]; exists allowed; (split; [exact Ha|]);
    (destruct H as [H|[Hne [H30 H32]]]; [now left|]); right;
    (split; [exact Hne|]); split.
  - intros K. destruct (H30 K) as [d [p [rest [Hd H]]]].
    exists d, p, rest. split; [now apply getFirstTag_first_named | exact H].
  - intros K. destruct (H32 K) as [d [Hd H]].
    exists d. split; [now apply getFirstTag_first_named | exact H].
  - intros K. destruct (H30 K) as [d [p [rest [Hd H]]]].
    exists d, p, rest. split; [now apply getFirstTag_first_named | exact H].
  - intros K. destruct (H32 K) as [d [Hd H]].
    exists d. split; [now apply getFirstTag_first_named | exact H].
Qed.

(** C6.  For a decoded event with a valid signature, [_validateEvent]
    accepts exactly when the publisher is in the allow-list and either its
    entry is empty, or the entry is not empty and a kind-30063 event has a
    d-tag beginning with a listed prefix, a kind-32267 event has a d-tag
    equal to a listed value, and any other kind is unrestricted.  The d-tag
    is the first value of the first tag named d, read off the tag list by
    [first_named] and not through the helper the validator calls. *)
Theorem validateEvent_accepts_iff :
  forall (X : Collaborators) (e : Event),
    verifyEvent X e = true ->
    (_validateEvent X e = Return true <-> spec_accepts X e).
Proof.
  intros X e Hsig. rewrite spec_accepts_code. unfold _validateEvent.
  rewrite Hsig. cbn [negb].
  destruct (authorized X (npubEncode X (pubkey e))) as [allowed|].
  2:{ split; [discriminate | intros [a [H _]]; discriminate]. }
  destruct (Nat.eqb (List.length allowed) 0) eqn:L.
  { apply Nat.eqb_eq in L. apply length_zero_iff_nil in L.
    split; [intros _; exists allowed; auto | reflexivity]. }
  assert (Hne : allowed <> []).
  { intros ->. discriminate. }
  destruct (kind e =? 30063) eqn:K1.
  - apply Z.eqb_eq in K1.
    destruct (_getFirstTag (tags e) "d") as [d|] eqn:D.
    + split.
      * intros H. apply Return_inj in H.
        apply existsb_exists in H. destruct H as [p [Hin Hp]].
        apply startsWith_app in Hp. destruct Hp as [rest Hp].
        exists allowed. split; [reflexivity|]. right. split; [assumption|]. split.
        -- intros _. exists d, p, rest. auto.
        -- intros K2. lia.
      * intros [al [Hal [Hempty | [_ [H30 _]]]]].
        -- injection Hal as <-. contradiction.
        -- injection Hal as <-. destruct (H30 K1) as [d' [p [rest [Hd [Hin Hp]]]]].
           injection Hd as <-. f_equal.
           apply existsb_exists. exists p. split; [assumption|].
           apply startsWith_app. now exists rest.
    + split; [discriminate|].
      intros [al [Hal [Hempty | [_ [H30 _]]]]].
      * injection Hal as <-. contradiction.
      * destruct (H30 K1) as [d' [p [rest [Hd _]]]]. discriminate.
  - apply Z.eqb_neq in K1.
    destruct (kind e =? 32267) eqn:K2.
    + apply Z.eqb_eq in K2.
      split.
      * intros H. apply Return_inj in H.
        apply existsb_exists in H. destruct H as [i [Hin Hi]].
        destruct (_getFirstTag (tags e) "d") as [d|] eqn:D; [|discriminate].
        apply String.eqb_eq in Hi. subst i.
        exists allowed. split; [reflexivity|]. right. split; [assumption|]. split.
        -- intros K. contradiction.
        -- intros _. exists d. auto.
      * intros [al [Hal [Hempty | [_ [_ H32]]]]].
        -- injection Hal as <-. contradiction.
        -- injection Hal as <-. destruct (H32 K2) as [d [Hd Hin]].
           f_equal. apply existsb_exists. exists d. split; [assumption|].
           rewrite Hd. apply String.eqb_refl.
    + apply Z.eqb_neq in K2. split; [|reflexivity].
      intros _. exists allowed. split; [reflexivity|]. right.
      split; [assumption|]. split; intros K; contradiction.
Qed.

Lemma validateEvent_accepts_iff_witness :
  verifyEvent Sample.X (Sample.event "aa" "bob" 30063 1000 [["d"; "app.one"]]) = true
  /\ _validateEvent Sample.X (Sample.event "aa" "bob" 30063 1000 [["d"; "app.one"]])
     = Return true.
Proof.
  split; [reflexivity|].
  apply (validateEvent_accepts_iff Sample.X
           (Sample.event "aa" "bob" 30063 1000 [["d"; "app.one"]]) eq_refl).
  exists ["app."; "dev.bob"]. split; [reflexivity|]. right.
  split; [discriminate|]. split.
  - intros _. exists "app.one", "app.", "one".
    split; [exists []; constructor | simpl; auto].
  - simpl. intros K. discriminate.
Defined.

(* ================================================================== *)
(** ** The admission gate (C5) *)

Lemma existsb_eqb_In : forall (k : Z) (l : list Z),
  existsb (Z.eqb k) l = true <-> In k l.
Proof.
  intros k l. rewrite existsb_exists. split.
  - intros [x [Hin Hx]]. apply Z.eqb_eq in Hx. now subst.
  - intros H. exists k. split; [assumption | apply Z.eqb_refl].
Qed.

Lemma admitted_iff : forall f, admitted f = true <-> constrains_kinds f.
Proof.
  intros f. unfold admitted, constrains_kinds.
  destruct (kinds f) as [ks|].
  - rewrite existsb_exists. split.
    + intros [k [Hin Hk]]. exists ks, k. apply existsb_eqb_In in Hk. auto.
    + intros [ks' [k [Hks [Hin Hk]]]]. injection Hks as <-.
      exists k. split; [assumption | now apply existsb_eqb_In].
  - split; [discriminate | intros [ks [k [H _]]]; discriminate].
Qed.

Lemma gate_rejects : forall filters f,
  In f filters -> ~ constrains_kinds f ->
  existsb (fun f => negb (admitted f)) filters = true.
Proof.
  intros filters f Hin Hno. apply existsb_exists. exists f.
  split; [assumption|].
  destruct (admitted f) eqn:A; [|reflexivity].
  apply admitted_iff in A. contradiction.
Qed.

(** C5.  A REQ whose filter set contains a filter that does not constrain
    [kinds] to at least one kind of the allow-list returns no rows, sends
    the socket one CLOSED frame for the request id with the empty reason,
    runs no statement and leaves the store and the registry as they were. *)
Theorem unadmitted_request_is_closed :
  forall (X : Collaborators) (ws : option N) (reqId : string)
         (filters : list Filter) (existingSubId : option string) (s : Relay)
         (f : Filter),
    In f filters ->
    ~ constrains_kinds f ->
    _handleRequest X ws reqId filters existingSubId s
    = mkOutcome s
        match ws with
        | Some c => [Send c (CLOSED reqId (Some NoReason))]
        | None => []
        end
        (Return []).
Proof.
  intros X ws reqId filters ex s f Hin Hno. unfold _handleRequest.
  now rewrite (gate_rejects _ _ Hin Hno).
Qed.

Lemma unadmitted_request_is_closed_witness :
  _handleRequest Sample.X (Some 7%N) "s1"
    [Sample.of_kinds [30063]; Sample.of_kinds [1; 7]] None Sample.start
  = mkOutcome Sample.start [Send 7%N (CLOSED "s1" (Some NoReason))] (Return []).
Proof.
  apply (@unadmitted_request_is_closed Sample.X (Some 7%N) "s1"
           [Sample.of_kinds [30063]; Sample.of_kinds [1; 7]] None Sample.start
           (Sample.of_kinds [1; 7])).
  - simpl. auto.
  - intros [ks [k [Hks [Hin Hk]]]]. injection Hks as <-.
    simpl in Hin, Hk. intuition lia.
Defined.

(* ================================================================== *)
(** ** The registry and connection close (C10) *)

Lemma dashless_NilEmpty : forall d, dashless (NilEmpty.string_of_uint d).
Proof. induction d; simpl; auto; split; auto; discriminate. Qed.

Lemma dashless_decimal : forall c, dashless (decimal c).
Proof.
  intros c. unfold decimal, NilZero.string_of_uint.
  destruct (N.to_uint c); try apply dashless_NilEmpty.
  simpl. split; [discriminate | exact I].
Qed.

Lemma startsWith_subId : forall q p rest,
  dashless q ->
  startsWith (p ++ "-" ++ rest)%string q = true -> startsWith p q = true.
Proof.
  unfold startsWith.
  induction q as [|a q IH]; intros p rest Hq H; [now destruct p|].
  destruct Hq as [Ha Hq].
  destruct p as [|b p]; simpl in *.
  - destruct (ascii_dec a "-"); [contradiction | discriminate].
  - destruct (ascii_dec a b); [eauto | discriminate].
Qed.

Lemma startsWith_extend : forall q p rest,
  startsWith p q = true -> startsWith (p ++ rest)%string q = true.
Proof.
  intros q p rest H. apply startsWith_app in H. destruct H as [r ->].
  apply startsWith_app. exists (r ++ rest)%string.
  induction q; simpl; [reflexivity | now f_equal].
Qed.

Lemma owns_startsWith : forall c k, owns c k -> startsWith k (decimal c) = true.
Proof.
  intros c k [r ->]. unfold subId_of. apply startsWith_extend, startsWith_refl.
Qed.

Lemma In_close : forall c s kv,
  In kv (subIds (close c s))
  <-> In kv (subIds s) /\ startsWith (fst kv) (decimal c) = false.
Proof.
  intros c s kv. unfold close. simpl. rewrite filter_In.
  now rewrite negb_true_iff.
Qed.

Lemma In_remove_one : forall c x l, In x l -> x <> c -> In x (remove_one c l).
Proof.
  induction l as [|y l IH]; simpl; intros Hin Hne; [contradiction|].
  destruct (y =? c)%N eqn:E.
  - apply N.eqb_eq in E. destruct Hin; [congruence | assumption].
  - destruct Hin; [left; assumption | right; auto].
Qed.

Lemma is_live_In : forall c sv, is_live c sv = true <-> In c (live sv).
Proof.
  intros c sv. unfold is_live. rewrite existsb_exists. split.
  - intros [x [Hin Hx]]. apply N.eqb_eq in Hx. now subst.
  - intros H. exists c. split; [assumption | apply N.eqb_refl].
Qed.

Lemma In_assign : forall k v m kv,
  In kv (assign k v m) -> fst kv = k \/ In kv m.
Proof.
  induction m as [|[k' v'] m IH]; simpl; intros kv H.
  - destruct H as [<-|[]]. now left.
  - destruct (String.eqb k' k).
    + destruct H as [<-|H]; [now left | right; now right].
    + destruct H as [<-|H]; [right; now left|].
      destruct (IH _ H); [now left | right; now right].
Qed.

(** The registry after a request: untouched, or one assignment under the
    key of the requesting socket. *)
Lemma handleRequest_subIds : forall X ws reqId filters ex s,
  let o := _handleRequest X ws reqId filters ex s in
  subIds (relay o) = subIds s
  \/ exists c fs, ws = Some c /\ ex = None
                  /\ subIds (relay o) = assign (subId_of c reqId) fs (subIds s).
Proof.
  intros X ws reqId filters ex s. unfold _handleRequest.
  destruct (existsb (fun f => negb (admitted f)) filters); [now left|].
  destruct ex as [k|], ws as [c|]; cbn -[run_queries].
  - left. destruct (run_queries X (db s) filters) as [[fs log] [rows|e]];
      cbn; [|reflexivity].
    now destruct (remove_ephemeral rows (db s)).
  - left. destruct (run_queries X (db s) filters) as [[fs log] [rows|e]];
      cbn; [|reflexivity].
    now destruct (remove_ephemeral rows (db s)).
  - right. destruct filters as [|f0 filters'].
    + exists c, []. auto.
    + destruct (run_queries X (db s) (f0 :: filters')) as [[fs log] [rows|e]];
        exists c, fs; cbn; [|auto].
      now destruct (remove_ephemeral rows (db s)).
  - left. destruct (run_queries X (db s) filters) as [[fs log] [rows|e]];
      cbn; [|reflexivity].
    now destruct (remove_ephemeral rows (db s)).
Qed.

Lemma handleRequest_existing_subIds : forall X ws reqId filters k s,
  subIds (relay (_handleRequest X ws reqId filters (Some k) s)) = subIds s.
Proof.
  intros X ws reqId filters k s.
  destruct (handleRequest_subIds X ws reqId filters (Some k) s) as [H|[c [fs [_ [H _]]]]];
    [assumption | discriminate].
Qed.

Lemma fanout_subIds : forall X c i keys s,
  subIds (relay (fanout X c i keys s)) = subIds s.
Proof.
  intros X c i keys. induction keys as [|k keys IH]; intros s; simpl; [reflexivity|].
  destruct (lookup k (subIds s)); simpl; [|reflexivity].
  rewrite IH. apply handleRequest_existing_subIds.
Qed.

Lemma handleEvent_subIds : forall X ws payload s,
  subIds (relay (_handleEvent X ws payload s)) = subIds s.
Proof.
  intros X ws payload s. unfold _handleEvent.
  destruct (_validateEvent X payload) as [[|]|e]; simpl; try reflexivity.
  2:{ now destruct ws. }
  destruct (exists_id (db s) (id payload)); [reflexivity|].
  destruct (write_event _ _ _ _) as [[d' log] [e|]]; simpl; [reflexivity|].
  destruct ws as [c|]; simpl; [|reflexivity].
  match goal with |- context [fanout X c ?i ?keys ?s'] =>
    pose proof (fanout_subIds X c i keys s') as F;
    destruct (result (fanout X c i keys s')) end; simpl; exact F.
Qed.

Lemma step_keeps_ownership : forall X sv i,
  owned_by_live sv -> owned_by_live (fst (step X sv i)).
Proof.
  intros X sv i Inv. unfold owned_by_live in *.
  destruct i as [c|c m|c|payload|filters]; simpl.
  - intros kv Hin. destruct (Inv kv Hin) as [c' [Hc' Ho]].
    exists c'. split; [now right | assumption].
  - destruct (is_live c sv) eqn:L; [|exact Inv].
    apply is_live_In in L.
    destruct m as [reqId filters|payload|reqId|type]; simpl.
    + intros kv Hin.
      destruct (handleRequest_subIds X (Some c) reqId filters None (state sv))
        as [E|[c' [fs [Hc' [_ E]]]]]; simpl in E; rewrite E in Hin.
      * auto.
      * injection Hc' as <-. apply In_assign in Hin. destruct Hin as [Hk|Hin]; [|auto].
        exists c. split; [assumption|]. exists reqId. exact Hk.
    + intros kv Hin. rewrite handleEvent_subIds in Hin. auto.
    + intros kv Hin. unfold remove in Hin. apply filter_In in Hin. apply Inv, Hin.
    + exact Inv.
  - destruct (is_live c sv) eqn:L; [|exact Inv]. simpl.
    intros kv Hin. apply In_close in Hin. destruct Hin as [Hin Hpre].
    destruct (Inv kv Hin) as [c' [Hc' Ho]].
    exists c'. split; [|assumption].
    apply In_remove_one; [assumption|].
    intros ->. apply owns_startsWith in Ho. congruence.
  - intros kv Hin. rewrite handleEvent_subIds in Hin. auto.
  - intros kv Hin.
    destruct (handleRequest_subIds X None "" filters None (state sv))
      as [E|[c' [fs [Hc' _]]]]; [|discriminate].
    simpl in E. rewrite E in Hin. auto.
Qed.

Lemma close_removes_own : forall sv c,
  owned_by_live sv -> prefix_free (live sv) -> NoDup (live sv) -> In c (live sv) ->
  forall kv, In kv (subIds (close c (state sv)))
             <-> In kv (subIds (state sv)) /\ ~ owns c (fst kv).
Proof.
  intros sv c Inv Free _ Hc kv. rewrite In_close. split.
  - intros [Hin Hpre]. split; [assumption|].
    intros Ho. apply owns_startsWith in Ho. congruence.
  - intros [Hin Hno]. split; [assumption|].
    destruct (startsWith (fst kv) (decimal c)) eqn:E; [|reflexivity].
    exfalso. apply Hno.
    destruct (Inv kv Hin) as [c' [Hc' [r Hk]]].
    rewrite Hk in E. unfold subId_of in E.
    apply startsWith_subId in E; [|apply dashless_decimal].
    exists r. rewrite Hk. unfold subId_of.
    now rewrite (Free c c' Hc Hc' E).
Qed.

(** Two sockets opened at 1 and 12, each with one subscription: closing
    the first also drops the subscription of the second. *)
Lemma close_prefix_collision :
  let sv := mkServer [1%N; 12%N]
                     (mkRelay empty_db [("1-a", [Sample.of_kinds [1063]]);
                                        ("12-b", [Sample.of_kinds [1063]])]) in
  owned_by_live sv
  /\ In 1%N (live sv)
  /\ ~ prefix_free (live sv)
  /\ In ("12-b", [Sample.of_kinds [1063]]) (subIds (state sv))
  /\ ~ owns 1%N "12-b"
  /\ subIds (close 1%N (state sv)) = [].
Proof.
  cbv zeta. repeat split.
  - intros kv [<-|[<-|[]]].
    + exists 1%N. split; [simpl; auto | now exists "a"].
    + exists 12%N. split; [simpl; auto | now exists "b"].
  - simpl. auto.
  - intros Free.
    specialize (Free 1%N 12%N (or_introl eq_refl) (or_intror (or_introl eq_refl)) eq_refl).
    discriminate.
  - simpl. auto.
  - intros [r H]. discriminate.
Qed.

(** C10, as stated, fails under its own precondition: two websockets
    opened in the same millisecond have the same id, which is no proper
    prefix of itself, and the same keys.  When one of them closes, the other
    is still open and the subscription made under that id is gone, whichever
    of the two made it. *)
Lemma close_same_millisecond :
  let sv := run Sample.X (mkServer [] Sample.start)
                [Upgrade 5%N; Upgrade 5%N;
                 WsMessage 5%N (MsgReq "a" [Sample.of_kinds [1063]])] in
  let sv' := fst (step Sample.X sv (WsClose 5%N)) in
  live sv = [5%N; 5%N]
  /\ prefix_free (live sv)
  /\ owned_by_live sv
  /\ subIds (state sv) = [("5-a", [Sample.of_kinds [1063]])]
  /\ live sv' = [5%N]
  /\ subIds (state sv') = [].
Proof.
  cbv zeta. split; [reflexivity|]. split; [|split; [|repeat split]].
  - intros c c' Hc Hc' _. simpl in Hc, Hc'.
    destruct Hc as [<-|[<-|[]]]; destruct Hc' as [<-|[<-|[]]]; reflexivity.
  - intros kv Hin. vm_compute in Hin. destruct Hin as [<-|[]].
    exists 5%N. split; [now left | now exists "a"].
Qed.

(** C10 (amended).  On connection close the registry loses exactly the
    entries whose key starts with the decimal text of the closing
    connection's id, and nothing else changes.  When every entry is owned by
    a live connection, the live ids are pairwise distinct and none is a
    proper string prefix of another, these are exactly the closing
    connection's own subscriptions; without the prefix condition they need
    not be.  Every operation of the server keeps each registry entry owned
    by a live connection. *)
Theorem close_removes_by_prefix :
  (forall c s,
      db (close c s) = db s
      /\ forall kv, In kv (subIds (close c s))
                    <-> In kv (subIds s) /\ startsWith (fst kv) (decimal c) = false)
  /\ (forall sv c,
         owned_by_live sv -> prefix_free (live sv) -> NoDup (live sv) ->
         In c (live sv) ->
         forall kv, In kv (subIds (close c (state sv)))
                    <-> In kv (subIds (state sv)) /\ ~ owns c (fst kv))
  /\ (exists sv c kv,
         owned_by_live sv /\ In c (live sv) /\ ~ prefix_free (live sv)
         /\ In kv (subIds (state sv)) /\ ~ owns c (fst kv)
         /\ ~ In kv (subIds (close c (state sv))))
  /\ (forall X sv i,
         prefix_free (live sv) -> owned_by_live sv ->
         owned_by_live (fst (step X sv i))).
Proof.
  split; [|split; [|split]].
  - intros c s. split; [reflexivity | apply In_close].
  - exact close_removes_own.
  - destruct close_prefix_collision as [H1 [H2 [H3 [H4 [H5 H6]]]]].
    eexists _, 1%N, _. repeat split; try eassumption.
    rewrite H6. intros [].
  - intros X sv i _. apply step_keeps_ownership.
Qed.

Lemma close_removes_by_prefix_witness :
  let sv := mkServer [17%N; 23%N]
                     (mkRelay empty_db [("17-a", [Sample.of_kinds [1063]]);
                                        ("23-b", [Sample.of_kinds [1063]])]) in
  owned_by_live sv /\ prefix_free (live sv) /\ NoDup (live sv) /\ In 17%N (live sv)
  /\ (In ("23-b", [Sample.of_kinds [1063]]) (subIds (close 17%N (state sv)))
      <-> In ("23-b", [Sample.of_kinds [1063]]) (subIds (state sv))
          /\ ~ owns 17%N "23-b").
Proof.
  cbv zeta.
  assert (O : owned_by_live
                (mkServer [17%N; 23%N]
                   (mkRelay empty_db [("17-a", [Sample.of_kinds [1063]]);
                                      ("23-b", [Sample.of_kinds [1063]])]))).
  { intros kv [<-|[<-|[]]].
    - exists 17%N. split; [simpl; auto | now exists "a"].
    - exists 23%N. split; [simpl; auto | now exists "b"]. }
  assert (F : prefix_free [17%N; 23%N]).
  { intros c c' [<-|[<-|[]]] [<-|[<-|[]]] H; try reflexivity; discriminate. }
  assert (D : NoDup [17%N; 23%N]).
  { repeat constructor; simpl; intuition discriminate. }
  split; [exact O|]. split; [exact F|]. split; [exact D|]. split; [simpl; auto|].
  destruct close_removes_by_prefix as [_ [H _]].
  exact (H _ 17%N O F D (or_introl eq_refl) ("23-b", [Sample.of_kinds [1063]])).
Defined.

(* ================================================================== *)
(** ** The store: inserts and deletes *)

Arguments run_queries : simpl never.

Lemma row_of_serialize : forall p : Payload,
  extra p = [] -> row_of_statement (_serialize p) = Some (base p).
Proof. intros [[i pk sg k t co tg] ex] E. simpl in E. subst ex. reflexivity. Qed.

Lemma existsb_eqb_string : forall (k : string) (l : list string),
  existsb (String.eqb k) l = true <-> In k l.
Proof.
  intros k l. rewrite existsb_exists. split.
  - intros [x [Hin Hx]]. apply String.eqb_eq in Hx. now subst.
  - intros H. exists k. split; [assumption | apply String.eqb_refl].
Qed.

(** With the seven keys alone the text is the statement over the seven
    columns. *)
Lemma serialize_seven : forall p : Payload,
  extra p = [] -> text (_serialize p) = insert_text events_columns.
Proof.
  intros p E. unfold _serialize, Object_keys. rewrite E. simpl map.
  now rewrite app_nil_r.
Qed.




Lemma insert_events_transaction : forall X d st d',
  insert_events X d st = Return d' -> in_transaction d' = in_transaction d.
Proof.
  intros X d st d' H. unfold insert_events in H.
  assert (E : forall r, match sqlite_insert X (text st) (bindings st) d with
                        | Refused message => Throw (SQLiteError message)
                        | Stored ev ti ft =>
                            Return (mkDb ev ti ft (in_transaction d))
                        end = Return r -> in_transaction r = in_transaction d).
  { intros r. destruct (sqlite_insert X _ _ d) as [ev ti ft|m]; [|discriminate].
    intros K. now injection K as <-. }
  destruct (String.eqb _ _); [|now apply E].
  destruct (row_of_statement st) as [e|]; [|now apply E].
  destruct (all_some (index_values (tags e))); [|discriminate].
  now injection H as <-.
Qed.

Lemma insert_events_inv : forall X d (p : Payload) d',
  extra p = [] ->
  insert_events X d (_serialize p) = Return d' ->
  events d' = events d ++ [mkRow (next_rowid (events d)) p]
  /\ in_transaction d' = in_transaction d.
Proof.
  intros X d p d' Hex H. unfold insert_events in H.
  rewrite (serialize_seven p Hex), String.eqb_refl, (row_of_serialize p Hex) in H.
  destruct (all_some (index_values (tags p))); [|discriminate].
  injection H as <-. auto.
Qed.

Lemma write_event_log : forall X d st old,
  Forall is_sql (snd (fst (write_event X d st old))).
Proof.
  intros X d st old. unfold write_event.
  destruct old as [i|].
  - destruct (begin_transaction d) as [d1|e]; simpl; [|repeat constructor].
    destruct (insert_events X d1 st); simpl; repeat constructor.
  - destruct (insert_events X d st); simpl; repeat constructor.
Qed.

Lemma lookup_log_sql : forall d e, Forall is_sql (lookup_log d e).
Proof.
  intros d e. unfold lookup_log.
  destruct (replaceable (kind e) || parameterizable (kind e)); repeat constructor.
Qed.

(** A write that went through ran the INSERT. *)
Lemma write_event_inserts : forall X d st old d' log,
  write_event X d st old = (d', log, None) ->
  existsb (fun x => match x with Sql (InsertEvent _) => true | _ => false end)
          log = true.
Proof.
  intros X d st old d' log H. unfold write_event in H.
  destruct old as [i|].
  - destruct (begin_transaction d); [|discriminate].
    destruct (insert_events X _ st); [|discriminate].
    now injection H as _ <-.
  - destruct (insert_events X d st); [|discriminate].
    now injection H as _ <-.
Qed.

(** A write of the seven keys that went through appended one row and, when
    it replaces, dropped the rows with the id it found. *)
Lemma write_event_done : forall X d (p : Payload) old d' log,
  extra p = [] ->
  write_event X d (_serialize p) old = (d', log, None) ->
  events d'
  = match old with
    | Some i => filter (fun r : Row => negb (String.eqb (id r) i))
                       (events d ++ [mkRow (next_rowid (events d)) p])
    | None => events d ++ [mkRow (next_rowid (events d)) p]
    end.
Proof.
  intros X d p old d' log Hex H. unfold write_event in H.
  destruct old as [i|].
  - unfold begin_transaction in H. destruct (in_transaction d); [discriminate|].
    destruct (insert_events X _ _) as [d2|e] eqn:I; [|discriminate].
    apply (insert_events_inv X _ p _ Hex) in I. destruct I as [Hev _].
    injection H as <- _. simpl in *. now rewrite Hev.
  - destruct (insert_events X d _) as [d2|e] eqn:I; [|discriminate].
    apply (insert_events_inv X _ p _ Hex) in I. destruct I as [Hev _].
    now injection H as <- _.
Qed.

(** A write that threw left the three tables as they were. *)
Lemma write_event_thrown : forall X d st old d' log e,
  write_event X d st old = (d', log, Some e) ->
  events d' = events d /\ tags_index d' = tags_index d
  /\ events_fts d' = events_fts d.
Proof.
  intros X d st old d' log e H. unfold write_event in H.
  destruct old as [i|].
  - unfold begin_transaction in H. destruct (in_transaction d).
    + injection H as <- _ _. auto.
    + destruct (insert_events X _ st); [discriminate|].
      injection H as <- _ _. auto.
  - destruct (insert_events X d st); [discriminate|].
    injection H as <- _ _. auto.
Qed.

Lemma idToRemove_found : forall d e i,
  idToRemove d e = Some i ->
  i <> ""%string
  /\ exists r : Row, In r (events d) /\ id r = i
                     /\ pubkey r = pubkey e /\ kind r = kind e.
Proof.
  intros d e i H. unfold idToRemove in H.
  destruct (replaceable (kind e) || parameterizable (kind e)); [|discriminate].
  assert (F : forall g, option_map (fun r : Row => id r) (find g (events d)) = Some i ->
              (forall r, g r = true ->
                         String.eqb (pubkey r) (pubkey e) && (kind r =? kind e) = true) ->
              exists r : Row, In r (events d) /\ id r = i
                              /\ pubkey r = pubkey e /\ kind r = kind e).
  { intros g Hg Hsel. destruct (find g (events d)) as [r|] eqn:Fd; [|discriminate].
    apply find_some in Fd. destruct Fd as [Hin Hr].
    apply Hsel, andb_prop in Hr. destruct Hr as [Hp Hk].
    apply String.eqb_eq in Hp. apply Z.eqb_eq in Hk.
    exists r. injection Hg as <-. auto. }
  destruct (parameterizable (kind e)).
  - unfold holder_d in H.
    destruct (option_map _ _) as [j|] eqn:Hj; [|discriminate].
    destruct (String.eqb j "") eqn:Ej; [discriminate|].
    injection H as <-. apply String.eqb_neq in Ej. split; [assumption|].
    apply (F _ Hj). intros r Hr. apply andb_prop in Hr. apply Hr.
  - unfold holder in H.
    destruct (option_map _ _) as [j|] eqn:Hj; [|discriminate].
    destruct (String.eqb j "") eqn:Ej; [discriminate|].
    injection H as <-. apply String.eqb_neq in Ej. split; [assumption|].
    apply (F _ Hj). auto.
Qed.

(* ================================================================== *)
(** ** Queries *)

Lemma In_insert_desc : forall r x l, In x (insert_desc r l) <-> x = r \/ In x l.
Proof.
  induction l as [|y l IH]; simpl.
  - intuition auto.
  - destruct (created_at y <=? created_at r); simpl; [intuition auto|].
    rewrite IH. intuition auto.
Qed.

Lemma In_order_by : forall x l, In x (order_by_created_at_desc l) <-> In x l.
Proof.
  induction l as [|y l IH]; simpl; [reflexivity|].
  rewrite In_insert_desc, IH. intuition auto.
Qed.

Lemma In_firstn : forall A (x : A) n l, In x (firstn n l) -> In x l.
Proof.
  induction n as [|n IH]; intros [|y l]; simpl; try contradiction.
  intros [H|H]; [now left | right; auto].
Qed.

Lemma In_apply_limit : forall n x l, In x (apply_limit n l) -> In x l.
Proof.
  intros [n|] x l; simpl; [|auto].
  destruct (n =? 0); [auto|]. destruct (n <? 0); [auto|].
  apply In_firstn.
Qed.

Lemma apply_limit_unlimited : forall f l, unlimited f -> apply_limit (limit f) l = l.
Proof.
  intros f l U. unfold apply_limit. destruct (limit f) as [n|] eqn:L; [|reflexivity].
  specialize (U n L).
  destruct (n =? 0) eqn:E0; [reflexivity|].
  destruct (n <? 0) eqn:E1; [reflexivity|].
  apply Z.eqb_neq in E0. apply Z.ltb_ge in E1. lia.
Qed.

(** What [select_events] returns, row by row. *)
Lemma select_events_In : forall X d f rows r,
  select_events X d f = Return rows -> In r rows ->
  In r (events d) /\ where_plain d f r = true
  /\ exists matches, search_clause X d f = Return matches /\ matches r = true.
Proof.
  intros X d f rows r H Hin. unfold select_events in H.
  destruct (prepare f); [discriminate|].
  destruct (search_clause X d f) as [matches|e]; [|discriminate].
  simpl in H. injection H as <-.
  apply In_apply_limit in Hin.
  assert (Hf : In r (filter (fun r => where_plain d f r && matches r) (events d))).
  { destruct (search_truthy f); [assumption | now apply In_order_by]. }
  apply filter_In in Hf. destruct Hf as [Hev Hw]. apply andb_prop in Hw.
  destruct Hw as [Hw Hm]. split; [assumption|]. split; [assumption|].
  now exists matches.
Qed.

Lemma select_events_all : forall X d f rows matches r,
  select_events X d f = Return rows -> unlimited f ->
  search_clause X d f = Return matches ->
  In r (events d) -> where_plain d f r = true -> matches r = true ->
  In r rows.
Proof.
  intros X d f rows matches r H U Hs Hev Hw Hm. unfold select_events in H.
  destruct (prepare f); [discriminate|].
  rewrite Hs in H. simpl in H. injection H as <-.
  rewrite apply_limit_unlimited by assumption.
  assert (Hf : In r (filter (fun r => where_plain d f r && matches r) (events d))).
  { apply filter_In. split; [assumption|]. now rewrite Hw, Hm. }
  destruct (search_truthy f); [assumption | now apply In_order_by].
Qed.

Lemma run_queries_cons : forall X d f rest,
  run_queries X d (f :: rest)
  = match select_events X d (normalize_search f) with
    | Throw e => (normalize_search f :: rest,
                  [Sql (SelectEvents (normalize_search f))], Throw e)
    | Return rows =>
        let '(rest', log, r) := run_queries X d rest in
        (normalize_search f :: rest', Sql (SelectEvents (normalize_search f)) :: log,
         rbind r (fun more => Return (rows ++ more)))
    end.
Proof. reflexivity. Qed.

Lemma run_queries_nil : forall X d, run_queries X d [] = ([], [], Return []).
Proof. reflexivity. Qed.

(** The rows the loop collects come, filter by filter, from
    [select_events]. *)
Lemma run_queries_In : forall X d filters fs log rows r,
  run_queries X d filters = (fs, log, Return rows) ->
  (In r rows <->
   exists f rs, In f filters /\ select_events X d (normalize_search f) = Return rs
                /\ In r rs).
Proof.
  intros X d filters. induction filters as [|f rest IH]; intros fs log rows r H.
  - rewrite run_queries_nil in H. injection H as <- <- <-.
    split; [intros [] | intros [f [rs [[] _]]]].
  - rewrite run_queries_cons in H.
    destruct (select_events X d (normalize_search f)) as [rs|e] eqn:S; [|discriminate].
    destruct (run_queries X d rest) as [[fs' log'] [more|e]] eqn:Q; [|discriminate].
    simpl in H. injection H as <- <- <-.
    rewrite in_app_iff, (IH _ _ _ r eq_refl). split.
    + intros [Hin | [f' [rs' [Hf' [Hs' Hin]]]]].
      * exists f, rs. simpl. auto.
      * exists f', rs'. simpl. auto.
    + intros [f' [rs' [[<-|Hf'] [Hs' Hin]]]].
      * rewrite S in Hs'. injection Hs' as <-. now left.
      * right. exists f', rs'. auto.
Qed.

Lemma run_queries_log : forall X d filters,
  Forall is_sql (snd (fst (run_queries X d filters))).
Proof.
  intros X d filters. induction filters as [|f rest IH].
  - rewrite run_queries_nil. constructor.
  - rewrite run_queries_cons.
    destruct (select_events X d (normalize_search f)); [|repeat constructor].
    destruct (run_queries X d rest) as [[fs' log'] r]. simpl in *.
    now constructor.
Qed.

Lemma filter_true : forall A (l : list A), filter (fun _ => true) l = l.
Proof. induction l; simpl; congruence. Qed.

Lemma purged_refl : forall d, purged d d.
Proof.
  intros d. exists []. split; [|intros i []].
  simpl. now rewrite filter_true.
Qed.

Lemma filter_filter : forall A (p q : A -> bool) l,
  filter q (filter p l) = filter (fun x => p x && q x) l.
Proof.
  induction l as [|x l IH]; simpl; [reflexivity|].
  destruct (p x); simpl; [destruct (q x)|]; now rewrite IH.
Qed.

Lemma purged_trans : forall d1 d2 d3, purged d1 d2 -> purged d2 d3 -> purged d1 d3.
Proof.
  intros d1 d2 d3 [g1 [E1 H1]] [g2 [E2 H2]]. exists (g1 ++ g2). split.
  - rewrite E2, E1, filter_filter. apply filter_ext. intros r.
    now rewrite existsb_app, negb_orb.
  - intros i Hi. apply in_app_or in Hi. destruct Hi as [Hi|Hi]; [auto|].
    destruct (H2 i Hi) as [r [Hin Hr]]. exists r. split; [|assumption].
    rewrite E1 in Hin. now apply filter_In in Hin.
Qed.

Lemma remove_ephemeral_events : forall rows d,
  events (fst (remove_ephemeral rows d))
  = filter (fun r : Row =>
              negb (existsb (String.eqb (id r))
                      (map (fun r : Row => id r)
                           (filter (fun r : Row => ephemeral (kind r)) rows))))
           (events d).
Proof.
  intros rows d. unfold remove_ephemeral.
  destruct (map _ (filter _ rows)); simpl; [now rewrite filter_true | reflexivity].
Qed.

Lemma remove_ephemeral_log : forall rows d,
  Forall is_sql (snd (remove_ephemeral rows d)).
Proof.
  intros rows d. unfold remove_ephemeral.
  destruct (map _ (filter _ rows)); simpl; repeat constructor.
Qed.

Lemma remove_ephemeral_purged : forall X d filters fs log rows,
  run_queries X d filters = (fs, log, Return rows) ->
  purged d (fst (remove_ephemeral rows d)).
Proof.
  intros X d filters fs log rows Q.
  exists (map (fun r : Row => id r) (filter (fun r : Row => ephemeral (kind r)) rows)).
  split; [apply remove_ephemeral_events|].
  intros j Hj. apply in_map_iff in Hj.
  destruct Hj as [r [<- Hr]]. apply filter_In in Hr. destruct Hr as [Hr He].
  apply (run_queries_In X _ _ _ _ _ r Q) in Hr.
  destruct Hr as [f [rs [_ [S Hin]]]].
  apply (select_events_In X _ _ _ _ S) in Hin. exists r. intuition auto.
Qed.

Ltac purge_cases X s :=
  match goal with
  | |- context [run_queries X (db s) ?fl] =>
      let Q := fresh "Q" in
      destruct (run_queries X (db s) fl) as [[?fs ?log] [?rows|?e]] eqn:Q;
      [ pose proof (remove_ephemeral_purged X _ _ _ _ _ Q);
        match goal with
        | |- context [remove_ephemeral ?rows (db s)] =>
            destruct (remove_ephemeral rows (db s)); cbn in *; assumption
        end
      | cbn; apply purged_refl ]
  end.

Lemma handleRequest_purged : forall X ws reqId filters ex s,
  purged (db s) (db (relay (_handleRequest X ws reqId filters ex s))).
Proof.
  intros X ws reqId filters ex s. unfold _handleRequest.
  destruct (existsb (fun f => negb (admitted f)) filters); [apply purged_refl|].
  destruct ex as [k|], ws as [c|]; cbn -[run_queries].
  - purge_cases X s.
  - purge_cases X s.
  - destruct filters as [|f0 filters']; [apply purged_refl|]. purge_cases X s.
  - purge_cases X s.
Qed.

(* ================================================================== *)
(** ** The fan-out loop and the write path *)

Lemma lookup_In : forall k m, In k (map fst m) -> exists v, lookup k m = Some v.
Proof.
  induction m as [|[k' v'] m IH]; simpl; intros H; [contradiction|].
  destruct (String.eqb k' k) eqn:E; [eauto|].
  destruct H as [H|H]; [|auto].
  apply String.eqb_neq in E. contradiction.
Qed.

Lemma fanout_cons : forall X c i k keys s,
  fanout X c i (k :: keys) s
  = match lookup k (subIds s) with
    | None => mkOutcome s [] (Throw TypeError)
    | Some filters =>
        let o := _handleRequest X (Some c) (reqId_of k)
                                (map (fun f => set_ids f [i]) filters) (Some k) s in
        let o' := fanout X c i keys (relay o) in
        mkOutcome (relay o') (effects o ++ effects o') (result o')
    end.
Proof. reflexivity. Qed.

Lemma fanout_returns : forall X c i keys s,
  (forall k, In k keys -> In k (map fst (subIds s))) ->
  result (fanout X c i keys s) = Return tt.
Proof.
  intros X c i keys. induction keys as [|k keys IH]; intros s H; [reflexivity|].
  rewrite fanout_cons.
  destruct (lookup_In k (subIds s) (H k (or_introl eq_refl))) as [v ->].
  simpl. apply IH. intros k' Hk'.
  rewrite handleRequest_existing_subIds. apply H. now right.
Qed.

Lemma fanout_purged : forall X c i keys s,
  purged (db s) (db (relay (fanout X c i keys s))).
Proof.
  intros X c i keys. induction keys as [|k keys IH]; intros s.
  - apply purged_refl.
  - rewrite fanout_cons. destruct (lookup k (subIds s)); [|apply purged_refl].
    simpl. eapply purged_trans; [apply handleRequest_purged | apply IH].
Qed.

Lemma not_sql_In : forall l e, Forall is_sql l -> In e l -> is_sql e.
Proof. intros l e H Hin. rewrite Forall_forall in H. auto. Qed.

Lemma existsb_insert_app : forall l1 l2,
  existsb (fun x => match x with Sql (InsertEvent _) => true | _ => false end) (l1 ++ l2)
  = existsb (fun x => match x with Sql (InsertEvent _) => true | _ => false end) l1
    || existsb (fun x => match x with Sql (InsertEvent _) => true | _ => false end) l2.
Proof. intros. apply existsb_app. Qed.

Lemma handleEvent_handled : forall X ws payload s,
  handled X ws payload s (_handleEvent X ws payload s).
Proof.
  intros X ws payload s. unfold _handleEvent.
  destruct (_validateEvent X payload) as [[|]|e] eqn:V.
  - destruct (exists_id (db s) (id payload)) eqn:Ex.
    + apply handled_refused; [reflexivity| |].
      * unfold written. simpl. now destruct ws.
      * intros c a r [H|H]; [discriminate|].
        destruct ws; simpl in H; [|contradiction].
        destruct H as [H|[]]. now injection H.
    + destruct (write_event _ _ _ _) as [[d' log] [e|]] eqn:W.
      * eapply handled_thrown; eauto.
      * pose proof (write_event_inserts _ _ _ _ _ _ W) as Hins.
        destruct ws as [c|].
        -- rewrite fanout_returns by (simpl; auto).
           eapply handled_written; eauto.
           unfold written. simpl. rewrite !existsb_insert_app, Hins.
           now rewrite !orb_true_r.
        -- eapply handled_written; eauto.
           unfold written. simpl. rewrite !existsb_insert_app, Hins.
           now rewrite !orb_true_r.
  - destruct ws as [c|].
    + apply handled_refused; [reflexivity|reflexivity|].
      intros c' a r [H|[]]. now injection H.
    + apply handled_refused; [reflexivity|reflexivity|].
      intros c' a r [].
  - apply handled_refused; [reflexivity|reflexivity|].
    intros c' a r H. destruct ws; simpl in H; [|contradiction].
    destruct H as [H|[]]. now injection H.
Qed.

(* ================================================================== *)
(** ** Duplicates (C2) *)

Lemma exists_id_false : forall d i,
  exists_id d i = false ->
  filter (fun r : Row => String.eqb (id r) i) (events d) = [].
Proof.
  intros d i. unfold exists_id.
  induction (events d) as [|r l IH]; simpl; [reflexivity|].
  destruct (String.eqb (id r) i); [discriminate | auto].
Qed.

Lemma exists_id_true : forall d i r,
  In r (events d) -> id r = i -> exists_id d i = true.
Proof.
  intros d i r Hin Hid. unfold exists_id. apply existsb_exists.
  exists r. split; [assumption|]. rewrite Hid. apply String.eqb_refl.
Qed.

Lemma filter_comm : forall A (p q : A -> bool) l,
  filter p (filter q l) = filter q (filter p l).
Proof.
  intros A p q l. rewrite !filter_filter. apply filter_ext.
  intros x. apply andb_comm.
Qed.

(** After a write that went through, the rows carrying the new id are the
    new row alone. *)
Lemma written_row_unique : forall X d (p : Payload) d' log,
  extra p = [] ->
  exists_id d (id p) = false ->
  write_event X d (_serialize p) (idToRemove d p) = (d', log, None) ->
  filter (fun r : Row => String.eqb (id r) (id p)) (events d')
  = [mkRow (next_rowid (events d)) p].
Proof.
  intros X d p d' log Hex Ex W.
  apply (write_event_done X d p _ d' log Hex) in W. rename W into Hev.
  rewrite Hev. destruct (idToRemove d p) as [i|] eqn:Old.
  - apply idToRemove_found in Old. destruct Old as [_ [r [Hin [Hid _]]]].
    assert (Hne : String.eqb (id p) i = false).
    { apply String.eqb_neq. intros <-.
      rewrite (exists_id_true d (id p) r Hin Hid) in Ex. discriminate. }
    rewrite filter_comm, filter_app, (exists_id_false _ _ Ex). simpl.
    rewrite String.eqb_refl. simpl. now rewrite Hne.
  - rewrite filter_app, (exists_id_false _ _ Ex). simpl.
    now rewrite String.eqb_refl.
Qed.

(** Deleting ephemeral rows by id leaves a row that is not ephemeral and
    alone under its id. *)
Lemma purged_keeps : forall d d' i (r : Row),
  purged d d' ->
  filter (fun x : Row => String.eqb (id x) i) (events d) = [r] ->
  ephemeral (kind r) = false ->
  filter (fun x : Row => String.eqb (id x) i) (events d') = [r].
Proof.
  intros d d' i r [gone [E G]] U NE.
  rewrite E, filter_comm, U. simpl.
  destruct (existsb (String.eqb (id r)) gone) eqn:B; [|reflexivity].
  exfalso. apply existsb_eqb_string in B.
  destruct (G _ B) as [r' [Hin [Hid He]]].
  assert (Hr : In r (filter (fun x : Row => String.eqb (id x) i) (events d))).
  { rewrite U. now left. }
  apply filter_In in Hr. destruct Hr as [_ Hri]. apply String.eqb_eq in Hri.
  assert (Hr' : In r' (filter (fun x : Row => String.eqb (id x) i) (events d))).
  { apply filter_In. split; [assumption|]. rewrite Hid, Hri. apply String.eqb_refl. }
  rewrite U in Hr'. destruct Hr' as [<-|[]]. congruence.
Qed.

Lemma no_frame_in_sql : forall l c f, Forall is_sql l -> ~ In (Send c f) l.
Proof. intros l c f H Hin. apply (not_sql_In _ _ H Hin). Qed.

Lemma duplicate_outcome : forall X ws (payload : Payload) s,
  _validateEvent X payload = Return true ->
  exists_id (db s) (id payload) = true ->
  _handleEvent X ws payload s
  = mkOutcome s
      (Sql (SelectExists (id payload))
       :: match ws with
          | Some c => [Send c (OK (id payload) false Duplicate)]
          | None => []
          end)
      (Return tt).
Proof.
  intros X ws payload s V Ex. unfold _handleEvent. rewrite V, Ex.
  now destruct ws.
Qed.

(** An OK-true frame is sent only after the write went through. *)
Lemma acknowledged_written : forall X c (payload : Payload) s,
  In (Send c (OK (id payload) true NoReason))
     (effects (_handleEvent X (Some c) payload s)) ->
  exists d' log,
    _validateEvent X payload = Return true
    /\ exists_id (db s) (id payload) = false
    /\ write_event X (db s) (_serialize payload) (idToRemove (db s) payload)
       = (d', log, None)
    /\ relay (_handleEvent X (Some c) payload s)
       = relay (fanout X c (id payload) (map fst (subIds s)) (mkRelay d' (subIds s))).
Proof.
  intros X c payload s Hin.
  destruct (handleEvent_handled X (Some c) payload s)
    as [o Hs Hw Hok | o d' log e V Ex W Hr Hres Heff | o d' log V Ex W Hres Hw Hrel].
  - apply Hok in Hin. discriminate.
  - rewrite Heff in Hin. apply in_app_or in Hin. destruct Hin as [Hin|Hin].
    + exfalso. revert Hin. apply no_frame_in_sql. constructor; [exact I|].
      apply Forall_app. split; [apply lookup_log_sql|].
      pose proof (write_event_log X (db s) (_serialize payload)
                    (idToRemove (db s) payload)) as L.
      now rewrite W in L.
    + destruct Hin as [Hin|[]]. discriminate.
  - exists d', log. destruct Hrel as [Hrel _]. auto.
Qed.

(** C2, as stated, fails for an ephemeral kind: a live subscription that
    matches the event has it deleted by the fan-out of the first submission,
    so the second submission is accepted again, and no copy stays stored. *)
Lemma ephemeral_resubmission_accepted :
  let e := Sample.event "ee" "alice" 20000 1000 [] in
  let s := relay (_handleRequest Sample.X (Some 1%N) "s"
                    [Sample.of_kinds [1063; 20000]] None Sample.start) in
  let o1 := _handleEvent Sample.X (Some 1%N) e s in
  let o2 := _handleEvent Sample.X (Some 1%N) e (relay o1) in
  _validateEvent Sample.X e = Return true
  /\ In (Send 1%N (OK "ee" true NoReason)) (effects o1)
  /\ In (Send 1%N (OK "ee" true NoReason)) (effects o2)
  /\ ~ In (Send 1%N (OK "ee" false Duplicate)) (effects o2)
  /\ events (db (relay o2)) = [].
Proof.
  cbv zeta. split; [reflexivity|]. split; [|split; [|split]].
  - vm_compute. auto 10.
  - vm_compute. auto 10.
  - vm_compute. intros H.
    repeat (destruct H as [H|H]; [discriminate|]). exact H.
  - vm_compute. reflexivity.
Qed.

(** The consequence also needs the seven keys alone.  A key that carries
    SQL of its own can turn the INSERT into a statement that stores nothing:
    the event is acknowledged, is not in the table, and is acknowledged
    again. *)
Lemma spliced_key_is_accepted_twice :
  let p := mkPayload (mkEvent "aa" "alice" "sig" 1063 1000 "" [])
                     [(Sample.select_nothing, JNum 5)] in
  let o1 := _handleEvent Sample.X (Some 1%N) p Sample.start in
  let o2 := _handleEvent Sample.X (Some 1%N) p (relay o1) in
  text (_serialize p)
  = "INSERT INTO events (id, pubkey, sig, kind, created_at, content, tags, rowid) SELECT ?,?,?,?,?,?,?,? WHERE 0 --) VALUES (?,?,?,?,?,?,?,?);"
  /\ _validateEvent Sample.X p = Return true
  /\ In (Send 1%N (OK "aa" true NoReason)) (effects o1)
  /\ events (db (relay o1)) = []
  /\ In (Send 1%N (OK "aa" true NoReason)) (effects o2).
Proof.
  cbv zeta. split; [reflexivity|]. split; [reflexivity|]. split; [|split].
  - vm_compute. auto.
  - reflexivity.
  - vm_compute. auto.
Qed.

(** C2 (amended).  A submitted event that passes validation and whose id
    is already in the events table is answered OK-false "duplicate" (to a
    websocket), with no insert, no delete and no fan-out: the only statement
    run is the existence check, and store and registry are unchanged.
    Consequently, when the first submission of a valid event of a
    non-ephemeral kind that carries the seven event keys and no other is
    acknowledged OK-true, submitting it again yields OK-false "duplicate"
    and exactly one stored copy. *)
Theorem duplicate_is_refused :
  forall (X : Collaborators) (ws : option N) (payload : Payload) (s : Relay),
    _validateEvent X payload = Return true ->
    (exists_id (db s) (id payload) = true ->
     _handleEvent X ws payload s
     = mkOutcome s
         (Sql (SelectExists (id payload))
          :: match ws with
             | Some c => [Send c (OK (id payload) false Duplicate)]
             | None => []
             end)
         (Return tt))
    /\ (forall c,
           extra payload = [] ->
           ephemeral (kind payload) = false ->
           let o1 := _handleEvent X (Some c) payload s in
           In (Send c (OK (id payload) true NoReason)) (effects o1) ->
           _handleEvent X (Some c) payload (relay o1)
           = mkOutcome (relay o1)
               [Sql (SelectExists (id payload));
                Send c (OK (id payload) false Duplicate)]
               (Return tt)
           /\ List.length (filter (fun r : Row => String.eqb (id r) (id payload))
                                  (events (db (relay o1)))) = 1%nat).
Proof.
  intros X ws payload s V. split; [apply duplicate_outcome; assumption|].
  intros c Hex NE o1 Hin. subst o1.
  destruct (acknowledged_written X c payload s Hin) as [d' [log [_ [Ex [W Hrel]]]]].
  assert (U : filter (fun r : Row => String.eqb (id r) (id payload))
                     (events (db (relay (_handleEvent X (Some c) payload s))))
              = [mkRow (next_rowid (events (db s))) payload]).
  { rewrite Hrel.
    apply (purged_keeps (db (mkRelay d' (subIds s)))); [apply fanout_purged| |exact NE].
    apply (written_row_unique X (db s) payload d' log Hex Ex W). }
  split; [|now rewrite U].
  apply (duplicate_outcome X (Some c)); [assumption|].
  apply (exists_id_true _ _ (mkRow (next_rowid (events (db s))) payload)); [|reflexivity].
  assert (Hr : In (mkRow (next_rowid (events (db s))) payload)
                  (filter (fun r : Row => String.eqb (id r) (id payload))
                     (events (db (relay (_handleEvent X (Some c) payload s)))))).
  { rewrite U. now left. }
  now apply filter_In in Hr.
Qed.

Lemma duplicate_is_refused_witness :
  let e := Sample.event "aa" "alice" 30063 1000 [["d"; "app.one"]] in
  let s := relay (_handleEvent Sample.X (Some 1%N) e Sample.start) in
  _validateEvent Sample.X e = Return true
  /\ exists_id (db s) "aa" = true
  /\ _handleEvent Sample.X (Some 1%N) e s
     = mkOutcome s [Sql (SelectExists "aa"); Send 1%N (OK "aa" false Duplicate)]
                 (Return tt).
Proof.
  cbv zeta. split; [reflexivity|]. split; [reflexivity|].
  exact (proj1 (duplicate_is_refused Sample.X (Some 1%N)
                  (Sample.event "aa" "alice" 30063 1000 [["d"; "app.one"]])
                  (relay (_handleEvent Sample.X (Some 1%N)
                            (Sample.event "aa" "alice" 30063 1000 [["d"; "app.one"]])
                            Sample.start))
                  eq_refl) eq_refl).
Defined.

(* ================================================================== *)
(** ** The INSERT built from the object's keys (C9) *)


Lemma handleEvent_written_eq : forall X ws (payload : Payload) s d' log,
  _validateEvent X payload = Return true ->
  exists_id (db s) (id payload) = false ->
  write_event X (db s) (_serialize payload) (idToRemove (db s) payload)
  = (d', log, None) ->
  let done := Sql (SelectExists (id payload)) :: lookup_log (db s) payload ++ log in
  _handleEvent X ws payload s
  = match ws with
    | None => mkOutcome (mkRelay d' (subIds s)) done (Return tt)
    | Some c =>
        let fo := fanout X c (id payload) (map fst (subIds s)) (mkRelay d' (subIds s)) in
        mkOutcome (relay fo)
                  (done ++ [Send c (OK (id payload) true NoReason)] ++ effects fo)
                  (Return tt)
    end.
Proof.
  intros X ws payload s d' log V Ex W done. unfold _handleEvent.
  rewrite V, Ex, W. destruct ws as [c|]; [|reflexivity].
  now rewrite fanout_returns by (simpl; auto).
Qed.

Lemma handleEvent_thrown_eq : forall X ws (payload : Payload) s d' log e,
  _validateEvent X payload = Return true ->
  exists_id (db s) (id payload) = false ->
  write_event X (db s) (_serialize payload) (idToRemove (db s) payload)
  = (d', log, Some e) ->
  _handleEvent X ws payload s
  = mkOutcome (mkRelay d' (subIds s))
      ((Sql (SelectExists (id payload)) :: lookup_log (db s) payload ++ log)
       ++ match ws with
          | Some c => [Send c (OK (id payload) false (ErrorReason e))]
          | None => []
          end)
      (Throw e).
Proof.
  intros X ws payload s d' log e V Ex W. unfold _handleEvent.
  rewrite V, Ex, W. reflexivity.
Qed.




(** It fails on its second half as well: not every additional key names a
    column that events does not have.  The key [rowid] is an alias of the
    table's implicit key; the engine accepts the statement, and the event is
    acknowledged and stored, under the rowid it submitted. *)
Lemma rowid_key_is_stored :
  let p := mkPayload (mkEvent "aa" "alice" "sig" 1063 1000 "" [])
                     [("rowid", JNum 77)] in
  let o := _handleEvent Sample.X (Some 1%N) p Sample.start in
  _validateEvent Sample.X p = Return true
  /\ extra p <> []
  /\ text (_serialize p)
     = "INSERT INTO events (id, pubkey, sig, kind, created_at, content, tags, rowid) VALUES (?,?,?,?,?,?,?,?);"
  /\ result o = Return tt
  /\ In (Send 1%N (OK "aa" true NoReason)) (effects o)
  /\ events (db (relay o)) = [mkRow 77 p].
Proof.
  cbv zeta. split; [reflexivity|]. split; [discriminate|].
  split; [reflexivity|]. split; [reflexivity|]. split; [|reflexivity].
  vm_compute. auto.
Qed.

(** A replacement whose INSERT throws leaves its BEGIN open, and the next
    replacement cannot start a transaction. *)
Lemma open_transaction_blocks_replacement :
  let first := Sample.event "a1" "alice" 10000 1000 [] in
  let broken := mkPayload (mkEvent "a2" "alice" "sig" 10000 2000 "" [])
                          [("relay", JStr "x")] in
  let next := Sample.event "a3" "alice" 10000 3000 [] in
  let s1 := relay (_handleEvent Sample.X (Some 1%N) first Sample.start) in
  let s2 := relay (_handleEvent Sample.X (Some 1%N) broken s1) in
  in_transaction (db s2) = true
  /\ result (_handleEvent Sample.X (Some 1%N) next s2) = Throw NestedTransaction
  /\ map (fun r : Row => id r) (events (db s2)) = ["a1"].
Proof. cbv zeta. repeat split. Qed.



(* ================================================================== *)
(** ** Parameterizable replacement (C4) *)

(** The lookup key of a parameterizable event is [d:] followed by the
    first value of its first d-tag; without a d-tag the interpolation gives
    ["d:undefined"], not ["d:"]. *)
Lemma d_param_cases : forall v,
  d_param (Some v) = ("d:" ++ v)%string /\ d_param None = "d:undefined".
Proof. intros v. split; reflexivity. Qed.

(** Two kind-30063 events of one publisher with the same d-tag collapse to
    the later submission. *)
Lemma same_d_tag_collapses :
  let e1 := Sample.event "aa" "alice" 30063 1000 [["d"; "app.one"]] in
  let e2 := Sample.event "bb" "alice" 30063 2000 [["d"; "app.one"]] in
  let s1 := relay (_handleEvent Sample.X (Some 1%N) e1 Sample.start) in
  let s2 := relay (_handleEvent Sample.X (Some 1%N) e2 s1) in
  map row_event (events (db s2)) = [base e2].
Proof. reflexivity. Qed.

(** With different d-tags both persist. *)
Lemma different_d_tags_persist :
  let e1 := Sample.event "aa" "alice" 30063 1000 [["d"; "app.one"]] in
  let e2 := Sample.event "bb" "alice" 30063 2000 [["d"; "app.two"]] in
  let s1 := relay (_handleEvent Sample.X (Some 1%N) e1 Sample.start) in
  let s2 := relay (_handleEvent Sample.X (Some 1%N) e2 s1) in
  map row_event (events (db s2)) = [base e1; base e2].
Proof. reflexivity. Qed.

(** C4 at its failing input.  Two kind-30063 events of one publisher, both
    without a d-tag, have by the claim the same key (pubkey, kind, ""), so
    the second should replace the first.  The code looks the second up under
    ["d:undefined"], finds no index row, and keeps both. *)
Theorem absent_d_tags_both_persist :
  let e1 := Sample.event "aa" "alice" 30063 1000 [] in
  let e2 := Sample.event "bb" "alice" 30063 2000 [] in
  let s1 := relay (_handleEvent Sample.X (Some 1%N) e1 Sample.start) in
  let o2 := _handleEvent Sample.X (Some 1%N) e2 s1 in
  _getFirstTag (tags e1) "d" = None
  /\ _getFirstTag (tags e2) "d" = None
  /\ effects o2
     = [Sql (SelectExists "bb");
        Sql (SelectHolder "alice" 30063 "d:undefined");
        Sql (InsertEvent (_serialize e2));
        Send 1%N (OK "bb" true NoReason)]
  /\ map row_event (events (db (relay o2))) = [base e1; base e2].
Proof. cbv zeta. repeat split. Qed.

(** The same interpolation makes an event without a d-tag replace a stored
    event whose d-tag is the word "undefined". *)
Lemma absent_d_tag_replaces_undefined :
  let e1 := Sample.event "aa" "alice" 30063 1000 [["d"; "undefined"]] in
  let e2 := Sample.event "bb" "alice" 30063 2000 [] in
  let s1 := relay (_handleEvent Sample.X (Some 1%N) e1 Sample.start) in
  let s2 := relay (_handleEvent Sample.X (Some 1%N) e2 s1) in
  map row_event (events (db s2)) = [base e2].
Proof. reflexivity. Qed.

(* ================================================================== *)
(** ** Ephemeral events (C7) *)

Lemma frame_events_app : forall l1 l2,
  frame_events (l1 ++ l2) = frame_events l1 ++ frame_events l2.
Proof. intros. apply flat_map_app. Qed.

Lemma frame_events_sql : forall l, Forall is_sql l -> frame_events l = [].
Proof.
  induction l as [|e l IH]; intros H; [reflexivity|].
  inversion H as [|? ? He Hl]; subst. destruct e; try contradiction.
  simpl. auto.
Qed.

Lemma frame_events_publish : forall k reqId (rows : list Row),
  frame_events (map (fun r : Row => Publish k (EVENT reqId r)) rows)
  = map row_event rows.
Proof. induction rows as [|r rows IH]; simpl; [reflexivity | now f_equal]. Qed.

(** What a request hands out and what it leaves in the store. *)
Lemma handleRequest_outcome : forall X ws reqId filters ex s,
  let o := _handleRequest X ws reqId filters ex s in
  if existsb (fun f => negb (admitted f)) filters
  then handed_out o = [] /\ db (relay o) = db s
  else match run_queries X (db s) filters with
       | (_, _, Throw _) => handed_out o = [] /\ db (relay o) = db s
       | (_, _, Return rows) =>
           handed_out o = map row_event rows
           /\ db (relay o) = fst (remove_ephemeral rows (db s))
           /\ forall c key (r : Row),
                ws = Some c -> ex = Some key -> In r rows ->
                In (Publish key (EVENT reqId r)) (effects o)
       end.
Proof.
  intros X ws reqId filters ex s. unfold _handleRequest.
  destruct (existsb (fun f => negb (admitted f)) filters).
  { now destruct ws. }
  assert (G : forall (pre post : list Effect) fs log rows reg key,
             run_queries X (db s) filters = (fs, log, Return rows) ->
             frame_events pre = [] -> frame_events post = [] ->
             let o := let '(d', purge) := remove_ephemeral rows (db s) in
                      mkOutcome (mkRelay d' reg)
                        (pre ++ log ++ purge
                         ++ map (fun r : Row => Publish key (EVENT reqId r)) rows ++ post)
                        (Return []) in
             handed_out o = map row_event rows
             /\ db (relay o) = fst (remove_ephemeral rows (db s))
             /\ forall r : Row, In r rows -> In (Publish key (EVENT reqId r)) (effects o)).
  { intros pre post fs log rows reg key Q Hpre Hpost o. subst o.
    pose proof (remove_ephemeral_log rows (db s)) as L.
    pose proof (run_queries_log X (db s) filters) as L'. rewrite Q in L'. simpl in L'.
    destruct (remove_ephemeral rows (db s)) as [d' purge]. simpl in *.
    split; [|split; [reflexivity|]].
    - unfold handed_out. simpl.
      rewrite !frame_events_app, Hpre, Hpost, frame_events_publish.
      rewrite (frame_events_sql _ L), (frame_events_sql _ L').
      simpl. now rewrite !app_nil_r.
    - intros r Hr. apply in_or_app. right. apply in_or_app. right.
      apply in_or_app. right. apply in_or_app. left.
      apply in_map_iff. exists r. auto. }
  assert (T : forall (pre post log : list Effect) (st : Relay) (res : Result (list Event)),
             Forall is_sql log -> frame_events pre = [] -> frame_events post = [] ->
             res = Return [] \/ (exists e, res = Throw e) ->
             handed_out (mkOutcome st (pre ++ log ++ post) res) = []).
  { intros pre post log st res L Hpre Hpost Hres. unfold handed_out. simpl.
    rewrite !frame_events_app, Hpre, Hpost, (frame_events_sql _ L).
    destruct Hres as [->|[e ->]]; reflexivity. }
  pose proof (run_queries_log X (db s) filters) as L.
  destruct ex as [k|], ws as [c|]; cbn -[run_queries].
  - destruct (run_queries X (db s) filters) as [[fs log] [rows|e]] eqn:Q.
    + destruct (G [] [] fs log rows (subIds s) k eq_refl eq_refl eq_refl) as [H1 [H2 H3]].
      split; [exact H1|]. split; [exact H2|].
      intros c' key r _ Hk Hr. injection Hk as <-. exact (H3 r Hr).
    + split; [|reflexivity]. apply (T [] _ log); auto.
  - destruct (run_queries X (db s) filters) as [[fs log] [rows|e]] eqn:Q.
    + pose proof (remove_ephemeral_log rows (db s)) as L2.
      destruct (remove_ephemeral rows (db s)) as [d' purge]. simpl in *.
      split; [|split; [reflexivity | intros; discriminate]].
      unfold handed_out. simpl.
      rewrite frame_events_app, (frame_events_sql _ L), (frame_events_sql _ L2).
      reflexivity.
    + split; [|reflexivity]. apply (T [] [] log); eauto.
  - destruct filters as [|f0 filters'].
    + rewrite run_queries_nil. simpl. repeat split. intros c' key r _ _ [].
    + destruct (run_queries X (db s) (f0 :: filters')) as [[fs log] [rows|e]] eqn:Q.
      * destruct (G [Subscribe c (subId_of c reqId)]
                    [Publish (subId_of c reqId) (EOSE reqId)]
                    fs log rows (assign (subId_of c reqId) fs (subIds s))
                    (subId_of c reqId) eq_refl eq_refl eq_refl) as [H1 [H2 H3]].
        split; [exact H1|]. split; [exact H2|]. intros; discriminate.
      * split; [|reflexivity]. apply (T [Subscribe c (subId_of c reqId)] _ log); auto.
  - destruct (run_queries X (db s) filters) as [[fs log] [rows|e]] eqn:Q.
    + pose proof (remove_ephemeral_log rows (db s)) as L2.
      destruct (remove_ephemeral rows (db s)) as [d' purge]. simpl in *.
      split; [|split; [reflexivity | intros; discriminate]].
      unfold handed_out. simpl.
      rewrite frame_events_app, (frame_events_sql _ L), (frame_events_sql _ L2).
      reflexivity.
    + split; [|reflexivity]. apply (T [] [] log); eauto.
Qed.

Lemma handleRequest_handed_out : forall X ws reqId filters ex s,
  let o := _handleRequest X ws reqId filters ex s in
  (handed_out o = [] /\ db (relay o) = db s)
  \/ exists fs log rows,
      run_queries X (db s) filters = (fs, log, Return rows)
      /\ handed_out o = map row_event rows
      /\ db (relay o) = fst (remove_ephemeral rows (db s)).
Proof.
  intros X ws reqId filters ex s o. subst o.
  pose proof (handleRequest_outcome X ws reqId filters ex s) as H. simpl in H.
  destruct (existsb (fun f => negb (admitted f)) filters); [now left|].
  destruct (run_queries X (db s) filters) as [[fs log] [rows|e]]; [|now left].
  right. exists fs, log, rows. intuition auto.
Qed.

Lemma remove_ephemeral_incl : forall rows d,
  (forall t, In t (tags_index (fst (remove_ephemeral rows d))) -> In t (tags_index d))
  /\ (forall t, In t (events_fts (fst (remove_ephemeral rows d))) -> In t (events_fts d)).
Proof.
  intros rows d. unfold remove_ephemeral.
  destruct (map _ (filter _ rows)); simpl; [auto|].
  split; intros t H; apply filter_In in H; apply H.
Qed.

Lemma where_plain_mono : forall d d' f r,
  (forall t, In t (tags_index d') -> In t (tags_index d)) ->
  where_plain d' f r = true -> where_plain d f r = true.
Proof.
  intros d d' f r Hincl. unfold where_plain.
  rewrite !andb_true_iff. intros [[[[[H1 H2] H3] H4] H5] H6].
  repeat split; try assumption.
  rewrite forallb_forall in *. intros kv Hkv. specialize (H4 kv Hkv).
  unfold tag_clause in *. destruct (slRegex (fst kv)); [|reflexivity].
  apply existsb_exists in H4. destruct H4 as [t [Ht Hv]].
  apply existsb_exists. exists t. auto.
Qed.

Lemma search_clause_mono : forall X d d' f m',
  (forall t, In t (events_fts d') -> In t (events_fts d)) ->
  search_clause X d' f = Return m' ->
  exists m, search_clause X d f = Return m /\ forall r, m' r = true -> m r = true.
Proof.
  intros X d d' f m' Hincl. unfold search_clause.
  destruct (search f) as [[q|a]|].
  - destruct (Nat.eqb (List.length q) 2).
    + intros H. injection H as <-. eauto.
    + destruct (fts5_match X (sanitize q)) as [matches|]; [|discriminate].
      intros H. injection H as <-. eexists. split; [reflexivity|].
      intros r Hr. apply existsb_exists in Hr. destruct Hr as [t [Ht Hv]].
      apply existsb_exists. exists t. auto.
  - intros H. injection H as <-. eauto.
  - intros H. injection H as <-. eauto.
Qed.

Lemma limit_normalize : forall f, limit (normalize_search f) = limit f.
Proof.
  intros f. unfold normalize_search.
  destruct (search f) as [[q|[|q [|q' a]]]|]; reflexivity.
Qed.

Lemma run_queries_all_return : forall X d filters fs log rows f,
  run_queries X d filters = (fs, log, Return rows) -> In f filters ->
  exists rs, select_events X d (normalize_search f) = Return rs.
Proof.
  intros X d filters. induction filters as [|f0 rest IH]; intros fs log rows f H Hin;
    [contradiction|].
  rewrite run_queries_cons in H.
  destruct (select_events X d (normalize_search f0)) as [rs|e] eqn:S; [|discriminate].
  destruct (run_queries X d rest) as [[fs' log'] [more|e]] eqn:Q; [|discriminate].
  destruct Hin as [<-|Hin]; [eauto|]. eapply IH; eauto.
Qed.

Lemma NoDup_map_filter : forall A B (g : A -> B) (p : A -> bool) l,
  NoDup (map g l) -> NoDup (map g (filter p l)).
Proof.
  induction l as [|x l IH]; simpl; intros H; [constructor|].
  inversion H as [|? ? Hx Hl]; subst.
  destruct (p x); simpl; [|auto].
  constructor; [|auto]. intros Hin. apply Hx.
  apply in_map_iff in Hin. destruct Hin as [y [Hy Hin]].
  apply filter_In in Hin. apply in_map_iff. exists y. intuition auto.
Qed.

Lemma NoDup_firstn : forall A n (l : list A), NoDup l -> NoDup (firstn n l).
Proof.
  induction n as [|n IH]; intros [|x l] H; simpl; try constructor.
  - inversion H as [|? ? Hx Hl]; subst. intros Hin. apply Hx.
    now apply In_firstn in Hin.
  - inversion H; subst. auto.
Qed.

Lemma insert_desc_perm : forall r l, Permutation (insert_desc r l) (r :: l).
Proof.
  induction l as [|x l IH]; simpl; [apply Permutation_refl|].
  destruct (created_at x <=? created_at r); [apply Permutation_refl|].
  eapply perm_trans; [apply perm_skip, IH | apply perm_swap].
Qed.

Lemma order_by_perm : forall l, Permutation (order_by_created_at_desc l) l.
Proof.
  induction l as [|x l IH]; simpl; [constructor|].
  eapply perm_trans; [apply insert_desc_perm | now apply perm_skip].
Qed.

Lemma select_events_NoDup : forall X d f rows,
  NoDup (map (fun r : Row => id r) (events d)) ->
  select_events X d f = Return rows ->
  NoDup (map (fun r : Row => id r) rows).
Proof.
  intros X d f rows Hnd H. unfold select_events in H.
  destruct (prepare f); [discriminate|].
  destruct (search_clause X d f) as [matches|e]; [|discriminate].
  simpl in H. injection H as <-.
  assert (N1 : forall l, NoDup (map (fun r : Row => id r) l) ->
                         NoDup (map (fun r : Row => id r) (apply_limit (limit f) l))).
  { intros l Hl. unfold apply_limit. destruct (limit f) as [n|]; [|assumption].
    destruct (n =? 0); [assumption|]. destruct (n <? 0); [assumption|].
    rewrite <- firstn_map. now apply NoDup_firstn. }
  apply N1.
  pose proof (NoDup_map_filter _ _ (fun r : Row => id r)
                (fun r => where_plain d f r && matches r) (events d) Hnd) as N2.
  destruct (search_truthy f); [assumption|].
  eapply Permutation_NoDup; [|exact N2].
  apply Permutation_map, Permutation_sym, order_by_perm.
Qed.

(** C7, as stated, fails on both of its consequences.  A request with two
    filters that both match the ephemeral event hands it out twice, not
    once; and when the first query also matched an event that is not
    ephemeral, the second identical query returns that event, not zero
    rows. *)
Lemma ephemeral_handed_out_twice :
  let e := Sample.event "ee" "alice" 20000 1000 [] in
  let a := Sample.event "aa" "alice" 1063 1000 [] in
  let f := Sample.of_kinds [1063; 20000] in
  let s := relay (_handleEvent Sample.X None e Sample.start) in
  let twice := _handleRequest Sample.X (Some 2%N) "q" [f; f] None s in
  let s' := relay (_handleEvent Sample.X None e
                     (relay (_handleEvent Sample.X None a Sample.start))) in
  let o1 := _handleRequest Sample.X (Some 2%N) "q" [f] None s' in
  let o2 := _handleRequest Sample.X (Some 2%N) "q" [f] None (relay o1) in
  ephemeral (kind e) = true
  /\ map id (handed_out twice) = ["ee"; "ee"]
  /\ events (db (relay twice)) = []
  /\ map id (handed_out o1) = ["aa"; "ee"]
  /\ map id (handed_out o2) = ["aa"].
Proof. cbv zeta. repeat split. Qed.

(** C7 (amended).  An ephemeral event (kind in [20000, 30000)) that a
    historical query hands out is deleted from the store by that query.  So
    a second identical query does not return it; when no limit is in force
    and the first query returned ephemeral events only, the second returns
    zero rows; and a query of a single filter over a store with unique ids
    returned the event exactly once. *)
Theorem ephemeral_handed_out_once :
  forall (X : Collaborators) (ws : option N) (reqId : string)
         (filters : list Filter) (s : Relay) (e : Event),
    let o1 := _handleRequest X ws reqId filters None s in
    let o2 := _handleRequest X ws reqId filters None (relay o1) in
    In e (handed_out o1) ->
    ephemeral (kind e) = true ->
    exists_id (db (relay o1)) (id e) = false
    /\ (forall e', In e' (handed_out o2) -> id e' <> id e)
    /\ ((forall f, In f filters -> unlimited f) ->
        (forall e', In e' (handed_out o1) -> ephemeral (kind e') = true) ->
        handed_out o2 = [])
    /\ ((exists f, filters = [f]) ->
        NoDup (map (fun r : Row => id r) (events (db s))) ->
        count_occ string_dec (map id (handed_out o1)) (id e) = 1%nat).
Proof.
  intros X ws reqId filters s e o1 o2 Hin Heph. subst o1 o2.
  destruct (handleRequest_handed_out X ws reqId filters None s)
    as [[Hnil _] | [fs [log [rows [Q [Hout Hdb]]]]]].
  { rewrite Hnil in Hin. contradiction. }
  set (s1 := relay (_handleRequest X ws reqId filters None s)) in *.
  rewrite Hout in *.
  set (gone := map (fun r : Row => id r)
                   (filter (fun r : Row => ephemeral (kind r)) rows)).
  assert (Hev : events (db s1)
                = filter (fun r : Row => negb (existsb (String.eqb (id r)) gone))
                         (events (db s))).
  { rewrite Hdb. apply remove_ephemeral_events. }
  assert (Hgone : forall r : Row, In r rows -> ephemeral (kind r) = true ->
                                  forall r' : Row, In r' (events (db s1)) -> id r' <> id r).
  { intros r Hr He r' Hr' Hid. rewrite Hev in Hr'. apply filter_In in Hr'.
    destruct Hr' as [_ Hn]. apply negb_true_iff in Hn.
    assert (B : existsb (String.eqb (id r')) gone = true); [|congruence].
    apply existsb_eqb_string. rewrite Hid. unfold gone. apply in_map_iff.
    exists r. split; [reflexivity|]. apply filter_In. auto. }
  apply in_map_iff in Hin. destruct Hin as [r [<- Hr]].
  assert (Second : forall e', In e' (handed_out (_handleRequest X ws reqId filters None s1)) ->
             exists fs2 log2 rows2 (r2 : Row),
               run_queries X (db s1) filters = (fs2, log2, Return rows2)
               /\ In r2 rows2 /\ row_event r2 = e').
  { intros e' He'.
    destruct (handleRequest_handed_out X ws reqId filters None s1)
      as [[Hnil _] | [fs2 [log2 [rows2 [Q2 [Hout2 _]]]]]].
    - rewrite Hnil in He'. contradiction.
    - rewrite Hout2 in He'. apply in_map_iff in He'. destruct He' as [r2 [<- Hr2]].
      exists fs2, log2, rows2, r2. auto. }
  split; [|split; [|split]].
  - destruct (exists_id (db s1) (id r)) eqn:Ex; [|reflexivity].
    unfold exists_id in Ex. apply existsb_exists in Ex. destruct Ex as [r' [Hr' Hid]].
    apply String.eqb_eq in Hid. exfalso. exact (Hgone r Hr Heph r' Hr' Hid).
  - intros e' He'. destruct (Second e' He') as [fs2 [log2 [rows2 [r2 [Q2 [Hr2 <-]]]]]].
    apply (run_queries_In X _ _ _ _ _ r2 Q2) in Hr2.
    destruct Hr2 as [f [rs [_ [S Hin2]]]].
    apply (select_events_In X _ _ _ _ S) in Hin2.
    apply (Hgone r Hr Heph r2). apply Hin2.
  - intros Hunl Hall.
    destruct (handed_out (_handleRequest X ws reqId filters None s1)) as [|e' l] eqn:E;
      [reflexivity|].
    exfalso. destruct (Second e') as [fs2 [log2 [rows2 [r2 [Q2 [Hr2 He2]]]]]].
    { now left. }
    apply (run_queries_In X _ _ _ _ _ r2 Q2) in Hr2.
    destruct Hr2 as [f [rs2 [Hf [S2 Hin2]]]].
    apply (select_events_In X _ _ _ _ S2) in Hin2.
    destruct Hin2 as [Hev2 [Hw2 [m2 [Hm2 Hmr2]]]].
    destruct (remove_ephemeral_incl rows (db s)) as [It If]. rewrite <- Hdb in It, If.
    destruct (search_clause_mono X (db s) (db s1) _ m2 If Hm2) as [m [Hm Himp]].
    destruct (run_queries_all_return X _ _ _ _ _ f Q Hf) as [rs S].
    assert (Hr2 : In r2 rows).
    { apply (run_queries_In X _ _ _ _ _ r2 Q). exists f, rs. split; [assumption|].
      split; [assumption|].
      apply (select_events_all X (db s) (normalize_search f) rs m r2 S).
      - intros n Hn. rewrite limit_normalize in Hn. exact (Hunl f Hf n Hn).
      - assumption.
      - rewrite Hev in Hev2. now apply filter_In in Hev2.
      - exact (where_plain_mono _ _ _ _ It Hw2).
      - auto. }
    refine (Hgone r2 Hr2 _ r2 Hev2 eq_refl).
    apply Hall. apply in_map_iff. exists r2. auto.
  - intros [f ->] Hnd.
    rewrite run_queries_cons in Q.
    destruct (select_events X (db s) (normalize_search f)) as [rs|e0] eqn:S; [|discriminate].
    rewrite run_queries_nil in Q. simpl in Q. injection Q as _ _ <-.
    rewrite app_nil_r in *.
    pose proof (select_events_NoDup X _ _ _ Hnd S) as N.
    rewrite map_map.
    apply NoDup_count_occ'; [exact N|].
    apply in_map_iff. exists r. auto.
Qed.

Lemma ephemeral_handed_out_once_witness :
  let e := Sample.event "ee" "alice" 20000 1000 [] in
  let s := relay (_handleEvent Sample.X (Some 1%N) e Sample.start) in
  let o1 := _handleRequest Sample.X (Some 2%N) "q" [Sample.of_kinds [1063; 20000]] None s in
  let o2 := _handleRequest Sample.X (Some 2%N) "q" [Sample.of_kinds [1063; 20000]] None
                           (relay o1) in
  handed_out o1 = [base e]
  /\ ephemeral (kind e) = true
  /\ exists_id (db (relay o1)) "ee" = false
  /\ handed_out o2 = []
  /\ count_occ string_dec (map id (handed_out o1)) "ee" = 1%nat.
Proof.
  cbv zeta.
  split; [reflexivity|]. split; [reflexivity|].
  destruct (ephemeral_handed_out_once Sample.X (Some 2%N) "q"
              [Sample.of_kinds [1063; 20000]]
              (relay (_handleEvent Sample.X (Some 1%N)
                        (Sample.event "ee" "alice" 20000 1000 []) Sample.start))
              (base (Sample.event "ee" "alice" 20000 1000 [])))
    as [H1 [_ [H3 H4]]].
  - vm_compute. auto.
  - reflexivity.
  - split; [exact H1|]. split.
    + apply H3.
      * intros f [<-|[]] n Hn. discriminate.
      * intros e' He'. vm_compute in He'. destruct He' as [<-|[]]. reflexivity.
    + apply H4; [eexists; reflexivity|].
      vm_compute. repeat constructor. intros [].
Defined.

(* ================================================================== *)
(** ** Replaceable kinds (C3) *)

Lemma NoDup_map_eq : forall A B (g : A -> B) l x y,
  NoDup (map g l) -> In x l -> In y l -> g x = g y -> x = y.
Proof.
  induction l as [|a l IH]; simpl; intros x y H Hx Hy E; [contradiction|].
  inversion H as [|? ? Ha Hl]; subst.
  destruct Hx as [<-|Hx], Hy as [<-|Hy]; auto.
  - exfalso. apply Ha. rewrite E. now apply in_map.
  - exfalso. apply Ha. rewrite <- E. now apply in_map.
Qed.

Lemma filter_all : forall A (p : A -> bool) l,
  (forall x, In x l -> p x = true) -> filter p l = l.
Proof.
  induction l as [|a l IH]; simpl; intros H; [reflexivity|].
  rewrite (H a (or_introl eq_refl)). f_equal. apply IH. auto.
Qed.

Lemma find_filter : forall A (p : A -> bool) l,
  find p l = hd_error (filter p l).
Proof.
  induction l as [|a l IH]; simpl; [reflexivity|].
  destruct (p a); [reflexivity | assumption].
Qed.

Lemma replaceable_not_ephemeral : forall k, replaceable k = true -> ephemeral k = false.
Proof.
  intros k. unfold replaceable, ephemeral.
  rewrite !orb_true_iff, !andb_true_iff, andb_false_iff.
  rewrite !Z.eqb_eq, !Z.leb_le, !Z.ltb_lt, Z.leb_gt, Z.ltb_ge. lia.
Qed.

Lemma replaceable_not_parameterizable : forall k,
  replaceable k = true -> parameterizable k = false.
Proof.
  intros k. unfold replaceable, parameterizable.
  rewrite !orb_true_iff, !andb_true_iff, andb_false_iff.
  rewrite !Z.eqb_eq, !Z.leb_le, !Z.ltb_lt, Z.leb_gt, Z.ltb_ge. lia.
Qed.

Lemma store_ok_events : forall d d', events d' = events d -> store_ok d -> store_ok d'.
Proof.
  intros d d' E [H1 [H2 H3]]. unfold store_ok, rows_of in *. rewrite E. auto.
Qed.

Lemma rows_of_events : forall p k d d',
  events d' = events d -> rows_of p k d' = rows_of p k d.
Proof. intros p k d d' E. unfold rows_of. now rewrite E. Qed.

(** Deleting ephemeral rows touches no row of a replaceable kind. *)
Lemma purged_rows_of : forall d d' p k,
  store_ok d -> purged d d' -> replaceable k = true ->
  rows_of p k d' = rows_of p k d.
Proof.
  intros d d' p k [Hnd _] [gone [E G]] Hk. unfold rows_of. rewrite E, filter_comm.
  apply filter_all. intros r Hr. apply filter_In in Hr. destruct Hr as [Hr Hpk].
  apply andb_prop in Hpk. destruct Hpk as [_ Hkind]. apply Z.eqb_eq in Hkind.
  apply negb_true_iff. destruct (existsb (String.eqb (id r)) gone) eqn:B; [|reflexivity].
  apply existsb_eqb_string in B. destruct (G _ B) as [r' [Hr' [Hid He]]].
  assert (r' = r) by (apply (NoDup_map_eq _ _ (fun r : Row => id r) (events d)); auto).
  subst r'. rewrite Hkind, (replaceable_not_ephemeral k Hk) in He. discriminate.
Qed.

Lemma purged_store_ok : forall d d', store_ok d -> purged d d' -> store_ok d'.
Proof.
  intros d d' Ok P. pose proof Ok as [H1 [H2 H3]]. pose proof P as [gone [E G]].
  split; [|split].
  - rewrite E. now apply NoDup_map_filter.
  - intros r Hr. rewrite E in Hr. apply filter_In in Hr. apply H2, Hr.
  - intros p k Hk. rewrite (purged_rows_of d d' p k Ok P Hk). auto.
Qed.

Lemma rows_of_app : forall p k l1 l2 t1 t2 b,
  rows_of p k (mkDb (l1 ++ l2) t1 t2 b)
  = rows_of p k (mkDb l1 t1 t2 b) ++ rows_of p k (mkDb l2 t1 t2 b).
Proof. intros. unfold rows_of. simpl. apply filter_app. Qed.

(** A write that went through: the invariant holds again, and the rows of
    a replaceable key are the new row alone when the key is the new
    event's, and untouched otherwise. *)
Lemma write_event_store_ok : forall X d (p : Payload) d' log,
  extra p = [] ->
  store_ok d ->
  exists_id d (id p) = false ->
  id p <> ""%string ->
  write_event X d (_serialize p) (idToRemove d p) = (d', log, None) ->
  store_ok d'
  /\ forall p0 k0, replaceable k0 = true ->
       rows_of p0 k0 d'
       = if String.eqb (pubkey p) p0 && (kind p =? k0)
         then [mkRow (next_rowid (events d)) p]
         else rows_of p0 k0 d.
Proof.
  intros X d p d' log Hex Ok Ex Hid W. pose proof Ok as [Hnd [Hne Hone]].
  set (new := mkRow (next_rowid (events d)) p).
  apply (write_event_done X d p _ d' log Hex) in W. rename W into Hev.
  fold new in Hev.
  assert (Hfresh : forall r : Row, In r (events d) -> id r <> id p).
  { intros r Hr E. rewrite (exists_id_true d (id p) r Hr E) in Ex. discriminate. }
  assert (Hnd2 : NoDup (map (fun r : Row => id r) (events d ++ [new]))).
  { rewrite map_app. simpl. apply NoDup_app.
    - assumption.
    - repeat constructor. intros [].
    - intros x Hx [<-|[]]. apply in_map_iff in Hx. destruct Hx as [r [E Hr]].
      exact (Hfresh r Hr E). }
  assert (Rows : forall p0 k0, replaceable k0 = true ->
            filter (fun r : Row => String.eqb (pubkey r) p0 && (kind r =? k0)) (events d')
            = if String.eqb (pubkey p) p0 && (kind p =? k0)
              then [new] else rows_of p0 k0 d).
  { intros p0 k0 Hk0. rewrite Hev.
    destruct (String.eqb (pubkey p) p0 && (kind p =? k0)) eqn:Key.
    - apply andb_prop in Key. destruct Key as [Kp Kk].
      apply String.eqb_eq in Kp. apply Z.eqb_eq in Kk. subst p0 k0.
      assert (Hold : idToRemove d p
                     = match rows_of (pubkey p) (kind p) d with
                       | r :: _ => Some (id r)
                       | [] => None
                       end).
      { unfold idToRemove. rewrite Hk0, (replaceable_not_parameterizable _ Hk0). simpl.
        unfold holder. rewrite find_filter. fold (rows_of (pubkey p) (kind p) d).
        destruct (rows_of (pubkey p) (kind p) d) as [|r l] eqn:R; [reflexivity|].
        simpl. assert (Hr : In r (events d)).
        { assert (In r (rows_of (pubkey p) (kind p) d)) by (rewrite R; now left).
          unfold rows_of in H. now apply filter_In in H. }
        apply Hne in Hr. apply String.eqb_neq in Hr. now rewrite Hr. }
      rewrite Hold. specialize (Hone (pubkey p) (kind p) Hk0).
      destruct (rows_of (pubkey p) (kind p) d) as [|r [|r' l]] eqn:R.
      + rewrite filter_app. fold (rows_of (pubkey p) (kind p) d). rewrite R. simpl.
        now rewrite String.eqb_refl, Z.eqb_refl.
      + rewrite filter_comm, filter_app. fold (rows_of (pubkey p) (kind p) d).
        rewrite R. simpl. rewrite !String.eqb_refl, Z.eqb_refl. simpl.
        assert (Hr : In r (events d)).
        { assert (In r (rows_of (pubkey p) (kind p) d)) by (rewrite R; now left).
          unfold rows_of in H. now apply filter_In in H. }
        apply Hfresh in Hr.
        assert (E : String.eqb (id p) (id r) = false).
        { apply String.eqb_neq. congruence. }
        now rewrite E.
      + simpl in Hone. lia.
    - assert (Plain : filter (fun r : Row => String.eqb (pubkey r) p0 && (kind r =? k0))
                             (events d ++ [new]) = rows_of p0 k0 d).
      { rewrite filter_app. simpl. rewrite Key. apply app_nil_r. }
      destruct (idToRemove d p) as [i|] eqn:Old; [|exact Plain].
      rewrite filter_comm, Plain. apply filter_all.
      intros x Hx. apply negb_true_iff, String.eqb_neq. intros E.
      apply idToRemove_found in Old. destruct Old as [_ [r0 [Hr0 [Hi [Hp0 Hk]]]]].
      unfold rows_of in Hx. apply filter_In in Hx. destruct Hx as [Hx Hkey].
      assert (x = r0).
      { apply (NoDup_map_eq _ _ (fun r : Row => id r) (events d)); auto. congruence. }
      subst x. rewrite Hp0, Hk, Key in Hkey. discriminate. }
  split; [|exact Rows].
  split; [|split].
  - rewrite Hev. destruct (idToRemove d p); [now apply NoDup_map_filter | assumption].
  - intros r Hr. rewrite Hev in Hr.
    assert (Hin : In r (events d ++ [new])).
    { destruct (idToRemove d p); [now apply filter_In in Hr | assumption]. }
    apply in_app_or in Hin. destruct Hin as [Hin|[<-|[]]]; [auto | exact Hid].
  - intros p0 k0 Hk0. unfold rows_of. rewrite (Rows p0 k0 Hk0).
    destruct (String.eqb (pubkey p) p0 && (kind p =? k0)); [simpl; lia | auto].
Qed.

Section Replacement.

Variable X : Collaborators.

(** nostr-tools accepts an event only when its id is the digest of its
    content, 64 hexadecimal characters. *)
Hypothesis verified_id : forall e, verifyEvent X e = true -> id e <> ""%string.

Variable p : string.
Variable k : Z.
Hypothesis k_replaceable : replaceable k = true.

Lemma validate_verified : forall e,
  _validateEvent X e = Return true -> verifyEvent X e = true.
Proof.
  intros e. unfold _validateEvent.
  destruct (verifyEvent X e); [reflexivity | discriminate].
Qed.

Lemma handleEvent_store : forall ws (payload : Payload) s,
  extra payload = [] ->
  store_ok (db s) ->
  let o := _handleEvent X ws payload s in
  store_ok (db (relay o))
  /\ map row_event (rows_of p k (db (relay o)))
     = if written o && (String.eqb (pubkey payload) p && (kind payload =? k))
       then [base payload]
       else map row_event (rows_of p k (db s)).
Proof.
  intros ws payload s Hex Ok o. subst o.
  destruct (handleEvent_handled X ws payload s)
    as [o Hs Hw _ | o d' log e V Ex W Hr Hres _ | o d' log V Ex W Hres Hw Hrel].
  - rewrite Hs, Hw. auto.
  - destruct (write_event_thrown _ _ _ _ _ _ _ W) as [E _].
    unfold written. rewrite Hres, Hr. simpl. split.
    + now apply (store_ok_events (db s)).
    + now rewrite (rows_of_events p k (db s) d' E).
  - destruct (write_event_store_ok X (db s) payload d' log Hex Ok Ex
                (verified_id _ (validate_verified _ V)) W) as [Ok' Rows].
    rewrite Hw. simpl. specialize (Rows p k k_replaceable).
    assert (Done : map row_event (rows_of p k d')
                   = if String.eqb (pubkey payload) p && (kind payload =? k)
                     then [base payload] else map row_event (rows_of p k (db s))).
    { rewrite Rows. now destruct (String.eqb (pubkey payload) p && (kind payload =? k)). }
    destruct ws as [c|].
    + destruct Hrel as [Hrel _]. rewrite Hrel.
      pose proof (fanout_purged X c (id payload) (map fst (subIds s))
                    (mkRelay d' (subIds s))) as P. simpl in P.
      split; [exact (purged_store_ok _ _ Ok' P)|].
      now rewrite (purged_rows_of _ _ p k Ok' P k_replaceable).
    + destruct Hrel as [Hrel _]. rewrite Hrel. auto.
Qed.

Lemma handleRequest_store : forall ws reqId filters ex s,
  store_ok (db s) ->
  let o := _handleRequest X ws reqId filters ex s in
  store_ok (db (relay o)) /\ rows_of p k (db (relay o)) = rows_of p k (db s).
Proof.
  intros ws reqId filters ex s Ok o. subst o.
  pose proof (handleRequest_purged X ws reqId filters ex s) as P.
  split; [exact (purged_store_ok _ _ Ok P)|].
  exact (purged_rows_of _ _ p k Ok P k_replaceable).
Qed.

Lemma step_store : forall sv i,
  seven_keys i ->
  store_ok (db (state sv)) ->
  let sv' := fst (step X sv i) in
  store_ok (db (state sv'))
  /\ map row_event (rows_of p k (db (state sv')))
     = match stored_by X sv i with
       | Some e => if String.eqb (pubkey e) p && (kind e =? k)
                   then [e] else map row_event (rows_of p k (db (state sv)))
       | None => map row_event (rows_of p k (db (state sv)))
       end.
Proof.
  intros sv i Hi Ok sv'. subst sv'.
  destruct i as [c|c m|c|payload|filters]; simpl.
  - auto.
  - destruct (is_live c sv) eqn:L; simpl; [|destruct m; auto].
    destruct m as [reqId filters|payload|reqId|type]; simpl; auto.
    + destruct (handleRequest_store (Some c) reqId filters None (state sv) Ok) as [H1 H2].
      split; [assumption | now rewrite H2].
    + destruct (handleEvent_store (Some c) payload (state sv) Hi Ok) as [H1 H2].
      split; [assumption|]. rewrite H2.
      destruct (written (_handleEvent X (Some c) payload (state sv))); reflexivity.
  - destruct (is_live c sv); simpl; auto.
  - destruct (handleEvent_store None payload (state sv) Hi Ok) as [H1 H2].
    split; [assumption|]. rewrite H2.
    destruct (written (_handleEvent X None payload (state sv))); reflexivity.
  - destruct (handleRequest_store None "" filters None (state sv) Ok) as [H1 H2].
    split; [assumption | now rewrite H2].
Qed.

Lemma run_store : forall inputs sv acc,
  Forall seven_keys inputs ->
  store_ok (db (state sv)) ->
  (forall e, acc = Some e -> map row_event (rows_of p k (db (state sv))) = [e]) ->
  store_ok (db (state (run X sv inputs)))
  /\ forall e, last_stored X p k sv inputs acc = Some e ->
               map row_event (rows_of p k (db (state (run X sv inputs)))) = [e].
Proof.
  induction inputs as [|i rest IH]; intros sv acc Hin Ok Hacc; [auto|].
  inversion Hin as [|? ? Hi Hrest]; subst.
  destruct (step_store sv i Hi Ok) as [Ok' Rows]. simpl.
  apply IH; [assumption | assumption |].
  intros e He. rewrite Rows.
  destruct (stored_by X sv i) as [e'|]; [|auto].
  destruct (String.eqb (pubkey e') p && (kind e' =? k)); [congruence | auto].
Qed.

End Replacement.

(** C3, as stated, fails: the event kept is the last one written, not the
    newest by [created_at], and on a tie not the larger id. *)
Lemma older_submission_replaces_newer :
  let newer := Sample.event "bb" "alice" 10000 2000 [] in
  let older := Sample.event "aa" "alice" 10000 1000 [] in
  let tied := Sample.event "ab" "alice" 10000 1000 [] in
  let sv := mkServer [1%N] Sample.start in
  created_at older < created_at newer
  /\ map row_event
       (rows_of "alice" 10000
          (db (state (run Sample.X sv [WsMessage 1%N (MsgEvent newer);
                                       WsMessage 1%N (MsgEvent older)]))))
     = [base older]
  /\ map row_event
       (rows_of "alice" 10000
          (db (state (run Sample.X sv [WsMessage 1%N (MsgEvent tied);
                                       WsMessage 1%N (MsgEvent older)]))))
     = [base older].
Proof. cbv zeta. repeat split. Qed.

(** C3 (amended).  For every publisher [p] and replaceable kind [k] (0, 3
    or 10000 <= k < 20000), starting from a store with unique non-empty ids
    and at most one row per replaceable key, after any sequence of inputs
    whose submitted events carry the seven event keys and no other, at most
    one event with (pubkey = p, kind = k) is retained, and once a submission
    with that key has been written the retained one is the last such
    submission written, whatever its [created_at] and id. *)
Theorem replaceable_keeps_last_written :
  forall (X : Collaborators) (p : string) (k : Z) (sv : Server)
         (inputs : list Input),
    (forall e, verifyEvent X e = true -> id e <> ""%string) ->
    replaceable k = true ->
    Forall seven_keys inputs ->
    store_ok (db (state sv)) ->
    (List.length (rows_of p k (db (state (run X sv inputs)))) <= 1)%nat
    /\ forall e, last_stored X p k sv inputs None = Some e ->
                 map row_event (rows_of p k (db (state (run X sv inputs)))) = [e].
Proof.
  intros X p k sv inputs Hid Hk Hin Ok.
  destruct (run_store X Hid p k Hk inputs sv None Hin Ok) as [[_ [_ Hone]] Hlast].
  { discriminate. }
  split; [exact (Hone p k Hk) | exact Hlast].
Qed.

Lemma replaceable_keeps_last_written_witness :
  let newer := Sample.event "bb" "alice" 10000 2000 [] in
  let older := Sample.event "aa" "alice" 10000 1000 [] in
  let sv := mkServer [1%N] Sample.start in
  let inputs := [WsMessage 1%N (MsgEvent newer); WsMessage 1%N (MsgEvent older)] in
  store_ok (db (state sv))
  /\ last_stored Sample.X "alice" 10000 sv inputs None = Some (base older)
  /\ map row_event (rows_of "alice" 10000 (db (state (run Sample.X sv inputs))))
     = [base older].
Proof.
  cbv zeta.
  assert (Ok : store_ok (db (state (mkServer [1%N] Sample.start)))).
  { split; [constructor|]. split; [intros r []|]. intros p k _. simpl. lia. }
  split; [exact Ok|]. split; [reflexivity|].
  refine (proj2 (replaceable_keeps_last_written Sample.X "alice" 10000
                   (mkServer [1%N] Sample.start)
                   [WsMessage 1%N (MsgEvent (Sample.event "bb" "alice" 10000 2000 []));
                    WsMessage 1%N (MsgEvent (Sample.event "aa" "alice" 10000 1000 []))]
                   _ eq_refl _ Ok) _ eq_refl).
  - intros e He E. unfold Sample.X in He. simpl in He. rewrite E in He. discriminate.
  - repeat constructor.
Defined.

(* ================================================================== *)
(** ** The fan-out against the historical query (C1) *)

Lemma gate_set_ids : forall v fs,
  existsb (fun f => negb (admitted f)) (map (fun f => set_ids f v) fs)
  = existsb (fun f => negb (admitted f)) fs.
Proof. induction fs as [|f fs IH]; simpl; [reflexivity | now rewrite IH]. Qed.

Lemma normalize_set_ids : forall f v,
  normalize_search (set_ids f v) = set_ids (normalize_search f) v.
Proof.
  intros f v. unfold normalize_search. simpl.
  destruct (search f) as [[q|[|q [|q' a]]]|]; reflexivity.
Qed.

Lemma normalize_fields : forall f,
  ids (normalize_search f) = ids f /\ kinds (normalize_search f) = kinds f.
Proof.
  intros f. unfold normalize_search.
  destruct (search f) as [[q|[|q [|q' a]]]|]; split; reflexivity.
Qed.

Lemma wheres_count_kinds : forall f, kinds f <> None -> Nat.eqb (wheres_count f) 0 = false.
Proof.
  intros f H. apply Nat.eqb_neq. unfold wheres_count.
  destruct (kinds f); [simpl; lia | contradiction].
Qed.

(** Constraining the ids does not change what the statement throws when it
    is prepared. *)
Lemma prepare_set_ids : forall g i,
  kinds g <> None -> prepare (set_ids g [i]) = prepare g.
Proof.
  intros g i Hk. unfold prepare.
  rewrite (wheres_count_kinds g Hk), (wheres_count_kinds (set_ids g [i]) Hk).
  reflexivity.
Qed.

Lemma where_plain_set_ids : forall d g i r,
  ids g = None ->
  where_plain d (set_ids g [i]) r = String.eqb (id r) i && where_plain d g r.
Proof.
  intros d g i r H. unfold where_plain. rewrite H. simpl.
  now rewrite orb_false_r, <- !andb_assoc.
Qed.

(** One filter, constrained to an id, selects the rows with that id among
    those the filter selects, and throws when the filter throws. *)
Lemma select_constrained : forall X d g i,
  ids g = None -> unlimited g -> kinds g <> None ->
  match select_events X d g with
  | Throw e => select_events X d (set_ids g [i]) = Throw e
  | Return rows =>
      exists rows', select_events X d (set_ids g [i]) = Return rows'
                    /\ forall r, In r rows' <-> In r rows /\ id r = i
  end.
Proof.
  intros X d g i Hids Hunl Hk. unfold select_events.
  rewrite (prepare_set_ids g i Hk). destruct (prepare g); [reflexivity|].
  change (search_clause X d (set_ids g [i])) with (search_clause X d g).
  destruct (search_clause X d g) as [m|e]; [|reflexivity].
  simpl. change (search_truthy (set_ids g [i])) with (search_truthy g).
  change (limit (set_ids g [i])) with (limit g).
  rewrite !(fun l => apply_limit_unlimited g l Hunl).
  eexists. split; [reflexivity|]. intros r.
  assert (F : In r (filter (fun r => where_plain d (set_ids g [i]) r && m r) (events d))
              <-> In r (filter (fun r => where_plain d g r && m r) (events d)) /\ id r = i).
  { rewrite !filter_In, where_plain_set_ids by assumption.
    rewrite !andb_true_iff, String.eqb_eq. tauto. }
  destruct (search_truthy g); [exact F|].
  now rewrite !In_order_by.
Qed.

Lemma run_queries_constrained : forall X d i fs,
  (forall g, In g fs -> ids g = None /\ unlimited g /\ admitted g = true) ->
  match run_queries X d fs with
  | (_, _, Throw e) =>
      exists fs' log',
        run_queries X d (map (fun g => set_ids g [i]) fs) = (fs', log', Throw e)
  | (_, _, Return rows) =>
      exists fs' log' rows',
        run_queries X d (map (fun g => set_ids g [i]) fs) = (fs', log', Return rows')
        /\ forall r, In r rows' <-> In r rows /\ id r = i
  end.
Proof.
  intros X d i. induction fs as [|g fs IH]; intros H.
  - rewrite run_queries_nil. exists [], [], []. split; [reflexivity|]. simpl. tauto.
  - destruct (H g (or_introl eq_refl)) as [Hids [Hunl Hadm]].
    assert (Hk : kinds (normalize_search g) <> None).
    { rewrite (proj2 (normalize_fields g)). unfold admitted in Hadm.
      destruct (kinds g); [discriminate | discriminate]. }
    assert (Hids' : ids (normalize_search g) = None).
    { now rewrite (proj1 (normalize_fields g)). }
    assert (Hunl' : unlimited (normalize_search g)).
    { intros n Hn. rewrite limit_normalize in Hn. auto. }
    pose proof (select_constrained X d (normalize_search g) i Hids' Hunl' Hk) as S.
    simpl map. rewrite !run_queries_cons, normalize_set_ids.
    destruct (select_events X d (normalize_search g)) as [rows|e].
    + destruct S as [rows' [-> Hrows]].
      specialize (IH (fun g' Hg' => H g' (or_intror Hg'))).
      destruct (run_queries X d fs) as [[fs0 log0] [more|e]].
      * destruct IH as [fs' [log' [more' [-> Hmore]]]]. simpl.
        eexists _, _, _. split; [reflexivity|]. intros r.
        rewrite !in_app_iff, Hrows, Hmore. tauto.
      * destruct IH as [fs' [log' ->]]. simpl. eauto.
    + rewrite S. eauto.
Qed.

Lemma lookup_middle : forall k v before after,
  NoDup (map fst (before ++ (k, v) :: after)) ->
  lookup k (before ++ (k, v) :: after) = Some v.
Proof.
  induction before as [|[k' v'] before IH]; intros after H; simpl.
  - now rewrite String.eqb_refl.
  - simpl in H. inversion H as [|? ? Hk' Hrest]; subst.
    destruct (String.eqb k' k) eqn:E; [|auto].
    apply String.eqb_eq in E. subst k'. exfalso. apply Hk'.
    rewrite map_app. apply in_or_app. right. now left.
Qed.

Lemma fanout_app : forall X c i l1 l2 s,
  (forall k, In k l1 -> In k (map fst (subIds s))) ->
  let o1 := fanout X c i l1 s in
  let o2 := fanout X c i l2 (relay o1) in
  fanout X c i (l1 ++ l2) s = mkOutcome (relay o2) (effects o1 ++ effects o2) (result o2).
Proof.
  intros X c i l1 l2. induction l1 as [|k l1 IH]; intros s H; simpl.
  - now destruct (fanout X c i l2 s).
  - destruct (lookup_In k (subIds s) (H k (or_introl eq_refl))) as [v ->]. simpl.
    rewrite IH.
    + simpl. now rewrite app_assoc.
    + intros k' Hk'. rewrite handleRequest_existing_subIds. apply H. now right.
Qed.

Lemma gate_passed : forall fs f,
  existsb (fun f => negb (admitted f)) fs = false -> In f fs -> admitted f = true.
Proof.
  intros fs f H Hin. destruct (admitted f) eqn:A; [reflexivity|].
  assert (B : existsb (fun f => negb (admitted f)) fs = true); [|congruence].
  apply existsb_exists. exists f. now rewrite A.
Qed.

(** C1, as stated, fails: the fan-out overwrites the [ids] of a stored
    filter, so a subscription to the id "aa" is sent the new event "bb",
    which a fresh REQ with the same filter does not return. *)
Lemma fanout_ignores_stored_ids :
  let f := mkFilter (Some ["aa"]) None (Some [1063]) [] None None None None in
  let e := Sample.event "bb" "alice" 1063 1000 [] in
  let s := relay (_handleRequest Sample.X (Some 1%N) "s1" [f] None Sample.start) in
  let o := _handleEvent Sample.X (Some 2%N) e s in
  subIds s = [("1-s1", [f])]
  /\ In (Send 2%N (OK "bb" true NoReason)) (effects o)
  /\ In (Publish "1-s1" (EVENT "s1" e)) (effects o)
  /\ handed_out (_handleRequest Sample.X (Some 3%N) "s1" [f] None (relay o)) = [].
Proof.
  cbv zeta. split; [reflexivity|]. split; [|split].
  - vm_compute. auto 10.
  - vm_compute. auto 10.
  - reflexivity.
Qed.

(** A limit is not in force for the fan-out either: the subscription is
    sent an old event that its historical query, limited to the newest row,
    leaves out. *)
Lemma fanout_ignores_limit :
  let f := mkFilter None None (Some [1063]) [] None None None (Some 1) in
  let newest := Sample.event "aa" "alice" 1063 2000 [] in
  let e := Sample.event "bb" "alice" 1063 1000 [] in
  let s0 := relay (_handleEvent Sample.X (Some 2%N) newest Sample.start) in
  let s := relay (_handleRequest Sample.X (Some 1%N) "s1" [f] None s0) in
  let o := _handleEvent Sample.X (Some 2%N) e s in
  In (Publish "1-s1" (EVENT "s1" e)) (effects o)
  /\ handed_out (_handleRequest Sample.X (Some 3%N) "s1" [f] None (relay o))
     = [base newest].
Proof.
  cbv zeta. split; [|reflexivity]. vm_compute. auto 10.
Qed.

(** An event written through the REST bridge is not fanned out at all. *)
Lemma rest_write_is_not_fanned_out :
  let f := Sample.of_kinds [1063] in
  let e := Sample.event "bb" "alice" 1063 1000 [] in
  let s := relay (_handleRequest Sample.X (Some 1%N) "s1" [f] None Sample.start) in
  let o := _handleEvent Sample.X None e s in
  written o = true
  /\ frame_events (effects o) = []
  /\ handed_out (_handleRequest Sample.X (Some 3%N) "s1" [f] None (relay o)) = [base e].
Proof. cbv zeta. repeat split. Qed.

(** C1 (amended).  When an event is accepted and written over a websocket,
    the fan-out visits the registry in key order and, for each stored filter
    set, re-runs the request handler on that set with each filter's [ids]
    replaced by the new id and all other fields kept; every event this
    publishes to the subscription's topic has the new id.  If no filter of
    the set carries [ids] or a limit in force, the subscription is sent an
    EVENT frame for the new id if and only if a fresh REQ with the stored
    filter set, run on the store as the loop finds it at that subscription,
    would return an event with that id. *)
Theorem fanout_reruns_request_with_id :
  forall (X : Collaborators) (c : N) (payload : Payload) (s : Relay)
         (before after : list (string * list Filter)) (subId : string)
         (f : list Filter),
    In (Send c (OK (id payload) true NoReason))
       (effects (_handleEvent X (Some c) payload s)) ->
    NoDup (map fst (subIds s)) ->
    subIds s = before ++ (subId, f) :: after ->
    exists d' log,
      write_event X (db s) (_serialize payload) (idToRemove (db s) payload)
      = (d', log, None)
      /\ let reached := relay (fanout X c (id payload) (map fst before)
                                      (mkRelay d' (subIds s))) in
         let rerun := _handleRequest X (Some c) (reqId_of subId)
                        (map (fun f0 => set_ids f0 [id payload]) f)
                        (Some subId) reached in
         (exists pre post,
             effects (_handleEvent X (Some c) payload s)
             = pre ++ effects rerun ++ post)
         /\ (forall ev, In ev (handed_out rerun) ->
                        id ev = id payload
                        /\ In (Publish subId (EVENT (reqId_of subId) ev)) (effects rerun))
         /\ ((forall f0, In f0 f -> ids f0 = None /\ unlimited f0) ->
             forall c' reqId',
               (exists ev, In ev (handed_out rerun) /\ id ev = id payload)
               <-> (exists ev,
                       In ev (handed_out (_handleRequest X (Some c') reqId' f None reached))
                       /\ id ev = id payload)).
Proof.
  intros X c payload s before after subId f Hok Hnd Hsub.
  destruct (acknowledged_written X c payload s Hok) as [d' [log [V [Ex [W _]]]]].
  exists d', log. split; [exact W|]. cbv zeta.
  set (s0 := mkRelay d' (subIds s)).
  set (reached := relay (fanout X c (id payload) (map fst before) s0)).
  set (updated := map (fun f0 => set_ids f0 [id payload]) f).
  set (rerun := _handleRequest X (Some c) (reqId_of subId) updated (Some subId) reached).
  assert (Hreg : subIds reached = before ++ (subId, f) :: after).
  { unfold reached. rewrite fanout_subIds. exact Hsub. }
  split; [|split].
  - rewrite (handleEvent_written_eq X (Some c) payload s d' log V Ex W). cbv zeta.
    fold s0. rewrite Hsub, map_app. simpl map.
    rewrite fanout_app.
    2:{ intros k Hk. unfold s0. simpl. rewrite Hsub, map_app.
        apply in_or_app. now left. }
    fold reached. rewrite fanout_cons, Hreg.
    rewrite (lookup_middle subId f before after) by (rewrite <- Hsub; exact Hnd).
    cbv zeta. fold updated. fold rerun. clearbody rerun. cbn [effects].
    exists ((Sql (SelectExists (id payload)) :: lookup_log (db s) payload ++ log)
            ++ [Send c (OK (id payload) true NoReason)]
            ++ effects (fanout X c (id payload) (map fst before) s0)),
           (effects (fanout X c (id payload) (map fst after) (relay rerun))).
    now rewrite <- !app_assoc.
  - intros ev Hev.
    pose proof (handleRequest_outcome X (Some c) (reqId_of subId) updated
                  (Some subId) reached) as O. fold rerun in O. cbv zeta in O.
    destruct (existsb (fun f => negb (admitted f)) updated).
    { destruct O as [O _]. rewrite O in Hev. contradiction. }
    destruct (run_queries X (db reached) updated) as [[fs lg] [rows|e]] eqn:Q.
    2:{ destruct O as [O _]. rewrite O in Hev. contradiction. }
    destruct O as [O1 [_ O3]]. rewrite O1 in Hev.
    apply in_map_iff in Hev. destruct Hev as [r [<- Hr]].
    split; [|exact (O3 c subId r eq_refl eq_refl Hr)].
    apply (run_queries_In X _ _ _ _ _ r Q) in Hr.
    destruct Hr as [g [rs [Hg [S Hin]]]].
    apply in_map_iff in Hg. destruct Hg as [f0 [<- Hf0]].
    apply (select_events_In X _ _ _ _ S) in Hin. destruct Hin as [_ [Hw _]].
    rewrite normalize_set_ids in Hw. unfold where_plain in Hw. simpl in Hw.
    rewrite orb_false_r in Hw. rewrite !andb_true_iff in Hw.
    destruct Hw as [[[[[Hw _] _] _] _] _]. now apply String.eqb_eq in Hw.
  - intros Hf c' reqId'.
    pose proof (handleRequest_outcome X (Some c) (reqId_of subId) updated
                  (Some subId) reached) as O. fold rerun in O. cbv zeta in O.
    pose proof (handleRequest_outcome X (Some c') reqId' f None reached) as O'.
    cbv zeta in O'. unfold updated in O. rewrite gate_set_ids in O. fold updated in O.
    destruct (existsb (fun f => negb (admitted f)) f) eqn:Gate.
    { destruct O as [O _], O' as [O' _]. rewrite O, O'.
      split; intros [ev [[] _]]. }
    pose proof (run_queries_constrained X (db reached) (id payload) f) as R.
    fold updated in R.
    destruct (run_queries X (db reached) f) as [[fs lg] [rows|e]].
    + destruct R as [fs' [lg' [rows' [R Hrows]]]].
      { intros g Hg. destruct (Hf g Hg). split; [assumption|]. split; [assumption|].
        exact (gate_passed f g Gate Hg). }
      rewrite R in O. destruct O as [O _], O' as [O' _]. rewrite O, O'.
      split; intros [ev [Hev Hid]]; apply in_map_iff in Hev;
        destruct Hev as [r [<- Hr]]; exists (row_event r);
        (split; [apply in_map; apply Hrows in Hr || apply Hrows; tauto | exact Hid]).
    + destruct R as [fs' [lg' R]].
      { intros g Hg. destruct (Hf g Hg). split; [assumption|]. split; [assumption|].
        exact (gate_passed f g Gate Hg). }
      rewrite R in O. destruct O as [O _], O' as [O' _]. rewrite O, O'.
      split; intros [ev [[] _]].
Qed.

Lemma fanout_reruns_request_with_id_witness :
  let f := Sample.of_kinds [1063] in
  let e := Sample.event "bb" "alice" 1063 1000 [] in
  let s := relay (_handleRequest Sample.X (Some 1%N) "s1" [f] None Sample.start) in
  In (Send 2%N (OK "bb" true NoReason)) (effects (_handleEvent Sample.X (Some 2%N) e s))
  /\ NoDup (map fst (subIds s))
  /\ subIds s = [] ++ ("1-s1", [f]) :: []
  /\ exists d' log,
      write_event Sample.X (db s) (_serialize e) (idToRemove (db s) e) = (d', log, None).
Proof.
  cbv zeta.
  assert (H1 : In (Send 2%N (OK "bb" true NoReason))
                  (effects (_handleEvent Sample.X (Some 2%N)
                              (Sample.event "bb" "alice" 1063 1000 [])
                              (relay (_handleRequest Sample.X (Some 1%N) "s1"
                                        [Sample.of_kinds [1063]] None Sample.start))))).
  { vm_compute. auto 10. }
  assert (H2 : NoDup (map fst (subIds (relay (_handleRequest Sample.X (Some 1%N) "s1"
                                        [Sample.of_kinds [1063]] None Sample.start))))).
  { vm_compute. repeat constructor. intros []. }
  split; [exact H1|]. split; [exact H2|]. split; [reflexivity|].
  destruct (fanout_reruns_request_with_id Sample.X 2%N
              (Sample.event "bb" "alice" 1063 1000 [])
              (relay (_handleRequest Sample.X (Some 1%N) "s1"
                        [Sample.of_kinds [1063]] None Sample.start))
              [] [] "1-s1" [Sample.of_kinds [1063]] H1 H2 eq_refl)
    as [d' [log [W _]]].
  exists d', log. exact W.
Defined.

(* ================================================================== *)
(** ** Subscription keys *)

Lemma reqId_of_dashless : forall p rest,
  dashless p -> reqId_of (p ++ "-" ++ rest)%string = rest.
Proof.
  induction p as [|a p IH]; intros rest H; [reflexivity|].
  destruct H as [Ha Hp]. simpl.
  destruct (Ascii.eqb a "-") eqn:E.
  - apply Ascii.eqb_eq in E. contradiction.
  - apply IH. exact Hp.
Qed.

(** X1.  The request id that the fan-out reads back out of a registry key
    is the one the key was made from, dashes in it included. *)
Theorem reqId_of_subId_of : forall (c : N) (reqId : string),
  reqId_of (subId_of c reqId) = reqId.
Proof.
  intros c reqId. unfold subId_of. apply reqId_of_dashless, dashless_decimal.
Qed.

Lemma dashless_split : forall p q r r',
  dashless p -> dashless q ->
  (p ++ "-" ++ r)%string = (q ++ "-" ++ r')%string -> p = q /\ r = r'.
Proof.
  induction p as [|a p IH]; intros q r r' Hp Hq E.
  - destruct q as [|b q]; simpl in *.
    + injection E as E. auto.
    + injection E as E1 E2. destruct Hq as [Hb _]. congruence.
  - destruct Hp as [Ha Hp]. destruct q as [|b q]; simpl in *.
    + injection E as E1 E2. congruence.
    + injection E as E1 E2. destruct Hq as [_ Hq].
      destruct (IH q r r' Hp Hq E2) as [-> ->]. subst. auto.
Qed.

Lemma decimal_inj : forall c c', decimal c = decimal c' -> c = c'.
Proof.
  intros c c' H. unfold decimal in H.
  assert (NN : forall n, N.to_uint n <> Nil).
  { intros [|q]; simpl; [discriminate | apply DecimalPos.Unsigned.to_uint_nonnil]. }
  apply DecimalN.Unsigned.to_uint_inj.
  pose proof (NilZero.usu (N.to_uint c) (NN c)) as U.
  pose proof (NilZero.usu (N.to_uint c') (NN c')) as U'.
  rewrite H in U. congruence.
Qed.

(** X2.  Two registry keys are equal only for the same connection id and
    the same request id: no subscription is stored under another's key. *)
Theorem subId_of_inj : forall (c c' : N) (reqId reqId' : string),
  subId_of c reqId = subId_of c' reqId' -> c = c' /\ reqId = reqId'.
Proof.
  intros c c' r r' H. unfold subId_of in H.
  apply dashless_split in H; try apply dashless_decimal.
  destruct H as [H ->]. split; [now apply decimal_inj | reflexivity].
Qed.

Lemma subId_of_inj_witness :
  subId_of 12 "s-1" = "12-s-1" /\ 12%N = 12%N /\ "s-1" = "s-1".
Proof.
  split; [reflexivity|]. apply (subId_of_inj 12 12 "s-1" "s-1"). reflexivity.
Defined.

(* ================================================================== *)
(** ** More on the sanitizer *)

(** X3.  The sanitized search string has the length of the original, holds
    only letters, digits and white space, and sanitizing it again changes
    nothing. *)
Theorem sanitize_idempotent : forall s : jsstring,
  List.length (sanitize s) = List.length s
  /\ Forall (fun c => is_alnum c || is_space c = true) (sanitize s)
  /\ sanitize (sanitize s) = sanitize s.
Proof.
  intros s. split; [apply length_map|].
  assert (K : forall c, is_alnum (if search_regex_matches c then 32%N else c)
                        || is_space (if search_regex_matches c then 32%N else c) = true).
  { intros c. rewrite regex_matches_iff_not_kept.
    destruct (is_alnum c || is_space c) eqn:E; [exact E | reflexivity]. }
  split.
  - unfold sanitize. apply Forall_forall. intros x Hx.
    apply in_map_iff in Hx. destruct Hx as [c [<- _]]. apply K.
  - unfold sanitize. rewrite map_map. apply map_ext. intros c.
    rewrite (regex_matches_iff_not_kept (if search_regex_matches c then 32%N else c)).
    now rewrite K.
Qed.

(* ================================================================== *)
(** ** The blob route *)

Lemma hex_prefix_spec : forall n s rest,
  hex_prefix n s = Some rest ->
  exists h, s = (h ++ rest)%string /\ String.length h = n
            /\ Forall (fun c => is_hex c = true) (list_ascii_of_string h)
            /\ String.substring 0 n s = h.
Proof.
  induction n as [|n IH]; intros s rest H; simpl in H.
  - injection H as <-. exists ""%string. repeat split; [constructor|].
    now destruct s.
  - destruct s as [|c s]; [discriminate|].
    destruct (is_hex c) eqn:Hc; [|discriminate].
    destruct (IH s rest H) as [h [-> [Hl [Hh Hs]]]].
    exists (String c h). simpl. repeat split.
    + now rewrite Hl.
    + now constructor.
    + now rewrite Hs.
Qed.

(** X4.  A pathname that the blob route accepts is a slash, 64 lower-case
    hexadecimal digits and then nothing or a dot-extension; the hash handed
    to the file lookup is exactly those 64 digits, whatever the extension. *)
Theorem blob_route_hash : forall pathname : string,
  blob_route pathname = true ->
  exists h ext,
    pathname = ("/" ++ h ++ ext)%string
    /\ String.length h = 64%nat
    /\ Forall (fun c => is_hex c = true) (list_ascii_of_string h)
    /\ blob_hash pathname = h
    /\ (ext = ""%string
        \/ exists c rest, ext = String "." (String c rest)
                          /\ is_space (N_of_ascii c) = false).
Proof.
  intros pathname H. unfold blob_route in H.
  destruct pathname as [|a s]; [discriminate|].
  destruct (Ascii.eqb a "/") eqn:A.
  2:{ exfalso. apply Ascii.eqb_neq in A.
      destruct a as [[] [] [] [] [] [] [] []]; try discriminate. now apply A. }
  apply Ascii.eqb_eq in A. subst a.
  destruct (hex_prefix 64 s) as [rest|] eqn:P; [|discriminate].
  destruct (hex_prefix_spec 64 s rest P) as [h [-> [Hl [Hh Hs]]]].
  exists h, rest. split; [reflexivity|]. split; [assumption|].
  split; [assumption|]. split; [exact Hs|].
  destruct rest as [|d rest]; [now left|]. right.
  destruct rest as [|c rest].
  - destruct d as [[] [] [] [] [] [] [] []]; discriminate.
  - exists c, rest.
    destruct (Ascii.eqb d ".") eqn:D.
    + apply Ascii.eqb_eq in D. subst d. split; [reflexivity|].
      now apply negb_true_iff in H.
    + exfalso. apply Ascii.eqb_neq in D.
      destruct d as [[] [] [] [] [] [] [] []]; try discriminate. now apply D.
Qed.

Lemma blob_route_hash_witness :
  blob_route "/9f86d081884c7d659a2feaa0c55ad015a3bf4f1b2b0b822cd15d6c15b0f00a08.apk" = true
  /\ blob_hash "/9f86d081884c7d659a2feaa0c55ad015a3bf4f1b2b0b822cd15d6c15b0f00a08.apk"
     = "9f86d081884c7d659a2feaa0c55ad015a3bf4f1b2b0b822cd15d6c15b0f00a08".
Proof.
  split; [reflexivity|].
  destruct (blob_route_hash
              "/9f86d081884c7d659a2feaa0c55ad015a3bf4f1b2b0b822cd15d6c15b0f00a08.apk"
              eq_refl) as [h [ext [_ [_ [_ [H _]]]]]].
  reflexivity.
Defined.

(* ================================================================== *)
(** ** The registry through REQ, CLOSE and the fan-out *)

Lemma lookup_assign_eq : forall k v m, lookup k (assign k v m) = Some v.
Proof.
  induction m as [|[k' v'] m IH]; simpl.
  - now rewrite String.eqb_refl.
  - destruct (String.eqb k' k) eqn:E; simpl; [now rewrite String.eqb_refl|].
    now rewrite E.
Qed.

Lemma lookup_assign_neq : forall k k' v m,
  k' <> k -> lookup k' (assign k v m) = lookup k' m.
Proof.
  intros k k' v m H. induction m as [|[k0 v0] m IH]; simpl.
  - apply String.eqb_neq in H. rewrite String.eqb_sym. now rewrite H.
  - destruct (String.eqb k0 k) eqn:E; simpl.
    + apply String.eqb_eq in E. subst k0.
      apply String.eqb_neq in H. rewrite String.eqb_sym in H. now rewrite H.
    + destruct (String.eqb k0 k'); [reflexivity | exact IH].
Qed.

Lemma lookup_remove_eq : forall k m, lookup k (remove k m) = None.
Proof.
  induction m as [|[k' v'] m IH]; simpl; [reflexivity|].
  destruct (String.eqb k' k) eqn:E; simpl; [exact IH | now rewrite E].
Qed.

Lemma lookup_remove_neq : forall k k' m,
  k' <> k -> lookup k' (remove k m) = lookup k' m.
Proof.
  intros k k' m H. induction m as [|[k0 v0] m IH]; simpl; [reflexivity|].
  destruct (String.eqb k0 k) eqn:E; simpl.
  - apply String.eqb_eq in E. subst k0.
    apply String.eqb_neq in H. rewrite String.eqb_sym in H. now rewrite H.
  - destruct (String.eqb k0 k'); [reflexivity | exact IH].
Qed.

Lemma lookup_Some_In : forall k v m, lookup k m = Some v -> In (k, v) m.
Proof.
  induction m as [|[k' v'] m IH]; simpl; intros H; [discriminate|].
  destruct (String.eqb k' k) eqn:E; [|right; auto].
  apply String.eqb_eq in E. injection H as <-. subst. now left.
Qed.

Lemma gate_all : forall fs,
  existsb (fun f => negb (admitted f)) fs = false <->
  forall f, In f fs -> admitted f = true.
Proof.
  intros fs. split.
  - intros H f Hf. exact (gate_passed fs f H Hf).
  - intros H. destruct (existsb _ fs) eqn:E; [|reflexivity].
    apply existsb_exists in E. destruct E as [f [Hf Hn]].
    rewrite (H f Hf) in Hn. discriminate.
Qed.

(** The filters as the query loop leaves them: normalized up to the one
    that threw, all of them when none did. *)
Lemma run_queries_filters : forall X d filters fs log r,
  run_queries X d filters = (fs, log, r) ->
  Forall2 (fun f f' => f' = f \/ f' = normalize_search f) filters fs
  /\ (forall rows, r = Return rows -> fs = map normalize_search filters).
Proof.
  intros X d filters. induction filters as [|f rest IH]; intros fs log r H.
  - rewrite run_queries_nil in H. injection H as <- _ _. split; [constructor | auto].
  - rewrite run_queries_cons in H.
    destruct (select_events X d (normalize_search f)) as [rs|e].
    + destruct (run_queries X d rest) as [[fs' log'] r'] eqn:Q.
      destruct (IH fs' log' r' eq_refl) as [F A].
      injection H as <- _ <-. split.
      * constructor; [now right | exact F].
      * intros rows Hr. destruct r' as [more|e]; [|discriminate].
        simpl. f_equal. now apply (A more).
    + injection H as <- _ <-. split; [|discriminate].
      constructor; [now right|].
      clear. induction rest; constructor; auto.
Qed.

(** X5.  A REQ over a websocket whose filters all pass the gate stores its
    filter set under the key of (connection, request id), replacing what was
    there and touching no other key; when no query throws the stored set is
    the submitted one with every one-element [search] array unwrapped. *)
Theorem request_registers_filters :
  forall (X : Collaborators) (c : N) (reqId : string) (filters : list Filter)
         (s : Relay),
    (forall f, In f filters -> admitted f = true) ->
    let o := _handleRequest X (Some c) reqId filters None s in
    lookup (subId_of c reqId) (subIds (relay o))
    = Some (fst (fst (run_queries X (db s) filters)))
    /\ (forall k, k <> subId_of c reqId ->
                  lookup k (subIds (relay o)) = lookup k (subIds s))
    /\ (forall rows, snd (run_queries X (db s) filters) = Return rows ->
                     lookup (subId_of c reqId) (subIds (relay o))
                     = Some (map normalize_search filters)).
Proof.
  intros X c reqId filters s Hg o. subst o.
  assert (R : subIds (relay (_handleRequest X (Some c) reqId filters None s))
              = assign (subId_of c reqId) (fst (fst (run_queries X (db s) filters)))
                       (subIds s)).
  { unfold _handleRequest. rewrite (proj2 (gate_all filters) Hg).
    cbn -[run_queries]. destruct filters as [|f0 rest]; [reflexivity|].
    destruct (run_queries X (db s) (f0 :: rest)) as [[fs log] [rows|e]]; cbn;
      [|reflexivity].
    now destruct (remove_ephemeral rows (db s)). }
  rewrite R. split; [apply lookup_assign_eq|]. split.
  - intros k Hk. now apply lookup_assign_neq.
  - intros rows Hr. rewrite lookup_assign_eq. f_equal.
    destruct (run_queries X (db s) filters) as [[fs log] r] eqn:Q. simpl in *.
    exact (proj2 (run_queries_filters X _ _ _ _ _ Q) rows Hr).
Qed.

Lemma request_registers_filters_witness :
  let f := mkFilter None None (Some [1063]) [] None None
                    (Some (SearchArray [units "zap"])) None in
  lookup "7-apps"
    (subIds (relay (_handleRequest Sample.X (Some 7%N) "apps" [f] None Sample.start)))
  = Some [set_search f (SearchString (units "zap"))].
Proof.
  cbv zeta.
  refine (proj2 (proj2 (request_registers_filters Sample.X 7%N "apps"
                          [mkFilter None None (Some [1063]) [] None None
                                    (Some (SearchArray [units "zap"])) None]
                          Sample.start _)) [] eq_refl).
  intros f [<-|[]]. reflexivity.
Defined.

(** X6.  A REQ over a websocket one of whose queries throws is answered
    CLOSED with the error, publishes no EVENT and no EOSE and leaves the
    store as it was, yet its filter set stays registered: the subscription
    was stored before the queries ran and the error path does not remove
    it. *)
Theorem failed_request_stays_registered :
  forall (X : Collaborators) (c : N) (reqId : string) (filters fs : list Filter)
         (log : list Effect) (e : Exn) (s : Relay),
    (forall f, In f filters -> admitted f = true) ->
    run_queries X (db s) filters = (fs, log, Throw e) ->
    let o := _handleRequest X (Some c) reqId filters None s in
    effects o = Subscribe c (subId_of c reqId)
                :: log ++ [Send c (CLOSED reqId (Some (ErrorReason e)))]
    /\ Forall is_sql log
    /\ db (relay o) = db s
    /\ lookup (subId_of c reqId) (subIds (relay o)) = Some fs.
Proof.
  intros X c reqId filters fs log e s Hg Q o. subst o.
  pose proof (run_queries_log X (db s) filters) as L. rewrite Q in L. simpl in L.
  unfold _handleRequest. rewrite (proj2 (gate_all filters) Hg).
  cbn -[run_queries]. destruct filters as [|f0 rest].
  - rewrite run_queries_nil in Q. discriminate.
  - rewrite Q. cbn. repeat split; [assumption|]. apply lookup_assign_eq.
Qed.

Lemma failed_request_stays_registered_witness :
  let f := mkFilter None None (Some [1063]) [] None None
                    (Some (SearchString [])) None in
  let o := _handleRequest Sample.X (Some 7%N) "q" [f] None Sample.start in
  effects o = [Subscribe 7%N "7-q"; Sql (SelectEvents f);
               Send 7%N (CLOSED "q" (Some (ErrorReason FtsSyntaxError)))]
  /\ lookup "7-q" (subIds (relay o)) = Some [f].
Proof.
  cbv zeta.
  destruct (failed_request_stays_registered Sample.X 7%N "q"
              [mkFilter None None (Some [1063]) [] None None
                        (Some (SearchString [])) None]
              [mkFilter None None (Some [1063]) [] None None
                        (Some (SearchString [])) None]
              [Sql (SelectEvents (mkFilter None None (Some [1063]) [] None None
                                           (Some (SearchString [])) None))]
              FtsSyntaxError Sample.start)
    as [H1 [_ [_ H4]]].
  - intros f [<-|[]]. reflexivity.
  - reflexivity.
  - split; [exact H1 | exact H4].
Defined.

(** The effects of a re-run of the request handler for a stored key. *)
Lemma rerun_effects : forall X c reqId fs k s,
  Forall (rerun_effect c reqId k)
         (effects (_handleRequest X (Some c) reqId fs (Some k) s)).
Proof.
  intros X c reqId fs k s. unfold _handleRequest.
  assert (S : forall l, Forall is_sql l -> Forall (rerun_effect c reqId k) l).
  { intros l H. eapply Forall_impl; [|exact H]. intros a Ha. now left. }
  destruct (existsb (fun f => negb (admitted f)) fs).
  { constructor; [right; left; eauto | constructor]. }
  cbn -[run_queries].
  pose proof (run_queries_log X (db s) fs) as L.
  destruct (run_queries X (db s) fs) as [[fs' log] [rows|e]]; simpl in L.
  - pose proof (remove_ephemeral_log rows (db s)) as L2.
    destruct (remove_ephemeral rows (db s)) as [d' purge]. cbn in *.
    apply Forall_app. split; [now apply S|].
    apply Forall_app. split; [now apply S|].
    apply Forall_app. split; [|constructor].
    apply Forall_forall. intros x Hx. apply in_map_iff in Hx.
    destruct Hx as [r [<- _]]. right. right. eauto.
  - cbn. apply Forall_app. split; [now apply S|].
    constructor; [right; left; eauto | constructor].
Qed.

Lemma fanout_effects : forall X c i keys s,
  Forall (fun e => exists k, In k keys /\ rerun_effect c (reqId_of k) k e)
         (effects (fanout X c i keys s)).
Proof.
  intros X c i keys. induction keys as [|k keys IH]; intros s; [constructor|].
  rewrite fanout_cons. destruct (lookup k (subIds s)); [|constructor].
  cbn. apply Forall_app. split.
  - eapply Forall_impl; [|apply rerun_effects].
    intros a Ha. exists k. split; [now left | exact Ha].
  - eapply Forall_impl; [|apply IH].
    intros a [k' [Hk' Ha]]. exists k'. split; [now right | exact Ha].
Qed.

(** Every effect of an EVENT submission: a statement, the OK frame to the
    submitter, or an effect of the re-run for a registered key. *)
Lemma handleEvent_effects : forall X ws (payload : Payload) s,
  Forall (fun e =>
            is_sql e
            \/ (exists c b r, ws = Some c /\ e = Send c (OK (id payload) b r))
            \/ (exists c k, ws = Some c /\ In k (map fst (subIds s))
                            /\ rerun_effect c (reqId_of k) k e))
         (effects (_handleEvent X ws payload s)).
Proof.
  intros X ws payload s. unfold _handleEvent.
  assert (S : forall l, Forall is_sql l ->
              Forall (fun e =>
                        is_sql e
                        \/ (exists c b r, ws = Some c /\ e = Send c (OK (id payload) b r))
                        \/ (exists c k, ws = Some c /\ In k (map fst (subIds s))
                                        /\ rerun_effect c (reqId_of k) k e)) l).
  { intros l H. eapply Forall_impl; [|exact H]. intros a Ha. now left. }
  assert (A : forall b r,
              Forall (fun e =>
                        is_sql e
                        \/ (exists c b r, ws = Some c /\ e = Send c (OK (id payload) b r))
                        \/ (exists c k, ws = Some c /\ In k (map fst (subIds s))
                                        /\ rerun_effect c (reqId_of k) k e))
                     (to_ws ws (OK (id payload) b r))).
  { intros b r. destruct ws as [c|]; [|constructor].
    constructor; [right; left; eauto | constructor]. }
  destruct (_validateEvent X payload) as [[|]|e].
  - destruct (exists_id (db s) (id payload)).
    + cbn. constructor; [now left | apply A].
    + pose proof (write_event_log X (db s) (_serialize payload)
                    (idToRemove (db s) payload)) as L.
      destruct (write_event _ _ _ _) as [[d' log] [e|]]; simpl in L.
      * cbn. constructor; [now left|]. apply Forall_app. split; [|apply A].
        apply S, Forall_app. split; [apply lookup_log_sql | exact L].
      * assert (D : Forall is_sql ([Sql (SelectExists (id payload))]
                                   ++ lookup_log (db s) payload ++ log)).
        { constructor; [exact I|]. apply Forall_app.
          split; [apply lookup_log_sql | exact L]. }
        destruct ws as [c|]; [|now apply S].
        pose proof (fanout_effects X c (id payload) (map fst (subIds s))
                      (mkRelay d' (subIds s))) as F.
        assert (F' : Forall (fun e =>
                        is_sql e
                        \/ (exists c0 b r, Some c = Some c0
                                           /\ e = Send c0 (OK (id payload) b r))
                        \/ (exists c0 k, Some c = Some c0 /\ In k (map fst (subIds s))
                                         /\ rerun_effect c0 (reqId_of k) k e))
                      (effects (fanout X c (id payload) (map fst (subIds s))
                                       (mkRelay d' (subIds s))))).
        { eapply Forall_impl; [|exact F]. intros a [k [Hk Ha]].
          right. right. exists c, k. auto. }
        cbn -[fanout].
        destruct (result (fanout X c (id payload) (map fst (subIds s))
                                 (mkRelay d' (subIds s)))); cbn -[fanout].
        -- constructor; [now left|]. rewrite <- app_assoc.
           apply Forall_app. split; [apply S, lookup_log_sql|].
           apply Forall_app. split; [now apply S|].
           constructor; [right; left; eauto | exact F'].
        -- constructor; [now left|]. rewrite <- !app_assoc.
           apply Forall_app. split; [apply S, lookup_log_sql|].
           apply Forall_app. split; [now apply S|].
           constructor; [right; left; eauto|].
           apply Forall_app. split; [exact F'|].
           constructor; [right; left; eauto | constructor].
  - destruct ws as [c|]; cbn; [|constructor].
    constructor; [right; left; eauto | constructor].
  - cbn. apply A.
Qed.

(** X7.  Whatever an EVENT submission publishes goes to a topic that is a
    key of the registry at that moment, as an EVENT frame carrying the
    request id read out of that key; it publishes no EOSE, and nothing at
    all when it comes through the REST bridge. *)
Theorem event_publishes_to_registered_keys :
  forall (X : Collaborators) (ws : option N) (payload : Payload) (s : Relay)
         (topic : string) (frame : Frame),
    In (Publish topic frame) (effects (_handleEvent X ws payload s)) ->
    (exists c, ws = Some c)
    /\ In topic (map fst (subIds s))
    /\ exists ev, frame = EVENT (reqId_of topic) ev.
Proof.
  intros X ws payload s topic frame Hin.
  pose proof (handleEvent_effects X ws payload s) as F.
  rewrite Forall_forall in F. specialize (F _ Hin).
  destruct F as [F | [[c [b [r [_ F]]]] | [c [k [Hws [Hk F]]]]]].
  - contradiction.
  - discriminate.
  - destruct F as [F | [[reason F] | [ev F]]].
    + contradiction.
    + discriminate.
    + injection F as -> ->. eauto.
Qed.

Lemma event_publishes_to_registered_keys_witness :
  let s := relay (_handleRequest Sample.X (Some 1%N) "s1" [Sample.of_kinds [1063]]
                                 None Sample.start) in
  let e := Sample.event "bb" "alice" 1063 1000 [] in
  In (Publish "1-s1" (EVENT "s1" e)) (effects (_handleEvent Sample.X (Some 2%N) e s))
  /\ In "1-s1" (map fst (subIds s)).
Proof.
  cbv zeta.
  assert (H : In (Publish "1-s1" (EVENT "s1" (Sample.event "bb" "alice" 1063 1000 [])))
                 (effects (_handleEvent Sample.X (Some 2%N)
                             (Sample.event "bb" "alice" 1063 1000 [])
                             (relay (_handleRequest Sample.X (Some 1%N) "s1"
                                       [Sample.of_kinds [1063]] None Sample.start))))).
  { vm_compute. auto 10. }
  split; [exact H|].
  exact (proj1 (proj2 (event_publishes_to_registered_keys _ _ _ _ _ _ H))).
Defined.

(** The topic of a publication of an EVENT submission is a registered key. *)
Lemma handleEvent_publish_topic : forall X ws (payload : Payload) s topic frame,
  In (Publish topic frame) (effects (_handleEvent X ws payload s)) ->
  In topic (map fst (subIds s)).
Proof.
  intros X ws payload s topic frame Hin.
  pose proof (handleEvent_effects X ws payload s) as F.
  rewrite Forall_forall in F. specialize (F _ Hin).
  destruct F as [F | [[c [b [r [_ F]]]] | [c [k [_ [Hk F]]]]]];
    [contradiction | discriminate |].
  destruct F as [F | [[reason F] | [ev F]]]; [contradiction | discriminate |].
  injection F as -> _. exact Hk.
Qed.

Lemma remove_keys : forall k m, ~ In k (map fst (remove k m)).
Proof.
  intros k m H. apply in_map_iff in H. destruct H as [[k' v] [E H]].
  simpl in E. subst k'. unfold remove in H. apply filter_In in H.
  destruct H as [_ H]. simpl in H. rewrite String.eqb_refl in H. discriminate.
Qed.

(** X8.  CLOSE removes the subscription of that connection and request id
    and no other, and is answered CLOSED; from then on no EVENT submission
    publishes anything for it. *)
Theorem close_stops_delivery :
  forall (c : N) (reqId : string) (s : Relay),
    let o := _handleClose c reqId s in
    effects o = [Send c (CLOSED reqId None)]
    /\ db (relay o) = db s
    /\ lookup (subId_of c reqId) (subIds (relay o)) = None
    /\ (forall k, k <> subId_of c reqId ->
                  lookup k (subIds (relay o)) = lookup k (subIds s))
    /\ (forall X ws payload frame,
           ~ In (Publish (subId_of c reqId) frame)
                (effects (_handleEvent X ws payload (relay o)))).
Proof.
  intros c reqId s o. subst o. simpl.
  split; [reflexivity|]. split; [reflexivity|].
  split; [apply lookup_remove_eq|]. split.
  - intros k Hk. now apply lookup_remove_neq.
  - intros X ws payload frame Hin.
    apply handleEvent_publish_topic in Hin. simpl in Hin.
    exact (remove_keys _ _ Hin).
Qed.

Lemma In_assign_pair : forall k v m kv,
  In kv (assign k v m) -> kv = (k, v) \/ In kv m.
Proof.
  induction m as [|[k' v'] m IH]; simpl; intros kv H.
  - destruct H as [<-|[]]. now left.
  - destruct (String.eqb k' k).
    + destruct H as [<-|H]; [now left | right; now right].
    + destruct H as [<-|H]; [right; now left|].
      destruct (IH _ H); [now left | right; now right].
Qed.

Lemma admitted_normalize : forall f, admitted (normalize_search f) = admitted f.
Proof.
  intros f. unfold admitted. now rewrite (proj2 (normalize_fields f)).
Qed.

(** The registry after a REQ over a websocket. *)
Lemma handleRequest_registry : forall X c reqId filters s,
  subIds (relay (_handleRequest X (Some c) reqId filters None s))
  = if existsb (fun f => negb (admitted f)) filters then subIds s
    else assign (subId_of c reqId) (fst (fst (run_queries X (db s) filters)))
                (subIds s).
Proof.
  intros X c reqId filters s. unfold _handleRequest.
  destruct (existsb (fun f => negb (admitted f)) filters); [reflexivity|].
  cbn -[run_queries]. destruct filters as [|f0 rest]; [reflexivity|].
  destruct (run_queries X (db s) (f0 :: rest)) as [[fs log] [rows|e]]; cbn;
    [|reflexivity].
  now destruct (remove_ephemeral rows (db s)).
Qed.

Lemma handleRequest_gated : forall X ws reqId filters ex s,
  gated (subIds s) ->
  gated (subIds (relay (_handleRequest X ws reqId filters ex s))).
Proof.
  intros X ws reqId filters ex s G.
  destruct ex as [k|]; [now rewrite handleRequest_existing_subIds|].
  destruct ws as [c|].
  2:{ destruct (handleRequest_subIds X None reqId filters None s)
        as [E|[c [fs [Hc _]]]]; [|discriminate]. simpl in E. now rewrite E. }
  rewrite handleRequest_registry.
  destruct (existsb (fun f => negb (admitted f)) filters) eqn:Gate; [exact G|].
  intros k fs f Hin Hf. apply In_assign_pair in Hin.
  destruct Hin as [E|Hin]; [|exact (G k fs f Hin Hf)].
  injection E as _ ->.
  destruct (run_queries X (db s) filters) as [[fs' log] r] eqn:Q. simpl in Hf.
  destruct (run_queries_filters X _ _ _ _ _ Q) as [F _].
  clear Q. revert Gate Hf. induction F as [|g g' l l' Hg F IH]; intros Gate Hf.
  - contradiction.
  - simpl in Gate. apply orb_false_iff in Gate. destruct Gate as [Gg Gl].
    apply negb_false_iff in Gg.
    destruct Hf as [<-|Hf]; [|auto].
    destruct Hg as [->| ->]; [assumption | now rewrite admitted_normalize].
Qed.

Lemma rerun_no_empty_close : forall X c reqId fs k s c' r,
  existsb (fun f => negb (admitted f)) fs = false ->
  ~ In (Send c' (CLOSED r (Some NoReason)))
       (effects (_handleRequest X (Some c) reqId fs (Some k) s)).
Proof.
  intros X c reqId fs k s c' r Gate. unfold _handleRequest. rewrite Gate.
  cbn -[run_queries].
  pose proof (run_queries_log X (db s) fs) as L.
  destruct (run_queries X (db s) fs) as [[fs' log] [rows|e]]; simpl in L.
  - pose proof (remove_ephemeral_log rows (db s)) as L2.
    destruct (remove_ephemeral rows (db s)) as [d' purge]. cbn in *.
    intros H. apply in_app_or in H. destruct H as [H|H].
    { exact (no_frame_in_sql _ _ _ L H). }
    apply in_app_or in H. destruct H as [H|H].
    { exact (no_frame_in_sql _ _ _ L2 H). }
    rewrite app_nil_r in H. apply in_map_iff in H.
    destruct H as [x [H _]]. discriminate.
  - cbn. intros H. apply in_app_or in H. destruct H as [H|[H|[]]].
    + exact (no_frame_in_sql _ _ _ L H).
    + discriminate.
Qed.

Lemma fanout_no_empty_close : forall X c i keys s c' r,
  gated (subIds s) ->
  ~ In (Send c' (CLOSED r (Some NoReason))) (effects (fanout X c i keys s)).
Proof.
  intros X c i keys. induction keys as [|k keys IH]; intros s c' r G; [intros []|].
  rewrite fanout_cons. destruct (lookup k (subIds s)) as [fs|] eqn:Lk; [|intros []].
  cbn. intros H. apply in_app_or in H. destruct H as [H|H].
  - revert H. apply rerun_no_empty_close. rewrite gate_set_ids.
    apply gate_all. intros f Hf. apply lookup_Some_In in Lk. exact (G k fs f Lk Hf).
  - revert H. apply IH. now rewrite handleRequest_existing_subIds.
Qed.

(** X9.  Every filter in the registry has passed the admission gate, and
    every step of the server keeps it so; hence the fan-out of an EVENT
    submission is never turned away by the gate (no CLOSED frame with the
    empty reason is sent). *)
Theorem registry_stays_gated :
  forall (X : Collaborators) (sv : Server),
    gated (subIds (state sv)) ->
    (forall i, gated (subIds (state (fst (step X sv i)))))
    /\ (forall ws payload c r,
           ~ In (Send c (CLOSED r (Some NoReason)))
                (effects (_handleEvent X ws payload (state sv)))).
Proof.
  intros X sv G. split.
  - intros i. destruct i as [c|c m|c|payload|filters]; simpl.
    + exact G.
    + destruct (is_live c sv); [|exact G].
      destruct m as [reqId filters|payload|reqId|type]; simpl.
      * now apply handleRequest_gated.
      * now rewrite handleEvent_subIds.
      * intros k fs f Hin Hf. unfold remove in Hin. apply filter_In in Hin.
        exact (G k fs f (proj1 Hin) Hf).
      * exact G.
    + destruct (is_live c sv); [|exact G]. simpl.
      intros k fs f Hin Hf. apply filter_In in Hin. exact (G k fs f (proj1 Hin) Hf).
    + now rewrite handleEvent_subIds.
    + now apply handleRequest_gated.
  - intros ws payload c r Hin.
    unfold _handleEvent in Hin.
    destruct (_validateEvent X payload) as [[|]|e].
    + destruct (exists_id (db (state sv)) (id payload)).
      * cbn in Hin. destruct Hin as [Hin|Hin]; [discriminate|].
        destruct ws; simpl in Hin; [destruct Hin as [Hin|[]]; discriminate | contradiction].
      * pose proof (write_event_log X (db (state sv)) (_serialize payload)
                      (idToRemove (db (state sv)) payload)) as L.
        destruct (write_event _ _ _ _) as [[d' log] [e|]]; simpl in L.
        -- cbn in Hin. destruct Hin as [Hin|Hin]; [discriminate|].
           apply in_app_or in Hin. destruct Hin as [Hin|Hin].
           ++ apply in_app_or in Hin. destruct Hin as [Hin|Hin];
                [exact (no_frame_in_sql _ _ _ (lookup_log_sql _ _) Hin)
                | exact (no_frame_in_sql _ _ _ L Hin)].
           ++ destruct ws; simpl in Hin;
                [destruct Hin as [Hin|[]]; discriminate | contradiction].
        -- destruct ws as [c0|].
           ++ rewrite fanout_returns in Hin by (simpl; auto).
              cbn -[fanout] in Hin. destruct Hin as [Hin|Hin]; [discriminate|].
              rewrite <- app_assoc in Hin.
              apply in_app_or in Hin. destruct Hin as [Hin|Hin];
                [exact (no_frame_in_sql _ _ _ (lookup_log_sql _ _) Hin)|].
              apply in_app_or in Hin. destruct Hin as [Hin|Hin];
                [exact (no_frame_in_sql _ _ _ L Hin)|].
              destruct Hin as [Hin|Hin]; [discriminate|].
              revert Hin. apply fanout_no_empty_close. exact G.
           ++ cbn in Hin. destruct Hin as [Hin|Hin]; [discriminate|].
              apply in_app_or in Hin. destruct Hin as [Hin|Hin];
                [exact (no_frame_in_sql _ _ _ (lookup_log_sql _ _) Hin)
                | exact (no_frame_in_sql _ _ _ L Hin)].
    + destruct ws; cbn in Hin; [destruct Hin as [Hin|[]]; discriminate | contradiction].
    + cbn in Hin. destruct ws; simpl in Hin;
        [destruct Hin as [Hin|[]]; discriminate | contradiction].
Qed.

Lemma registry_stays_gated_witness :
  gated (subIds (state (mkServer [1%N] Sample.start)))
  /\ gated (subIds (state (fst (step Sample.X (mkServer [1%N] Sample.start)
                                     (WsMessage 1%N
                                        (MsgReq "s" [Sample.of_kinds [1063]])))))).
Proof.
  assert (G : gated (subIds (state (mkServer [1%N] Sample.start)))).
  { intros k fs f []. }
  split; [exact G|].
  exact (proj1 (registry_stays_gated Sample.X _ G) _).
Defined.

(* ================================================================== *)
(** ** The order of frames *)

Lemma no_eose_sql : forall l, Forall is_sql l -> existsb is_eose l = false.
Proof.
  induction l as [|e l IH]; intros H; [reflexivity|].
  inversion H as [|? ? He Hl]; subst. destruct e; try contradiction. simpl. auto.
Qed.

Lemma no_eose_publish : forall k reqId (rows : list Row),
  existsb is_eose (map (fun r : Row => Publish k (EVENT reqId r)) rows) = false.
Proof. induction rows as [|r rows IH]; simpl; auto. Qed.

(** X10.  A REQ over a websocket whose filters pass the gate and whose
    queries return publishes EOSE exactly once, as its last effect, after
    every EVENT frame of the historical rows; a re-run of the handler for
    the fan-out never publishes EOSE. *)
Theorem eose_ends_history :
  forall (X : Collaborators) (c : N) (reqId : string) (filters fs : list Filter)
         (log : list Effect) (rows : list Row) (s : Relay),
    (forall f, In f filters -> admitted f = true) ->
    run_queries X (db s) filters = (fs, log, Return rows) ->
    (exists pre,
        effects (_handleRequest X (Some c) reqId filters None s)
        = pre ++ [Publish (subId_of c reqId) (EOSE reqId)]
        /\ existsb is_eose pre = false
        /\ frame_events pre = map row_event rows)
    /\ (forall c' reqId' fs' k s',
           existsb is_eose
             (effects (_handleRequest X (Some c') reqId' fs' (Some k) s')) = false).
Proof.
  intros X c reqId filters fs log rows s Hg Q. split.
  - pose proof (run_queries_log X (db s) filters) as L. rewrite Q in L. simpl in L.
    unfold _handleRequest. rewrite (proj2 (gate_all filters) Hg).
    cbn -[run_queries]. destruct filters as [|f0 rest].
    + rewrite run_queries_nil in Q. injection Q as _ _ <-.
      exists [Subscribe c (subId_of c reqId)]. auto.
    + rewrite Q. pose proof (remove_ephemeral_log rows (db s)) as L2.
      destruct (remove_ephemeral rows (db s)) as [d' purge]. cbn in *.
      exists (Subscribe c (subId_of c reqId)
              :: log ++ purge
              ++ map (fun r : Row => Publish (subId_of c reqId) (EVENT reqId r)) rows).
      split; [simpl; now rewrite <- !app_assoc|]. split.
      * simpl. rewrite !existsb_app, (no_eose_sql _ L), (no_eose_sql _ L2).
        apply no_eose_publish.
      * change (frame_events (Subscribe c (subId_of c reqId) :: ?l))
          with (frame_events l).
        unfold frame_events at 1. simpl. fold (frame_events (log ++ purge
          ++ map (fun r : Row => Publish (subId_of c reqId) (EVENT reqId r)) rows)).
        rewrite !frame_events_app, (frame_events_sql _ L), (frame_events_sql _ L2).
        apply frame_events_publish.
  - intros c' reqId' fs' k s'.
    pose proof (rerun_effects X c' reqId' fs' k s') as F.
    induction F as [|e l He F IH]; [reflexivity|].
    simpl. rewrite IH.
    destruct He as [He | [[reason ->] | [ev ->]]]; [|reflexivity|reflexivity].
    destruct e; try contradiction. reflexivity.
Qed.

Lemma eose_ends_history_witness :
  let e := Sample.event "aa" "alice" 1063 1000 [] in
  let s := relay (_handleEvent Sample.X (Some 1%N) e Sample.start) in
  effects (_handleRequest Sample.X (Some 2%N) "q" [Sample.of_kinds [1063]] None s)
  = [Subscribe 2%N "2-q"; Sql (SelectEvents (Sample.of_kinds [1063]));
     Publish "2-q" (EVENT "q" e); Publish "2-q" (EOSE "q")].
Proof.
  cbv zeta.
  destruct (eose_ends_history Sample.X 2%N "q" [Sample.of_kinds [1063]]
              [Sample.of_kinds [1063]]
              [Sql (SelectEvents (Sample.of_kinds [1063]))]
              [mkRow 1 (Sample.event "aa" "alice" 1063 1000 [])]
              (relay (_handleEvent Sample.X (Some 1%N)
                        (Sample.event "aa" "alice" 1063 1000 []) Sample.start)))
    as [[pre [H _]] _].
  - intros f [<-|[]]. reflexivity.
  - reflexivity.
  - reflexivity.
Defined.

Lemma no_ok_sql : forall l, Forall is_sql l -> filter is_ok_frame l = [].
Proof.
  induction l as [|e l IH]; intros H; [reflexivity|].
  inversion H as [|? ? He Hl]; subst. destruct e; try contradiction. simpl. auto.
Qed.

Lemma no_ok_fanout : forall X c i keys s,
  filter is_ok_frame (effects (fanout X c i keys s)) = [].
Proof.
  intros X c i keys s. pose proof (fanout_effects X c i keys s) as F.
  induction F as [|e l He F IH]; [reflexivity|].
  simpl. rewrite IH.
  destruct He as [k [_ [He | [[reason ->] | [ev ->]]]]]; [|reflexivity|reflexivity].
  destruct e; try contradiction. reflexivity.
Qed.

(** X11.  An EVENT submission over a websocket is answered with exactly one
    OK frame, sent to the submitter for the submitted id; its flag is true
    exactly when the write went through; only statements come before it, so
    every frame of the fan-out comes after the acknowledgement. *)
Theorem one_ok_before_fanout :
  forall (X : Collaborators) (c : N) (payload : Payload) (s : Relay),
    let o := _handleEvent X (Some c) payload s in
    exists pre reason post,
      effects o = pre ++ Send c (OK (id payload) (written o) reason) :: post
      /\ Forall is_sql pre
      /\ filter is_ok_frame post = [].
Proof.
  intros X c payload s o. subst o. unfold _handleEvent.
  destruct (_validateEvent X payload) as [[|]|e].
  - destruct (exists_id (db s) (id payload)).
    + exists [Sql (SelectExists (id payload))], Duplicate, [].
      repeat split. repeat constructor.
    + pose proof (write_event_log X (db s) (_serialize payload)
                    (idToRemove (db s) payload)) as L.
      destruct (write_event _ _ _ _) as [[d' log] [e|]] eqn:W; simpl in L.
      * exists ([Sql (SelectExists (id payload))] ++ lookup_log (db s) payload ++ log),
               (ErrorReason e), [].
        repeat split. constructor; [exact I|].
        apply Forall_app. split; [apply lookup_log_sql | exact L].
      * apply write_event_inserts in W. rename W into Hins.
        rewrite fanout_returns by (simpl; auto).
        exists ([Sql (SelectExists (id payload))] ++ lookup_log (db s) payload ++ log),
               NoReason,
               (effects (fanout X c (id payload) (map fst (subIds s))
                                (mkRelay d' (subIds s)))).
        split; [|split].
        -- unfold written. cbn -[fanout].
           rewrite !existsb_insert_app, Hins, !orb_true_r.
           now rewrite <- !app_assoc.
        -- constructor; [exact I|].
           apply Forall_app. split; [apply lookup_log_sql | exact L].
        -- apply no_ok_fanout.
  - exists [], NotAccepted, []. repeat split. constructor.
  - exists [], (ErrorReason e), []. repeat split. constructor.
Qed.

(** X12.  An EVENT submission that does not end in a completed write leaves
    the three tables and the registry as they were, and a write is completed
    only for an event that passed validation and whose id was not stored:
    invalid and duplicate events are never persisted. *)
Theorem unwritten_event_changes_nothing :
  forall (X : Collaborators) (ws : option N) (payload : Payload) (s : Relay),
    let o := _handleEvent X ws payload s in
    (written o = false ->
     events (db (relay o)) = events (db s)
     /\ tags_index (db (relay o)) = tags_index (db s)
     /\ events_fts (db (relay o)) = events_fts (db s)
     /\ subIds (relay o) = subIds s)
    /\ (written o = true ->
        _validateEvent X payload = Return true
        /\ exists_id (db s) (id payload) = false).
Proof.
  intros X ws payload s o. subst o.
  destruct (handleEvent_handled X ws payload s)
    as [o Hs Hw _ | o d' log e V Ex W Hr Hres _ | o d' log V Ex W Hres Hw Hrel].
  - split; [intros _; now rewrite Hs | intros H; congruence].
  - assert (Hw : written o = false) by (unfold written; now rewrite Hres).
    split; [|intros H; congruence]. intros _.
    destruct (write_event_thrown _ _ _ _ _ _ _ W) as [E1 [E2 E3]].
    rewrite Hr. auto.
  - split; [intros H; congruence | auto].
Qed.

(* ================================================================== *)
(** ** What the store keeps *)

Lemma purged_ids : forall d d',
  purged d d' ->
  NoDup (map (fun r : Row => id r) (events d)) ->
  NoDup (map (fun r : Row => id r) (events d')).
Proof. intros d d' [gone [E _]] H. rewrite E. now apply NoDup_map_filter. Qed.

Lemma purged_keeps_row : forall d d' (r : Row),
  purged d d' ->
  NoDup (map (fun r : Row => id r) (events d)) ->
  In r (events d) -> ephemeral (kind r) = false -> In r (events d').
Proof.
  intros d d' r [gone [E G]] Hnd Hr He. rewrite E. apply filter_In.
  split; [assumption|]. apply negb_true_iff.
  destruct (existsb (String.eqb (id r)) gone) eqn:B; [|reflexivity].
  apply existsb_eqb_string in B. destruct (G _ B) as [r' [Hr' [Hid He']]].
  assert (r' = r) by (apply (NoDup_map_eq _ _ (fun r : Row => id r) (events d)); auto).
  subst r'. congruence.
Qed.

Lemma write_event_ids : forall X d (p : Payload) old d' log,
  extra p = [] ->
  NoDup (map (fun r : Row => id r) (events d)) ->
  exists_id d (id p) = false ->
  write_event X d (_serialize p) old = (d', log, None) ->
  NoDup (map (fun r : Row => id r) (events d')).
Proof.
  intros X d p old d' log Hex Hnd Ex W.
  apply (write_event_done X d p _ d' log Hex) in W. rename W into Hev.
  assert (N : NoDup (map (fun r : Row => id r)
                         (events d ++ [mkRow (next_rowid (events d)) p]))).
  { rewrite map_app. simpl. apply NoDup_app; [assumption | |].
    - repeat constructor. intros [].
    - intros x Hx [<-|[]]. apply in_map_iff in Hx. destruct Hx as [r [E Hr]].
      rewrite (exists_id_true d (id p) r Hr E) in Ex. discriminate. }
  rewrite Hev. destruct old; [now apply NoDup_map_filter | assumption].
Qed.

Lemma handleEvent_ids : forall X ws (payload : Payload) s,
  extra payload = [] ->
  NoDup (map (fun r : Row => id r) (events (db s))) ->
  NoDup (map (fun r : Row => id r) (events (db (relay (_handleEvent X ws payload s))))).
Proof.
  intros X ws payload s Hex Hnd.
  destruct (handleEvent_handled X ws payload s)
    as [o Hs Hw _ | o d' log e V Ex W Hr Hres _ | o d' log V Ex W Hres Hw Hrel].
  - now rewrite Hs.
  - destruct (write_event_thrown _ _ _ _ _ _ _ W) as [E _]. rewrite Hr. simpl.
    now rewrite E.
  - pose proof (write_event_ids X _ _ _ _ _ Hex Hnd Ex W) as N.
    destruct ws as [c|]; destruct Hrel as [Hrel _]; rewrite Hrel; [|exact N].
    eapply purged_ids; [apply fanout_purged | exact N].
Qed.

Lemma step_ids : forall X sv i,
  seven_keys i ->
  NoDup (map (fun r : Row => id r) (events (db (state sv)))) ->
  NoDup (map (fun r : Row => id r) (events (db (state (fst (step X sv i)))))).
Proof.
  intros X sv i Hi H. destruct i as [c|c m|c|payload|filters]; simpl.
  - exact H.
  - destruct (is_live c sv); [|exact H].
    destruct m as [reqId filters|payload|reqId|type]; simpl; try exact H.
    + eapply purged_ids; [apply handleRequest_purged | exact H].
    + now apply handleEvent_ids.
  - destruct (is_live c sv); exact H.
  - now apply handleEvent_ids.
  - eapply purged_ids; [apply handleRequest_purged | exact H].
Qed.

(** X13.  Event ids stay unique as long as the submitted events carry the
    seven event keys and no other: from a store in which no two rows share
    an id, no sequence of such submissions, requests, closes and REST calls
    leads to a store in which two rows do. *)
Theorem ids_stay_unique :
  forall (X : Collaborators) (inputs : list Input) (sv : Server),
    Forall seven_keys inputs ->
    NoDup (map (fun r : Row => id r) (events (db (state sv)))) ->
    NoDup (map (fun r : Row => id r) (events (db (state (run X sv inputs))))).
Proof.
  intros X inputs. induction inputs as [|i rest IH]; intros sv Hin H; [exact H|].
  inversion Hin as [|? ? Hi Hrest]; subst.
  simpl. apply IH; [assumption|]. now apply step_ids.
Qed.

Lemma ids_stay_unique_witness :
  NoDup (map (fun r : Row => id r)
             (events (db (state (run Sample.X (mkServer [1%N] Sample.start)
                [WsMessage 1%N (MsgEvent (Sample.event "aa" "alice" 1063 1000 []));
                 WsMessage 1%N (MsgEvent (Sample.event "aa" "alice" 1063 1000 []));
                 PostEvent (Sample.event "bb" "alice" 1063 2000 [])]))))).
Proof.
  apply (ids_stay_unique Sample.X _ (mkServer [1%N] Sample.start)).
  - repeat constructor.
  - constructor.
Defined.

(** X14.  A request never adds a row, and with unique ids the rows it
    removes are exactly the ephemeral ones it handed out: every other row,
    every non-ephemeral row in particular, is still stored afterwards. *)
Theorem request_removes_only_returned_ephemeral :
  forall (X : Collaborators) (ws : option N) (reqId : string)
         (filters : list Filter) (ex : option string) (s : Relay),
    NoDup (map (fun r : Row => id r) (events (db s))) ->
    let o := _handleRequest X ws reqId filters ex s in
    forall r : Row,
      In r (events (db (relay o)))
      <-> In r (events (db s))
          /\ ~ (ephemeral (kind r) = true /\ In (row_event r) (handed_out o)).
Proof.
  intros X ws reqId filters ex s Hnd o r. subst o.
  destruct (handleRequest_handed_out X ws reqId filters ex s)
    as [[Hnil Hdb] | [fs [log [rows [Q [Hout Hdb]]]]]].
  - rewrite Hnil, Hdb. simpl. tauto.
  - rewrite Hout, Hdb, remove_ephemeral_events, filter_In, negb_true_iff.
    assert (Hrows : forall x : Row, In x rows -> In x (events (db s))).
    { intros x Hx. apply (run_queries_In X _ _ _ _ _ x Q) in Hx.
      destruct Hx as [f [rs [_ [S Hin]]]].
      now apply (select_events_In X _ _ _ _ S) in Hin. }
    split.
    + intros [Hr Hn]. split; [assumption|]. intros [He Hin].
      apply in_map_iff in Hin. destruct Hin as [r' [E Hr']].
      assert (B : existsb (String.eqb (id r))
                    (map (fun r : Row => id r)
                         (filter (fun r : Row => ephemeral (kind r)) rows)) = true);
        [|congruence].
      apply existsb_eqb_string, in_map_iff. exists r'. split; [now rewrite E|].
      apply filter_In. split; [assumption|]. now rewrite E.
    + intros [Hr Hn]. split; [assumption|].
      destruct (existsb _ _) eqn:B; [|reflexivity]. exfalso. apply Hn.
      apply existsb_eqb_string, in_map_iff in B. destruct B as [r' [E Hr']].
      apply filter_In in Hr'. destruct Hr' as [Hr' He].
      assert (r' = r).
      { apply (NoDup_map_eq _ _ (fun r : Row => id r) (events (db s))); auto. }
      subst r'. split; [assumption | now apply in_map].
Qed.

Lemma request_removes_only_returned_ephemeral_witness :
  let keep := Sample.event "aa" "alice" 1063 1000 [] in
  let gone := Sample.event "ee" "alice" 20000 1000 [] in
  let s := relay (_handleEvent Sample.X None gone
                    (relay (_handleEvent Sample.X None keep Sample.start))) in
  let o := _handleRequest Sample.X None "" [Sample.of_kinds [1063; 20000]] None s in
  NoDup (map (fun r : Row => id r) (events (db s)))
  /\ In (mkRow 1 keep) (events (db (relay o)))
  /\ ~ In (mkRow 2 gone) (events (db (relay o))).
Proof.
  cbv zeta.
  assert (N : NoDup (map (fun r : Row => id r)
                (events (db (relay (_handleEvent Sample.X None
                                      (Sample.event "ee" "alice" 20000 1000 [])
                                      (relay (_handleEvent Sample.X None
                                                (Sample.event "aa" "alice" 1063 1000 [])
                                                Sample.start)))))))).
  { vm_compute. repeat constructor; simpl; intuition discriminate. }
  split; [exact N|]. split.
  - apply (request_removes_only_returned_ephemeral Sample.X None ""
             [Sample.of_kinds [1063; 20000]] None _ N).
    split; [vm_compute; auto|]. intros [H _]. discriminate.
  - intros H.
    apply (request_removes_only_returned_ephemeral Sample.X None ""
             [Sample.of_kinds [1063; 20000]] None _ N) in H.
    destruct H as [_ H]. apply H. split; [reflexivity|]. vm_compute. auto.
Defined.

(** X15.  With unique ids, the submission of an event that carries the
    seven event keys and no other never removes a stored non-ephemeral event
    of another publisher or of another kind: a replacement only ever reaches
    a row with the pubkey and kind of the submitted event. *)
Theorem write_keeps_unrelated_events :
  forall (X : Collaborators) (ws : option N) (payload : Payload) (s : Relay)
         (r : Row),
    extra payload = [] ->
    NoDup (map (fun r : Row => id r) (events (db s))) ->
    In r (events (db s)) ->
    ephemeral (kind r) = false ->
    pubkey r <> pubkey payload \/ kind r <> kind payload ->
    In r (events (db (relay (_handleEvent X ws payload s)))).
Proof.
  intros X ws payload s r Hex Hnd Hr He Hkey.
  destruct (handleEvent_handled X ws payload s)
    as [o Hs Hw _ | o d' log e V Ex W Hrel Hres _ | o d' log V Ex W Hres Hw Hrel].
  - now rewrite Hs.
  - destruct (write_event_thrown _ _ _ _ _ _ _ W) as [E _]. rewrite Hrel. simpl.
    now rewrite E.
  - pose proof (write_event_ids X _ _ _ _ _ Hex Hnd Ex W) as N.
    assert (Hr' : In r (events d')).
    { apply (write_event_done X _ payload _ _ _ Hex) in W. rewrite W.
      assert (Hin : In r (events (db s) ++ [mkRow (next_rowid (events (db s))) payload])).
      { apply in_or_app. now left. }
      destruct (idToRemove (db s) payload) as [i|] eqn:Old; [|exact Hin].
      apply filter_In. split; [exact Hin|].
      apply negb_true_iff, String.eqb_neq. intros E.
      apply idToRemove_found in Old. destruct Old as [_ [r0 [Hr0 [Hi [Hp Hk]]]]].
      assert (r = r0).
      { apply (NoDup_map_eq _ _ (fun r : Row => id r) (events (db s))); auto.
        congruence. }
      subst r0. destruct Hkey; contradiction. }
    destruct ws as [c|]; destruct Hrel as [Hrel _]; rewrite Hrel; [|exact Hr'].
    eapply purged_keeps_row; [apply fanout_purged | exact N | exact Hr' | exact He].
Qed.

Lemma write_keeps_unrelated_events_witness :
  let mine := Sample.event "aa" "alice" 10000 1000 [] in
  let theirs := Sample.event "bb" "bob" 10000 2000 [] in
  let s := relay (_handleEvent Sample.X None mine Sample.start) in
  In (mkRow 1 mine) (events (db (relay (_handleEvent Sample.X None theirs s)))).
Proof.
  cbv zeta.
  apply (write_keeps_unrelated_events Sample.X None
           (Sample.event "bb" "bob" 10000 2000 [])
           (relay (_handleEvent Sample.X None
                     (Sample.event "aa" "alice" 10000 1000 []) Sample.start))
           (mkRow 1 (Sample.event "aa" "alice" 10000 1000 []))).
  - reflexivity.
  - vm_compute. repeat constructor. intros [].
  - vm_compute. auto.
  - reflexivity.
  - left. discriminate.
Defined.

(* ================================================================== *)
(** ** The REST bridge *)

Lemma insert_events_exn : forall X d st e,
  insert_events X d st = Throw e -> starts_bad_input e = false.
Proof.
  intros X d st e. unfold insert_events.
  assert (E : match sqlite_insert X (text st) (bindings st) d with
              | Refused message => Throw (SQLiteError message)
              | Stored ev ti ft => Return (mkDb ev ti ft (in_transaction d))
              end = Throw e -> starts_bad_input e = false).
  { destruct (sqlite_insert X _ _ d); [discriminate|].
    intros H. injection H as <-. reflexivity. }
  destruct (String.eqb _ _); [|exact E].
  destruct (row_of_statement st) as [ev|]; [|exact E].
  destruct (all_some _); [discriminate|].
  intros H. injection H as <-. reflexivity.
Qed.

Lemma write_event_exn : forall X d st old d' log e,
  write_event X d st old = (d', log, Some e) -> starts_bad_input e = false.
Proof.
  intros X d st old d' log e. unfold write_event, begin_transaction.
  destruct old as [i|].
  - destruct (in_transaction d).
    + intros H. injection H as _ _ <-. reflexivity.
    + destruct (insert_events X _ st) eqn:I; [discriminate|].
      intros H. injection H as _ _ <-. exact (insert_events_exn _ _ _ _ I).
  - destruct (insert_events X d st) eqn:I; [discriminate|].
    intros H. injection H as _ _ <-. exact (insert_events_exn _ _ _ _ I).
Qed.

Lemma handleRequest_rest_log : forall X reqId filters ex s,
  Forall is_sql (effects (_handleRequest X None reqId filters ex s)).
Proof.
  intros X reqId filters ex s. unfold _handleRequest.
  destruct (existsb (fun f => negb (admitted f)) filters); [constructor|].
  pose proof (run_queries_log X (db s) filters) as L.
  destruct ex as [k|]; cbn -[run_queries];
    destruct (run_queries X (db s) filters) as [[fs' log] [rows|e]]; simpl in L.
  - pose proof (remove_ephemeral_log rows (db s)) as L2.
    destruct (remove_ephemeral rows (db s)) as [d' purge]. cbn in *.
    apply Forall_app. now split.
  - cbn. now rewrite app_nil_r.
  - pose proof (remove_ephemeral_log rows (db s)) as L2.
    destruct (remove_ephemeral rows (db s)) as [d' purge]. cbn in *.
    apply Forall_app. now split.
  - cbn. now rewrite app_nil_r.
Qed.

Lemma handleEvent_rest_log : forall X (payload : Payload) s,
  Forall is_sql (effects (_handleEvent X None payload s)).
Proof.
  intros X payload s. eapply Forall_impl; [|apply handleEvent_effects].
  intros a [H | [[c [b [r [H _]]]] | [c [k [H _]]]]];
    [exact H | discriminate | discriminate].
Qed.

(** X16.  A REST POST whose body is an event object or an array of
    filters runs statements only: it sends and publishes no frame and leaves
    the registry as it was.  It answers 204 only for an event that passed
    validation (a duplicate included), and 400 exactly when the body has a
    truthy [id] and [sig] and validation returned false, in which case
    nothing was run at all; every thrown error is a 500. *)
Theorem rest_post_answers :
  forall (X : Collaborators) (body : Body) (s : Relay),
    let '(s', log, response) := rest_post X body s in
    subIds s' = subIds s
    /\ Forall is_sql log
    /\ (response = NoContent ->
        exists payload, body = EventBody payload
                        /\ _validateEvent X payload = Return true)
    /\ (forall e, response = ErrorStatus 400 e <->
                  e = BadInput
                  /\ exists payload, body = EventBody payload
                                     /\ truthy (id payload) && truthy (sig payload) = true
                                     /\ _validateEvent X payload = Return false)
    /\ (forall e, response = ErrorStatus 400 e -> s' = s /\ log = []).
Proof.
  intros X [payload|filters] s; unfold rest_post.
  - destruct (truthy (id payload) && truthy (sig payload)) eqn:T.
    + split; [apply handleEvent_subIds|]. split; [apply handleEvent_rest_log|].
      unfold _handleEvent.
      destruct (_validateEvent X payload) as [[|]|e] eqn:V.
      * destruct (exists_id (db s) (id payload)).
        { cbn. split; [eauto|]. split; [|discriminate].
          intros e. split; [discriminate|].
          intros [_ [p [E [_ V']]]]. injection E as <-. congruence. }
        destruct (write_event _ _ _ _) as [[d' log] [e|]] eqn:W.
        { cbn. apply write_event_exn in W. rewrite W.
          split; [discriminate|]. split; [|discriminate].
          intros e'. split; [discriminate|].
          intros [_ [p [E [_ V']]]]. injection E as <-. congruence. }
        cbn. split; [eauto|]. split; [|discriminate].
        intros e. split; [discriminate|].
        intros [_ [p [E [_ V']]]]. injection E as <-. congruence.
      * cbn. split; [discriminate|]. split.
        { intros e. split.
          - intros H. injection H as <-. split; [reflexivity|]. eauto.
          - intros [-> _]. reflexivity. }
        intros e _. now destruct s.
      * cbn. destruct (starts_bad_input e) eqn:B.
        { destruct e; try discriminate B. unfold _validateEvent in V.
          destruct (negb _); [discriminate|]. destruct (authorized X _); [|discriminate].
          destruct (Nat.eqb _ 0); [discriminate|].
          destruct (kind payload =? 30063).
          - destruct (_getFirstTag _ _); discriminate.
          - destruct (kind payload =? 32267); discriminate. }
        split; [discriminate|]. split; [|discriminate].
        intros e'. split; [discriminate|].
        intros [_ [p [E [_ V']]]]. injection E as <-. congruence.
    + split; [reflexivity|]. split; [constructor|]. split; [discriminate|].
      split; [|discriminate]. intros e. split; [discriminate|].
      intros [_ [p [E [T' _]]]]. injection E as <-. congruence.
  - split.
    { destruct (handleRequest_subIds X None "" filters None s) as [H|[c [fs [H _]]]];
        [exact H | discriminate]. }
    split; [apply handleRequest_rest_log|].
    destruct (result (_handleRequest X None "" filters None s)).
    + split; [discriminate|]. split; [|discriminate].
      intros e. split; [discriminate|]. intros [_ [p [E _]]]. discriminate.
    + split; [discriminate|]. split; [|discriminate].
      intros e'. split; [discriminate|]. intros [_ [p [E _]]]. discriminate.
Qed.

(* ================================================================== *)
(** ** What a request returns *)

Lemma where_plain_normalize : forall d f r,
  where_plain d (normalize_search f) r = where_plain d f r.
Proof.
  intros d f r. unfold normalize_search.
  destruct (search f) as [[s|[|s [|s' a]]]|]; reflexivity.
Qed.

(** X17.  Every event a request hands out, in an EVENT frame or in the
    REST response, is a stored event that satisfies one of the request's
    filters on [ids], [authors], [kinds], [since] and [until]; an absent
    field constrains nothing. *)
Theorem returned_events_match_a_filter :
  forall (X : Collaborators) (ws : option N) (reqId : string)
         (filters : list Filter) (ex : option string) (s : Relay) (ev : Event),
    In ev (handed_out (_handleRequest X ws reqId filters ex s)) ->
    exists (f : Filter) (r : Row),
      In f filters /\ In r (events (db s)) /\ row_event r = ev
      /\ in_opt String.eqb (ids f) (id ev) = true
      /\ in_opt String.eqb (authors f) (pubkey ev) = true
      /\ in_opt Z.eqb (kinds f) (kind ev) = true
      /\ (forall t, since f = Some t -> t <= created_at ev)
      /\ (forall t, until f = Some t -> created_at ev <= t).
Proof.
  intros X ws reqId filters ex s ev Hin.
  destruct (handleRequest_handed_out X ws reqId filters ex s)
    as [[Hnil _] | [fs [log [rows [Q [Hout _]]]]]].
  { rewrite Hnil in Hin. destruct Hin. }
  rewrite Hout in Hin. apply in_map_iff in Hin. destruct Hin as [r [<- Hr]].
  apply (run_queries_In X _ _ _ _ _ r Q) in Hr.
  destruct Hr as [f [rs [Hf [S Hin]]]].
  destruct (select_events_In X _ _ _ _ S Hin) as [He [W _]].
  rewrite where_plain_normalize in W. unfold where_plain in W.
  repeat (apply andb_prop in W; destruct W as [W ?]).
  exists f, r. repeat split; try assumption.
  - intros t Ht. rewrite Ht in *. now apply Z.leb_le.
  - intros t Ht. rewrite Ht in *. now apply Z.leb_le.
Qed.

Lemma returned_events_match_a_filter_witness :
  let e := Sample.event "aa" "alice" 1063 1000 [] in
  let s := relay (_handleEvent Sample.X None e Sample.start) in
  exists (f : Filter) (r : Row),
    In f [Sample.of_kinds [1063]] /\ In r (events (db s)) /\ row_event r = base e
    /\ in_opt String.eqb (ids f) "aa" = true
    /\ in_opt String.eqb (authors f) "alice" = true
    /\ in_opt Z.eqb (kinds f) 1063 = true
    /\ (forall t, since f = Some t -> t <= 1000)
    /\ (forall t, until f = Some t -> 1000 <= t).
Proof.
  cbv zeta.
  apply (returned_events_match_a_filter Sample.X None "" [Sample.of_kinds [1063]] None
           (relay (_handleEvent Sample.X None (Sample.event "aa" "alice" 1063 1000 [])
                                Sample.start))
           (base (Sample.event "aa" "alice" 1063 1000 []))).
  vm_compute. auto.
Defined.

Lemma newest_first_insert : forall r l,
  newest_first (map (fun x : Row => created_at x) l) ->
  newest_first (map (fun x : Row => created_at x) (insert_desc r l)).
Proof.
  intros r l. induction l as [|x l IH]; intros H.
  - simpl. split; [intros u []|exact I].
  - simpl. destruct (created_at x <=? created_at r) eqn:C.
    + apply Z.leb_le in C. simpl in *. destruct H as [H1 H2].
      split; [|split; assumption].
      intros u [<-|Hu]; [exact C|]. specialize (H1 _ Hu). lia.
    + apply Z.leb_gt in C. simpl in *. destruct H as [H1 H2].
      split; [|now apply IH].
      intros u Hu. apply in_map_iff in Hu. destruct Hu as [y [<- Hy]].
      apply In_insert_desc in Hy. destruct Hy as [Hy'|Hy'].
      { subst y. lia. }
      apply H1. now apply (in_map (fun x : Row => created_at x)).
Qed.

Lemma newest_first_order_by : forall l,
  newest_first (map (fun x : Row => created_at x) (order_by_created_at_desc l)).
Proof.
  induction l as [|r l IH]; [exact I|]. simpl. now apply newest_first_insert.
Qed.

Lemma newest_first_firstn : forall n l,
  newest_first l -> newest_first (firstn n l).
Proof.
  induction n as [|n IH]; intros [|t l] H; simpl; try exact I.
  destruct H as [H1 H2]. split; [|now apply IH].
  intros u Hu. apply H1. clear -Hu. revert n Hu.
  induction l as [|x l IHl]; intros [|n] Hu; simpl in Hu; try contradiction.
  destruct Hu as [<-|Hu]; [now left | right; eauto].
Qed.

Lemma newest_first_apply_limit : forall n l,
  newest_first (map (fun x : Row => created_at x) l) ->
  newest_first (map (fun x : Row => created_at x) (apply_limit n l)).
Proof.
  intros [n|] l H; unfold apply_limit; [|exact H].
  destruct (n =? 0); [exact H|]. destruct (n <? 0); [exact H|].
  rewrite <- firstn_map. now apply newest_first_firstn.
Qed.

Lemma apply_limit_length : forall n l,
  0 < n -> (List.length (apply_limit (Some n) l) <= Z.to_nat n)%nat.
Proof.
  intros n l H. unfold apply_limit.
  destruct (n =? 0) eqn:E; [apply Z.eqb_eq in E; lia|].
  destruct (n <? 0) eqn:L; [apply Z.ltb_lt in L; lia|].
  rewrite length_firstn. apply Nat.le_min_l.
Qed.

(** X18.  A request with one filter and no [search] hands its events out
    newest first, and at most [limit] of them when the limit is positive. *)
Theorem results_newest_first_and_limited :
  forall (X : Collaborators) (ws : option N) (reqId : string) (f : Filter)
         (ex : option string) (s : Relay),
    search f = None ->
    let l := handed_out (_handleRequest X ws reqId [f] ex s) in
    newest_first (map created_at l)
    /\ (forall n, limit f = Some n -> 0 < n -> (List.length l <= Z.to_nat n)%nat).
Proof.
  intros X ws reqId f ex s Hs l. subst l.
  destruct (handleRequest_handed_out X ws reqId [f] ex s)
    as [[Hnil _] | [fs [log [rows [Q [Hout _]]]]]].
  { rewrite Hnil. split; [exact I|]. intros n _ _. simpl. lia. }
  rewrite Hout. rewrite run_queries_cons, run_queries_nil in Q.
  assert (N : normalize_search f = f) by (unfold normalize_search; now rewrite Hs).
  rewrite N in Q. destruct (select_events X (db s) f) as [rs|e] eqn:S; [|discriminate].
  simpl in Q. injection Q as _ _ <-. rewrite app_nil_r.
  unfold select_events in S. destruct (prepare f); [discriminate|].
  unfold search_clause, search_truthy in S. rewrite Hs in S. simpl in S.
  injection S as <-. rewrite length_map, map_map. split.
  - apply (newest_first_apply_limit (limit f)), newest_first_order_by.
  - intros n -> Hn. now apply apply_limit_length.
Qed.

Lemma results_newest_first_and_limited_witness :
  let f := mkFilter None None (Some [1063]) [] None None None (Some 1) in
  let s1 := relay (_handleEvent Sample.X None (Sample.event "aa" "alice" 1063 1000 [])
                                Sample.start) in
  let s2 := relay (_handleEvent Sample.X None (Sample.event "bb" "alice" 1063 2000 [])
                                s1) in
  map (fun e : Event => id e) (handed_out (_handleRequest Sample.X None "" [f] None s2))
  = ["bb"]
  /\ (List.length (handed_out (_handleRequest Sample.X None "" [f] None s2)) <= 1)%nat.
Proof.
  cbv zeta. split; [reflexivity|].
  apply (proj2 (results_newest_first_and_limited Sample.X None ""
                  (mkFilter None None (Some [1063]) [] None None None (Some 1)) None
                  _ eq_refl) 1 eq_refl).
  lia.
Defined.

Lemma zapstore_not_ephemeral : forall k, In k zapstore_kinds -> ephemeral k = false.
Proof.
  intros k H. simpl in H.
  repeat (destruct H as [<-|H]; [reflexivity|]). destruct H.
Qed.

Lemma written_cases : forall X ws (payload : Payload) s,
  written (_handleEvent X ws payload s) = true ->
  exists d' log,
    exists_id (db s) (id payload) = false
    /\ write_event X (db s) (_serialize payload) (idToRemove (db s) payload)
       = (d', log, None)
    /\ purged d' (db (relay (_handleEvent X ws payload s))).
Proof.
  intros X ws payload s Hw.
  destruct (handleEvent_handled X ws payload s)
    as [o Hs Hw' _ | o d' log e V Ex W Hr Hres _ | o d' log V Ex W Hres Hw' Hrel].
  - congruence.
  - unfold written in Hw. rewrite Hres in Hw. discriminate.
  - exists d', log. split; [assumption|]. split; [assumption|].
    destruct ws as [c|]; destruct Hrel as [-> _].
    + apply fanout_purged.
    + apply purged_refl.
Qed.

(** X19.  Round trip of a write: once an event of one of the admitted
    kinds that carries the seven event keys and no other was written, over a
    websocket or through the REST bridge, a REST request for its id and kind
    returns that event and no other, with the seven fields as submitted. *)
Theorem written_event_is_returned :
  forall (X : Collaborators) (ws : option N) (payload : Payload) (s : Relay),
    let o := _handleEvent X ws payload s in
    extra payload = [] ->
    written o = true ->
    In (kind payload) zapstore_kinds ->
    handed_out (_handleRequest X None ""
                  [mkFilter (Some [id payload]) None (Some [kind payload]) []
                            None None None None]
                  None (relay o))
    = [base payload].
Proof.
  intros X ws payload s o Hex Hw Hk. subst o.
  destruct (written_cases X ws payload s Hw) as [d' [log [Ex [W P]]]].
  pose proof (written_row_unique X _ _ _ _ Hex Ex W) as U.
  pose proof (zapstore_not_ephemeral _ Hk) as NE.
  apply (purged_keeps _ _ _ _ P U) in NE as U'.
  set (s' := relay (_handleEvent X ws payload s)) in *.
  set (f := mkFilter (Some [id payload]) None (Some [kind payload]) []
                     None None None None).
  assert (A : existsb (fun f => negb (admitted f)) [f] = false).
  { assert (B : existsb (Z.eqb (kind payload)) zapstore_kinds = true).
    { apply existsb_exists. exists (kind payload). split; [exact Hk | apply Z.eqb_refl]. }
    unfold admitted, f. cbn [existsb kinds]. now rewrite B. }
  assert (S : select_events X (db s') f
              = Return [mkRow (next_rowid (events (db s))) payload]).
  { unfold select_events. simpl.
    rewrite (filter_ext _ (fun r : Row => String.eqb (id r) (id payload)
                                          && (kind r =? kind payload))).
    - rewrite <- filter_filter, U'. simpl. now rewrite Z.eqb_refl.
    - intros r. unfold where_plain. simpl. now rewrite !orb_false_r, !andb_true_r. }
  pose proof (handleRequest_outcome X None "" [f] None s') as O.
  cbv zeta in O. rewrite A, run_queries_cons, run_queries_nil in O.
  change (normalize_search f) with f in O. rewrite S in O. simpl in O.
  destruct O as [O _]. exact O.
Qed.

Lemma written_event_is_returned_witness :
  let e := Sample.event "aa" "alice" 1063 1000 [["t"; "games"]] in
  handed_out (_handleRequest Sample.X None ""
                [mkFilter (Some ["aa"]) None (Some [1063]) [] None None None None]
                None (relay (_handleEvent Sample.X (Some 1%N) e Sample.start)))
  = [base e].
Proof.
  cbv zeta.
  apply (written_event_is_returned Sample.X (Some 1%N)
           (Sample.event "aa" "alice" 1063 1000 [["t"; "games"]]) Sample.start).
  - reflexivity.
  - reflexivity.
  - simpl. auto.
Defined.

(* ================================================================== *)
(** ** The tag index and the full-text table *)























(* ================================================================== *)
(** ** Transactions *)

Lemma write_event_transaction : forall X d st old,
  in_transaction d = true ->
  in_transaction (fst (fst (write_event X d st old))) = true.
Proof.
  intros X d st old H. unfold write_event, begin_transaction. rewrite H.
  destruct old as [i|]; [exact H|].
  destruct (insert_events X d st) as [d2|e] eqn:I; [|exact H].
  apply insert_events_transaction in I. simpl. congruence.
Qed.

Lemma handleRequest_transaction : forall X ws reqId filters ex s,
  in_transaction (db (relay (_handleRequest X ws reqId filters ex s)))
  = in_transaction (db s).
Proof.
  intros X ws reqId filters ex s.
  destruct (handleRequest_handed_out X ws reqId filters ex s)
    as [[_ Hdb] | [fs [log [rows [_ [_ Hdb]]]]]]; rewrite Hdb; [reflexivity|].
  unfold remove_ephemeral. now destruct (map _ _).
Qed.

Lemma fanout_transaction : forall X c i keys s,
  in_transaction (db (relay (fanout X c i keys s))) = in_transaction (db s).
Proof.
  intros X c i keys. induction keys as [|k keys IH]; intros s; [reflexivity|].
  rewrite fanout_cons. destruct (lookup k (subIds s)); [|reflexivity].
  cbn [relay]. rewrite IH. apply handleRequest_transaction.
Qed.

Lemma handleEvent_transaction : forall X ws (payload : Payload) s,
  in_transaction (db s) = true ->
  in_transaction (db (relay (_handleEvent X ws payload s))) = true.
Proof.
  intros X ws payload s H.
  pose proof (write_event_transaction X (db s) (_serialize payload)
                (idToRemove (db s) payload) H) as W'.
  destruct (handleEvent_handled X ws payload s)
    as [o Hs _ _ | o d' log e _ _ W Hr _ _ | o d' log _ _ W _ _ Hrel].
  - now rewrite Hs.
  - rewrite W in W'. now rewrite Hr.
  - rewrite W in W'. simpl in W'.
    destruct ws as [c|]; destruct Hrel as [-> _]; [|exact W'].
    now rewrite fanout_transaction.
Qed.

Lemma step_transaction : forall X sv i,
  in_transaction (db (state sv)) = true ->
  in_transaction (db (state (fst (step X sv i)))) = true.
Proof.
  intros X sv i H. destruct i as [c|c m|c|payload|filters]; simpl.
  - exact H.
  - destruct (is_live c sv); [|exact H].
    destruct m as [reqId filters|payload|reqId|type]; simpl; try exact H.
    + now rewrite handleRequest_transaction.
    + now apply handleEvent_transaction.
  - destruct (is_live c sv); exact H.
  - now apply handleEvent_transaction.
  - now rewrite handleRequest_transaction.
Qed.

Lemma run_transaction : forall X inputs sv,
  in_transaction (db (state sv)) = true ->
  in_transaction (db (state (run X sv inputs))) = true.
Proof.
  intros X inputs. induction inputs as [|i rest IH]; intros sv H; [exact H|].
  simpl. apply IH. now apply step_transaction.
Qed.

(** X23.  Nothing but the COMMIT of a replacement closes a transaction:
    once a BEGIN was left open, it stays open through every later message
    and REST call, and every valid, new event that would replace a stored
    one is refused with the nested-transaction error, the store and the
    registry unchanged. *)
Theorem open_transaction_blocks_replacements :
  forall (X : Collaborators) (sv : Server) (inputs : list Input)
         (ws : option N) (payload : Payload),
    in_transaction (db (state sv)) = true ->
    let s := state (run X sv inputs) in
    in_transaction (db s) = true
    /\ (_validateEvent X payload = Return true ->
        exists_id (db s) (id payload) = false ->
        idToRemove (db s) payload <> None ->
        let o := _handleEvent X ws payload s in
        result o = Throw NestedTransaction /\ relay o = s).
Proof.
  intros X sv inputs ws payload H s.
  pose proof (run_transaction X inputs sv H) as T. fold s in T.
  split; [exact T|]. intros V Ex Old o. subst o.
  destruct (idToRemove (db s) payload) as [i|] eqn:O; [|contradiction].
  assert (W : write_event X (db s) (_serialize payload) (Some i)
              = (db s, [Sql Begin], Some NestedTransaction)).
  { unfold write_event, begin_transaction. now rewrite T. }
  rewrite <- O in W.
  rewrite (handleEvent_thrown_eq X ws payload s _ _ _ V Ex W). simpl.
  split; [reflexivity | now destruct s].
Qed.

Lemma open_transaction_blocks_replacements_witness :
  let first := Sample.event "a1" "alice" 10000 1000 [] in
  let broken := mkPayload (mkEvent "a2" "alice" "sig" 10000 2000 "" [])
                          [("relay", JStr "x")] in
  let next := Sample.event "a3" "alice" 10000 3000 [] in
  let s1 := relay (_handleEvent Sample.X (Some 1%N) first Sample.start) in
  let s2 := relay (_handleEvent Sample.X (Some 1%N) broken s1) in
  let s3 := state (run Sample.X (mkServer [1%N] s2)
                       [PostRequest [Sample.of_kinds [1063]]]) in
  in_transaction (db s2) = true
  /\ result (_handleEvent Sample.X (Some 1%N) next s3) = Throw NestedTransaction.
Proof.
  cbv zeta. split; [reflexivity|].
  apply (open_transaction_blocks_replacements Sample.X
           (mkServer [1%N]
              (relay (_handleEvent Sample.X (Some 1%N)
                        (mkPayload (mkEvent "a2" "alice" "sig" 10000 2000 "" [])
                                   [("relay", JStr "x")])
                        (relay (_handleEvent Sample.X (Some 1%N)
                                  (Sample.event "a1" "alice" 10000 1000 [])
                                  Sample.start)))))
           [PostRequest [Sample.of_kinds [1063]]]
           (Some 1%N) (Sample.event "a3" "alice" 10000 3000 [])).
  - reflexivity.
  - reflexivity.
  - reflexivity.
  - discriminate.
Defined.

(* ================================================================== *)
(** ** How a request fails *)

Lemma hashKeys_normalize : forall f, hashKeys (normalize_search f) = hashKeys f.
Proof.
  intros f. unfold normalize_search.
  destruct (search f) as [[q|[|q [|q' a]]]|]; reflexivity.
Qed.

(** A filter with an own key that [filterMappings] inherits does not
    prepare. *)
Lemma prepare_inherited : forall f key,
  In key (map fst (hashKeys f)) -> inherited key = true ->
  exists e, prepare f = Some e.
Proof.
  intros f key Hin Hk. unfold prepare. apply in_map_iff in Hin.
  destruct Hin as [kv [<- Hkv]].
  destruct (existsb (fun kv => existsb (String.eqb (fst kv)) prototype_functions)
                    (hashKeys f)) eqn:F; [eauto|].
  assert (P : existsb (fun kv => String.eqb (fst kv) "__proto__") (hashKeys f) = true).
  { apply existsb_exists. exists kv. split; [assumption|].
    unfold inherited in Hk. apply orb_prop in Hk. destruct Hk as [Hk|Hk]; [|exact Hk].
    assert (B : existsb (fun kv => existsb (String.eqb (fst kv)) prototype_functions)
                        (hashKeys f) = true); [|congruence].
    apply existsb_exists. exists kv. auto. }
  rewrite P. eauto.
Qed.

Lemma run_queries_throws : forall X d filters f e,
  In f filters -> select_events X d (normalize_search f) = Throw e ->
  exists fs log e', run_queries X d filters = (fs, log, Throw e').
Proof.
  intros X d filters f e. induction filters as [|f0 rest IH]; intros Hin S.
  - destruct Hin.
  - rewrite run_queries_cons.
    destruct (select_events X d (normalize_search f0)) as [rows|e0] eqn:S0; [|eauto].
    destruct Hin as [->|Hin]; [congruence|].
    destruct (IH Hin S) as [fs [log [e' Q]]]. rewrite Q. simpl. eauto.
Qed.

(** X24.  The query builder looks every own key of a filter up in
    [filterMappings] without asking whether the entry is its own, so a key
    named like a member of [Object.prototype] (constructor, toString,
    __proto__, ...) puts the printed form of that member into the WHERE
    clause.  A request that passes the gate and has such a key in one of its
    filters fails: it hands out no event, publishes no EOSE and deletes
    nothing; a websocket is sent CLOSED with an error as reason, and the
    REST bridge is thrown the error. *)
Theorem inherited_key_fails_request :
  forall (X : Collaborators) (ws : option N) (reqId : string)
         (filters : list Filter) (ex : option string) (s : Relay)
         (f : Filter) (key : string),
    (forall g, In g filters -> admitted g = true) ->
    In f filters ->
    In key (map fst (hashKeys f)) ->
    inherited key = true ->
    let o := _handleRequest X ws reqId filters ex s in
    handed_out o = []
    /\ db (relay o) = db s
    /\ existsb is_eose (effects o) = false
    /\ exists e,
         match ws with
         | Some c => In (Send c (CLOSED reqId (Some (ErrorReason e)))) (effects o)
         | None => result o = Throw e
         end.
Proof.
  intros X ws reqId filters ex s f key Hadm Hf Hkey Hin o. subst o.
  assert (G : existsb (fun f => negb (admitted f)) filters = false)
    by now apply gate_all.
  destruct (prepare_inherited (normalize_search f) key) as [e0 P];
    [now rewrite hashKeys_normalize | assumption |].
  assert (S : select_events X (db s) (normalize_search f) = Throw e0).
  { unfold select_events. now rewrite P. }
  destruct (run_queries_throws X (db s) filters f e0 Hf S) as [fs [log [e Q]]].
  pose proof (handleRequest_outcome X ws reqId filters ex s) as O. cbv zeta in O.
  rewrite G, Q in O. destruct O as [O1 O2].
  split; [exact O1|]. split; [exact O2|].
  pose proof (run_queries_log X (db s) filters) as L. rewrite Q in L. simpl in L.
  unfold _handleRequest. rewrite G.
  destruct filters as [|f0 rest]; [destruct Hf|].
  destruct ws as [c|]; destruct ex as [k|]; cbn -[run_queries]; rewrite Q; cbn.
  - split.
    + rewrite existsb_app, (no_eose_sql _ L). reflexivity.
    + exists e. apply in_or_app. right. now left.
  - split.
    + rewrite existsb_app, (no_eose_sql _ L). reflexivity.
    + exists e. right. apply in_or_app. right. now left.
  - split; [|eauto]. rewrite app_nil_r. exact (no_eose_sql _ L).
  - split; [|eauto]. rewrite app_nil_r. exact (no_eose_sql _ L).
Qed.

Lemma inherited_key_fails_request_witness :
  let f := mkFilter None None (Some [1063]) [("constructor", ["x"])]
                    None None None None in
  let o := _handleRequest Sample.X (Some 3%N) "q" [f] None Sample.start in
  admitted f = true
  /\ slRegex "constructor" = None
  /\ handed_out o = []
  /\ existsb is_eose (effects o) = false
  /\ In (Send 3%N (CLOSED "q" (Some (ErrorReason SqlSyntaxError)))) (effects o).
Proof.
  cbv zeta. split; [reflexivity|]. split; [reflexivity|].
  destruct (inherited_key_fails_request Sample.X (Some 3%N) "q"
              [mkFilter None None (Some [1063]) [("constructor", ["x"])]
                        None None None None]
              None Sample.start
              (mkFilter None None (Some [1063]) [("constructor", ["x"])]
                        None None None None)
              "constructor") as [H1 [_ [H3 _]]].
  - intros g [<-|[]]. reflexivity.
  - now left.
  - now left.
  - reflexivity.
  - split; [exact H1|]. split; [exact H3|]. vm_compute. auto.
Defined.
